(** * Agent execution orchestrator (AgentExecutorService)

    A shallow embedding of [backend/libs/llm/src/agent-executor.service.ts]
    and of the JavaScript built-ins it relies on, followed by the properties
    of the orchestrator stated in the specification.  The model service and
    its providers, which the orchestrator calls, and the chat service and
    gateway, which call the orchestrator, are embedded after it, with further
    properties of the whole.

    Conventions.
    - A JavaScript string is a [string]; one character stands for one UTF-16
      code unit (the model's alphabet is the 256 lowest code units).
    - Token counts are integers [Z]; counters and step limits are [nat].
    - [async]/[await] is sequential in this service: every promise is awaited
      where it is created, so a call is modelled as a state transformer.
    - [timestamp: new Date()] of a step record is a wall-clock reading and is
      left out of the step records. *)

From Stdlib Require Import ZArith Lia Ascii String Sorted.
From stdpp Require Import gmap strings list.

Set Warnings "-register-all".

Local Open Scope string_scope.
Local Open Scope list_scope.

(** ** JavaScript values and JSON *)

Module Js.

(** The values exchanged with tools: the JSON data model, [undefined], and
    [Error] instances (of which only the [message] is ever read).  A number is
    carried by its JSON lexeme; its numeric value is never inspected.  Two
    lexemes of one number ([1.0] and [1]) are therefore two values here, and
    [stringify] writes the lexeme where JSON.stringify writes the number in
    its own form ([-1.5e3] as [-1500], [-0] as [0]): the two agree on the
    integers of at most 15 digits written without leading zero, fraction or
    exponent, [-0] apart.  There is no BigInt and no cyclic value, on which
    JSON.stringify throws. *)
Inductive Value : Type :=
| Undefined
| Null
| Bool (b : bool)
| Number (lexeme : string)
| Str (s : string)
| Array (items : list Value)
| Object (fields : list (string * Value))
| Error (message : string).

(** Characters are written by their codes: 34 is the double quote, 92 the
    backslash, 123 and 125 the braces, 91 and 93 the brackets, 58 the colon,
    44 the comma, 45 the minus sign, 43 the plus sign, 46 the dot, 48 to 57
    the digits. *)
Definition chr (n : nat) : ascii := ascii_of_nat n.
Definition quote_char : ascii := chr 34.
Definition backslash : ascii := chr 92.

Definition ascii_eqb (a b : ascii) : bool := Ascii.eqb a b.
Definition code (c : ascii) : nat := nat_of_ascii c.

Fixpoint join (sep : string) (parts : list string) : string :=
  match parts with
  | [] => EmptyString
  | [p] => p
  | p :: rest => p +:+ sep +:+ join sep rest
  end.

Definition hex_digit (n : nat) : ascii :=
  if Nat.ltb n 10 then chr (48 + n) else chr (87 + n).

(** [QuoteJSONString]: the characters that JSON.stringify escapes. *)
Definition escape_char (c : ascii) : string :=
  let n := code c in
  if Nat.eqb n 34 then String backslash (String quote_char EmptyString)
  else if Nat.eqb n 92 then String backslash (String backslash EmptyString)
  else if Nat.eqb n 8 then String backslash "b"
  else if Nat.eqb n 12 then String backslash "f"
  else if Nat.eqb n 10 then String backslash "n"
  else if Nat.eqb n 13 then String backslash "r"
  else if Nat.eqb n 9 then String backslash "t"
  else if Nat.ltb n 32 then
    String backslash ("u00" +:+ String (hex_digit (n / 16)) (String (hex_digit (n mod 16)) EmptyString))
  else String c EmptyString.

Fixpoint escape (s : string) : string :=
  match s with
  | EmptyString => EmptyString
  | String c rest => escape_char c +:+ escape rest
  end.

Definition quote (s : string) : string :=
  String quote_char (escape s +:+ String quote_char EmptyString).

(** [JSON.stringify(v)].  [None] is the result [undefined]: JSON.stringify
    returns [undefined], not a string, when given [undefined].  Inside an array
    an [undefined] item is written [null]; inside an object a property whose
    value is [undefined] is skipped; an [Error] has no enumerable property. *)
Fixpoint stringify (v : Value) : option string :=
  match v with
  | Undefined => None
  | Null => Some "null"
  | Bool true => Some "true"
  | Bool false => Some "false"
  | Number lexeme => Some lexeme
  | Str s => Some (quote s)
  | Array items =>
      let fix elements (l : list Value) : list string :=
        match l with
        | [] => []
        | x :: rest => default "null" (stringify x) :: elements rest
        end in
      Some ("[" +:+ join "," (elements items) +:+ "]")
  | Object fields =>
      let fix members (l : list (string * Value)) : list string :=
        match l with
        | [] => []
        | (k, x) :: rest =>
            match stringify x with
            | Some t => (quote k +:+ ":" +:+ t) :: members rest
            | None => members rest
            end
        end in
      Some ("{" +:+ join "," (members fields) +:+ "}")
  | Error _ => Some "{}"
  end.

(** *** JSON.parse

    A lexer and a stack parser, each a fold over its input, for the JSON
    grammar of ECMA-404.  [None] is the [SyntaxError] that JSON.parse throws:
    the texts accepted are those of the grammar.  The value read keeps what
    the text says: the members of an object as written, where JSON.parse
    keeps the last of the members that share a key and puts integer keys
    first; the lexeme of a number, where JSON.parse rounds to a double; and a
    [\u] escape within the model's alphabet, its code reduced modulo 256. *)

Inductive Token : Type :=
| TLBrace | TRBrace | TLBracket | TRBracket | TColon | TComma
| TStr (s : string) | TNum (lexeme : string) | TTrue | TFalse | TNull.

Inductive NumPhase : Type :=
| NMinus | NZero | NInt | NDot | NFrac | NExp | NExpSign | NExpDigits.

Inductive LexState : Type :=
| LIdle
| LStr (acc : list ascii)
| LEsc (acc : list ascii)
| LHex (acc : list ascii) (digits : list nat)
| LNum (acc : list ascii) (phase : NumPhase)
| LWord (rest : list ascii) (tok : Token).

Definition string_of_rev (acc : list ascii) : string :=
  string_of_list_ascii (rev acc).

Definition is_digit (c : ascii) : bool :=
  Nat.leb 48 (code c) && Nat.leb (code c) 57.

Definition is_space (c : ascii) : bool :=
  let n := code c in
  Nat.eqb n 32 || Nat.eqb n 9 || Nat.eqb n 10 || Nat.eqb n 13.

Definition hex_value (c : ascii) : option nat :=
  let n := code c in
  if Nat.leb 48 n && Nat.leb n 57 then Some (n - 48)
  else if Nat.leb 97 n && Nat.leb n 102 then Some (n - 87)
  else if Nat.leb 65 n && Nat.leb n 70 then Some (n - 55)
  else None.

Definition is_exp_mark (c : ascii) : bool :=
  Nat.eqb (code c) 101 || Nat.eqb (code c) 69.

Definition lex_idle (c : ascii) (toks : list Token) : option (LexState * list Token) :=
  let n := code c in
  if is_space c then Some (LIdle, toks)
  else if Nat.eqb n 123 then Some (LIdle, TLBrace :: toks)
  else if Nat.eqb n 125 then Some (LIdle, TRBrace :: toks)
  else if Nat.eqb n 91 then Some (LIdle, TLBracket :: toks)
  else if Nat.eqb n 93 then Some (LIdle, TRBracket :: toks)
  else if Nat.eqb n 58 then Some (LIdle, TColon :: toks)
  else if Nat.eqb n 44 then Some (LIdle, TComma :: toks)
  else if Nat.eqb n 34 then Some (LStr [], toks)
  else if Nat.eqb n 45 then Some (LNum [c] NMinus, toks)
  else if Nat.eqb n 48 then Some (LNum [c] NZero, toks)
  else if is_digit c then Some (LNum [c] NInt, toks)
  else if Nat.eqb n 116 then Some (LWord (list_ascii_of_string "rue") TTrue, toks)
  else if Nat.eqb n 102 then Some (LWord (list_ascii_of_string "alse") TFalse, toks)
  else if Nat.eqb n 110 then Some (LWord (list_ascii_of_string "ull") TNull, toks)
  else None.

(** One character inside a number: [Some (Some p)] moves to phase [p],
    [Some None] says the number ended before this character, [None] is a
    syntax error. *)
Definition lex_number (phase : NumPhase) (c : ascii) : option (option NumPhase) :=
  let n := code c in
  let dot := Nat.eqb n 46 in
  match phase with
  | NMinus => if Nat.eqb n 48 then Some (Some NZero)
              else if is_digit c then Some (Some NInt) else None
  | NZero => if dot then Some (Some NDot)
             else if is_exp_mark c then Some (Some NExp) else Some None
  | NInt => if is_digit c then Some (Some NInt)
            else if dot then Some (Some NDot)
            else if is_exp_mark c then Some (Some NExp) else Some None
  | NDot => if is_digit c then Some (Some NFrac) else None
  | NFrac => if is_digit c then Some (Some NFrac)
             else if is_exp_mark c then Some (Some NExp) else Some None
  | NExp => if Nat.eqb n 43 || Nat.eqb n 45 then Some (Some NExpSign)
            else if is_digit c then Some (Some NExpDigits) else None
  | NExpSign => if is_digit c then Some (Some NExpDigits) else None
  | NExpDigits => if is_digit c then Some (Some NExpDigits) else Some None
  end.

Definition number_complete (phase : NumPhase) : bool :=
  match phase with
  | NZero | NInt | NFrac | NExpDigits => true
  | _ => false
  end.

Definition lex_escape (c : ascii) : option ascii :=
  let n := code c in
  if Nat.eqb n 34 || Nat.eqb n 92 || Nat.eqb n 47 then Some c
  else if Nat.eqb n 98 then Some (chr 8)
  else if Nat.eqb n 102 then Some (chr 12)
  else if Nat.eqb n 110 then Some (chr 10)
  else if Nat.eqb n 114 then Some (chr 13)
  else if Nat.eqb n 116 then Some (chr 9)
  else None.

Definition lex_step (st : LexState * list Token) (c : ascii)
  : option (LexState * list Token) :=
  let '(state, toks) := st in
  match state with
  | LIdle => lex_idle c toks
  | LStr acc =>
      if Nat.eqb (code c) 34 then Some (LIdle, TStr (string_of_rev acc) :: toks)
      else if Nat.eqb (code c) 92 then Some (LEsc acc, toks)
      else if Nat.ltb (code c) 32 then None
      else Some (LStr (c :: acc), toks)
  | LEsc acc =>
      if Nat.eqb (code c) 117 then Some (LHex acc [], toks)
      else match lex_escape c with
           | Some d => Some (LStr (d :: acc), toks)
           | None => None
           end
  | LHex acc digits =>
      match hex_value c with
      | None => None
      | Some d =>
          match digits with
          | [d1; d2; d3] =>
              (* the code unit, kept within the model's alphabet *)
              Some (LStr (chr ((d1 * 4096 + d2 * 256 + d3 * 16 + d) mod 256) :: acc), toks)
          | _ => Some (LHex acc (digits ++ [d]), toks)
          end
      end
  | LNum acc phase =>
      match lex_number phase c with
      | None => None
      | Some (Some phase') => Some (LNum (c :: acc) phase', toks)
      | Some None => lex_idle c (TNum (string_of_rev acc) :: toks)
      end
  | LWord rest tok =>
      match rest with
      | [] => None
      | r :: rest' =>
          if ascii_eqb c r
          then match rest' with
               | [] => Some (LIdle, tok :: toks)
               | _ => Some (LWord rest' tok, toks)
               end
          else None
      end
  end.

Fixpoint lex_from (st : LexState * list Token) (input : list ascii)
  : option (list Token) :=
  match input with
  | [] =>
      match st with
      | (LIdle, toks) => Some (rev toks)
      | (LNum acc phase, toks) =>
          if number_complete phase
          then Some (rev (TNum (string_of_rev acc) :: toks)) else None
      | _ => None
      end
  | c :: rest =>
      match lex_step st c with
      | Some st' => lex_from st' rest
      | None => None
      end
  end.

Definition lex (s : string) : option (list Token) :=
  lex_from (LIdle, []) (list_ascii_of_string s).

Inductive ArrState : Type := AOpen | AItem | ASep.
Inductive ObjState : Type :=
| OOpen | OKey | OColon (k : string) | OValue (k : string) | OSep.

Inductive Frame : Type :=
| FArr (items : list Value) (st : ArrState)
| FObj (fields : list (string * Value)) (st : ObjState).

(** The parser state: the open containers, innermost first, and the finished
    top-level value once there is one. *)
Definition ParseState : Type := list Frame * option Value.

Definition deliver (v : Value) (stack : list Frame) : option ParseState :=
  match stack with
  | [] => Some ([], Some v)
  | FArr items (AOpen | AItem) :: below => Some (FArr (v :: items) ASep :: below, None)
  | FObj fields (OValue k) :: below => Some (FObj ((k, v) :: fields) OSep :: below, None)
  | _ => None
  end.

Definition expects_value (stack : list Frame) : bool :=
  match stack with
  | [] => true
  | FArr _ (AOpen | AItem) :: _ => true
  | FObj _ (OValue _) :: _ => true
  | _ => false
  end.

Definition parse_step (st : ParseState) (tok : Token) : option ParseState :=
  match st with
  | (_, Some _) => None
  | (stack, None) =>
      match tok with
      | TStr s =>
          match stack with
          | FObj fields (OOpen | OKey) :: below => Some (FObj fields (OColon s) :: below, None)
          | _ => deliver (Str s) stack
          end
      | TNum lexeme => deliver (Number lexeme) stack
      | TTrue => deliver (Bool true) stack
      | TFalse => deliver (Bool false) stack
      | TNull => deliver Null stack
      | TLBracket => if expects_value stack then Some (FArr [] AOpen :: stack, None) else None
      | TLBrace => if expects_value stack then Some (FObj [] OOpen :: stack, None) else None
      | TRBracket =>
          match stack with
          | FArr items (AOpen | ASep) :: below => deliver (Array (rev items)) below
          | _ => None
          end
      | TRBrace =>
          match stack with
          | FObj fields (OOpen | OSep) :: below => deliver (Object (rev fields)) below
          | _ => None
          end
      | TComma =>
          match stack with
          | FArr items ASep :: below => Some (FArr items AItem :: below, None)
          | FObj fields OSep :: below => Some (FObj fields OKey :: below, None)
          | _ => None
          end
      | TColon =>
          match stack with
          | FObj fields (OColon k) :: below => Some (FObj fields (OValue k) :: below, None)
          | _ => None
          end
      end
  end.

Fixpoint parse_tokens (st : ParseState) (toks : list Token) : option Value :=
  match toks with
  | [] => match st with ([], Some v) => Some v | _ => None end
  | tok :: rest =>
      match parse_step st tok with
      | Some st' => parse_tokens st' rest
      | None => None
      end
  end.

(** [JSON.parse(text)]; [None] when it throws [SyntaxError]. *)
Definition parse (text : string) : option Value :=
  match lex text with
  | Some toks => parse_tokens ([], None) toks
  | None => None
  end.

(** [||] on a string-or-missing operand: [undefined], [null] and the empty
    string are falsy. *)
Definition or_else (s : option string) (fallback : string) : string :=
  match s with
  | Some (String c rest) => String c rest
  | _ => fallback
  end.

End Js.

(** ** Data model

    The interfaces of [interfaces/model-provider.interface.ts] and
    [interfaces/tool-definition.interface.ts], and the rows the service reads
    through Prisma. *)

Inductive Role : Type := system | user | assistant | tool.

(** [ToolCall]: [{ id, type: 'function', function: { name, arguments } }]. *)
Record ToolCall : Type := {
  tc_id : string;
  tc_name : string;          (* function.name *)
  tc_arguments : string      (* function.arguments, a JSON string *)
}.

(** [Message].  [content] is declared [string]; at run time it holds whatever
    was stored, and [JSON.stringify] may have produced [undefined] ([None]). *)
Record Message : Type := {
  role : Role;
  content : option string;
  tool_calls : option (list ToolCall);
  tool_call_id : option string
}.

Record ToolDefinition : Type := {
  td_name : string;
  td_description : string;
  td_inputSchema : Js.Value
}.

Record ToolExecutionContext : Type := {
  ctx_organizationId : string;
  ctx_agentId : string;
  ctx_userId : option string
}.

(** The promise returned by [executor.execute]. *)
Inductive Settled : Type :=
| Fulfilled (output : Js.Value)
| RejectedWith (reason : Js.Value).

Record ToolExecutor : Type := {
  te_name : string;
  te_execute : Js.Value -> ToolExecutionContext -> Settled
}.

Inductive ToolChoice : Type := auto | required | none.

Record Usage : Type := {
  inputTokens : Z;
  outputTokens : Z;
  totalTokens : Z
}.

(** [GenerateOptions]; [temperature] and [maxTokens] are never set here. *)
Record GenerateOptions : Type := {
  go_modelAlias : string;
  go_systemPrompt : option string;
  go_messages : list Message;
  go_tools : option (list ToolDefinition);
  go_toolChoice : option ToolChoice
}.

Inductive FinishReason : Type := stop | tool_calls_reason | length_reason | error_reason.

Record GenerateResponse : Type := {
  gr_content : string;
  gr_toolCalls : option (list ToolCall);
  gr_finishReason : FinishReason;
  gr_usage : Usage
}.

(** An entry of the array built by [executeToolCalls]; a property that the
    object literal does not set is [None]. *)
Record ToolResult : Type := {
  toolCallId : string;
  toolName : string;
  tr_input : option Js.Value;
  tr_output : option Js.Value;
  tr_error : option Js.Value
}.

(** [result.output]: reading a property that is not set gives [undefined]. *)
Definition result_output (r : ToolResult) : Js.Value :=
  default Js.Undefined (tr_output r).

Inductive StepType : Type := llm_call | tool_call | retrieval.

(** The [data] payloads that the service writes into step records. *)
Inductive StepData : Type :=
| SingleStepCall (input : option Message) (output : string)
                 (toolCalls : option (list ToolCall))
| ToolResultsCall (output : string)          (* input: 'Tool results' *)
| LoopCall (iteration : nat) (output : string) (toolCalls : option (list ToolCall))
| PlanningCall (plan : string)               (* phase: 'planning' *)
| ToolResults (results : list ToolResult).

Record AgentExecutionStep : Type := {
  step_type : StepType;
  step_data : StepData
}.

Record AgentExecutionResult : Type := {
  output : string;
  toolCallsExecuted : nat;
  steps : list AgentExecutionStep;
  usage : Usage
}.

(** A reference to a JavaScript array of messages. *)
Definition loc : Type := nat.

Record AgentExecutionOptions : Type := {
  agentId : string;
  organizationId : string;
  userId : option string;
  input : string;
  chatId : option string;
  runId : option string;
  previousMessages : option loc;
  toolExecutors : option (list ToolExecutor)
}.

(** *** Stored rows

    The rows carry the fields that the service reads, with the types that
    [docs/DATA_MODEL.md] gives them; a nullable column is an [option]. *)

Record AgentSystemPrompt : Type := {
  sp_agentId : string;
  sp_prompt : string;
  sp_status : string;
  sp_createdAt : Z
}.

Record Tool : Type := {
  tool_name : string;
  tool_description : option string;
  tool_inputSchema : option Js.Value     (* config?.inputSchema, when truthy *)
}.

Record AgentTool : Type := {
  at_agentId : string;
  at_tool : Tool
}.

(** [maxSteps] is an integer that [CreateAgentDto] keeps between 1 and 50. *)
Record Agent : Type := {
  a_id : string;
  a_defaultModelAlias : option string;
  a_planningMode : string;
  a_maxSteps : option nat
}.

Record ContextDocument : Type := {
  doc_agentId : option string;
  doc_organizationId : string;
  doc_title : string;
  doc_content : option string
}.

Record AgentMemory : Type := {
  mem_agentId : string;
  mem_scope : string;
  mem_key : string;
  mem_value : string
}.

Record Database : Type := {
  agents : list Agent;
  agentSystemPrompts : list AgentSystemPrompt;
  agentTools : list AgentTool;
  contextDocuments : list ContextDocument;
  agentMemories : list AgentMemory
}.

(** The agent with the relations that [execute] asks Prisma to include. *)
Record AgentWithRelations : Type := {
  agent : Agent;
  systemPrompts : list AgentSystemPrompt;
  tools : list AgentTool
}.

(** ** Prisma queries *)

Fixpoint insert_desc (p : AgentSystemPrompt) (l : list AgentSystemPrompt)
  : list AgentSystemPrompt :=
  match l with
  | [] => [p]
  | q :: rest =>
      if (sp_createdAt q <? sp_createdAt p)%Z then p :: q :: rest
      else q :: insert_desc p rest
  end.

(** [orderBy: { createdAt: 'desc' }] *)
Definition orderBy_createdAt_desc (l : list AgentSystemPrompt) : list AgentSystemPrompt :=
  foldr insert_desc [] l.

(** [prisma.agent.findUnique({ where: { id }, include: { systemPrompts:
    { where: { status: 'active' }, orderBy: { createdAt: 'desc' }, take: 1 },
    tools: { include: { tool: true } } } })] *)
Definition findUnique_agent (db : Database) (id : string) : option AgentWithRelations :=
  match List.find (fun a => String.eqb (a_id a) id) (agents db) with
  | None => None
  | Some a =>
      Some {|
        agent := a;
        systemPrompts :=
          take 1 (orderBy_createdAt_desc
                    (List.filter (fun p => String.eqb (sp_agentId p) id
                                           && String.eqb (sp_status p) "active")
                                 (agentSystemPrompts db)));
        tools := List.filter (fun t => String.eqb (at_agentId t) id) (agentTools db)
      |}
  end.

Definition option_string_eqb (a : option string) (b : string) : bool :=
  match a with
  | Some s => String.eqb s b
  | None => false
  end.

(** [prisma.contextDocument.findMany({ where: { OR: [{ agentId },
    { organizationId, agentId: null }] }, take: 5 })] *)
Definition findMany_contextDocument (db : Database) (agentId organizationId : string)
  : list ContextDocument :=
  take 5 (List.filter
            (fun d => option_string_eqb (doc_agentId d) agentId
                      || (String.eqb (doc_organizationId d) organizationId
                          && match doc_agentId d with None => true | Some _ => false end))
            (contextDocuments db)).

(** [prisma.agentMemory.findMany({ where: { agentId, scope: { in: ['agent',
    'global'] } }, take: 5 })] *)
Definition findMany_agentMemory (db : Database) (agentId : string) : list AgentMemory :=
  take 5 (List.filter
            (fun m => String.eqb (mem_agentId m) agentId
                      && (String.eqb (mem_scope m) "agent"
                          || String.eqb (mem_scope m) "global"))
            (agentMemories db)).

(** ** Effects

    A run reads and writes message arrays that the caller may hold a reference
    to, calls the model, and invokes tool executors.  The world records the
    store of message arrays and, in order, every model call with its outcome
    and every executor invocation.  An exception leaves the world as it was
    when it was thrown. *)

Inductive Exception : Type :=
| AgentNotFound                 (* new Error('Agent not found') *)
| SyntaxError                   (* thrown by JSON.parse *)
| TypeError                     (* a property read on undefined or null *)
| Rejection (reason : Js.Value) (* a collaborator's promise was rejected *).

Inductive Outcome (A : Type) : Type :=
| Returned (a : A)
| Thrown (e : Exception).
Arguments Returned {A} a.
Arguments Thrown {A} e.

Record LlmCall : Type := {
  request : GenerateOptions;
  response : Outcome GenerateResponse
}.

Record ToolInvocation : Type := {
  inv_executor : string;
  inv_input : Js.Value;
  inv_context : ToolExecutionContext
}.

Record World : Type := {
  heap : gmap loc (list Message);
  llm_calls : list LlmCall;
  tool_invocations : list ToolInvocation
}.

(** The world after one more model call. *)
Definition logged (w : World) (options : GenerateOptions)
    (answer : Outcome GenerateResponse) : World :=
  {| heap := heap w;
     llm_calls := llm_calls w ++ [{| request := options; response := answer |}];
     tool_invocations := tool_invocations w |}.

Definition M (A : Type) : Type := World -> Outcome A * World.

Definition ret {A} (a : A) : M A := fun w => (Returned a, w).

Definition throw {A} (e : Exception) : M A := fun w => (Thrown e, w).

Definition bind {A B} (c : M A) (k : A -> M B) : M B :=
  fun w =>
    match c w with
    | (Returned a, w') => k a w'
    | (Thrown e, w') => (Thrown e, w')
    end.

Notation "x <- c ;; k" := (bind c (fun x => k))
  (at level 100, c at next level, right associativity).

(** *** Message arrays *)

(** The contents of the array behind a reference. *)
Definition read (l : loc) : M (list Message) :=
  fun w => (Returned (default [] (heap w !! l)), w).

(** An array literal: a new array, at a reference not in use. *)
Definition alloc (contents : list Message) : M loc :=
  fun w =>
    let l := fresh (dom (heap w)) in
    (Returned l,
     {| heap := <[l := contents]> (heap w);
        llm_calls := llm_calls w;
        tool_invocations := tool_invocations w |}).

(** [array.push(m)]: the array itself grows. *)
Definition push (l : loc) (m : Message) : M unit :=
  fun w =>
    (Returned tt,
     {| heap := <[l := default [] (heap w !! l) ++ [m]]> (heap w);
        llm_calls := llm_calls w;
        tool_invocations := tool_invocations w |}).

(** *** Tool executors *)

(** [await executor.execute(toolInput, context)] *)
Definition invoke (executor : ToolExecutor) (toolInput : Js.Value)
    (context : ToolExecutionContext) : M Settled :=
  fun w =>
    (Returned (te_execute executor toolInput context),
     {| heap := heap w;
        llm_calls := llm_calls w;
        tool_invocations :=
          tool_invocations w ++
          [{| inv_executor := te_name executor;
              inv_input := toolInput;
              inv_context := context |}] |}).

(** [JSON.parse(text)] *)
Definition JSON_parse (text : string) : M Js.Value :=
  match Js.parse text with
  | Some v => ret v
  | None => throw SyntaxError
  end.

(** The last binding of a property in an object. *)
Fixpoint get_field (name : string) (fields : list (string * Js.Value)) : Js.Value :=
  match fields with
  | [] => Js.Undefined
  | (k, v) :: rest =>
      match get_field name rest with
      | Js.Undefined => if String.eqb k name then v else Js.Undefined
      | later => later
      end
  end.

(** [error.message] *)
Definition message_of (error : Js.Value) : M Js.Value :=
  match error with
  | Js.Undefined | Js.Null => throw TypeError
  | Js.Error message => ret (Js.Str message)
  | Js.Object fields => ret (get_field "message" fields)
  | _ => ret Js.Undefined
  end.

(** The body of the [for (const toolCall of toolCalls)] loop of
    [executeToolCalls]: the entry pushed onto [results]. *)
Definition executeToolCall (toolExecutors : list ToolExecutor)
    (context : ToolExecutionContext) (toolCall : ToolCall) : M ToolResult :=
  let toolName := tc_name toolCall in
  toolInput <- JSON_parse (tc_arguments toolCall) ;;
  match List.find (fun e => String.eqb (te_name e) toolName) toolExecutors with
  | None =>
      ret {| toolCallId := tc_id toolCall;
             toolName := toolName;
             tr_input := None;
             tr_output := None;
             tr_error := Some (Js.Str ("Tool executor not found: " +:+ toolName)) |}
  | Some executor =>
      settled <- invoke executor toolInput context ;;
      match settled with
      | Fulfilled output =>
          ret {| toolCallId := tc_id toolCall;
                 toolName := toolName;
                 tr_input := Some toolInput;
                 tr_output := Some output;
                 tr_error := None |}
      | RejectedWith error =>
          message <- message_of error ;;
          ret {| toolCallId := tc_id toolCall;
                 toolName := toolName;
                 tr_input := Some toolInput;
                 tr_output := None;
                 tr_error := Some message |}
      end
  end.

Fixpoint executeToolCalls_from (results : list ToolResult) (toolCalls : list ToolCall)
    (toolExecutors : list ToolExecutor) (context : ToolExecutionContext)
  : M (list ToolResult) :=
  match toolCalls with
  | [] => ret results
  | toolCall :: rest =>
      result <- executeToolCall toolExecutors context toolCall ;;
      executeToolCalls_from (results ++ [result]) rest toolExecutors context
  end.

Definition executeToolCalls (toolCalls : list ToolCall)
    (toolExecutors : list ToolExecutor) (context : ToolExecutionContext)
  : M (list ToolResult) :=
  executeToolCalls_from [] toolCalls toolExecutors context.

(** ** Context assembly *)

(** [buildToolDefinitions] *)
Definition buildToolDefinitions (agentTools : list AgentTool) : list ToolDefinition :=
  List.map
    (fun at_ =>
       {| td_name := tool_name (at_tool at_);
          td_description :=
            Js.or_else (tool_description (at_tool at_))
                       ("Execute " +:+ tool_name (at_tool at_));
          td_inputSchema :=
            default (Js.Object [("type", Js.Str "object"); ("properties", Js.Object [])])
                    (tool_inputSchema (at_tool at_)) |})
    agentTools.

(** [s.substring(0, n)] *)
Definition substring_0 (n : nat) (s : string) : string := String.substring 0 n s.

(** The line feed of the template literals. *)
Definition nl : string := String (Js.chr 10) EmptyString.

(** The snippet of a document, none when [if (doc.content)] fails: a content
    that is null or empty is skipped. *)
Definition document_snippet (doc : ContextDocument) : list string :=
  match doc_content doc with
  | Some (String c rest) =>
      ["[Document: " +:+ doc_title doc +:+ "]" +:+ nl
       +:+ substring_0 1000 (String c rest)]
  | _ => []
  end.

Definition memory_snippet (memory : AgentMemory) : string :=
  "[Memory: " +:+ mem_key memory +:+ "]" +:+ nl +:+ mem_value memory.

(** [retrieveContext] *)
Definition retrieveContext (db : Database) (agentId organizationId query : string)
  : list string :=
  let contextDocs := findMany_contextDocument db agentId organizationId in
  let memories := findMany_agentMemory db agentId in
  List.concat (List.map document_snippet contextDocs) ++ List.map memory_snippet memories.

Definition context_separator : string := nl +:+ nl +:+ "---" +:+ nl +:+ nl.

Definition context_header : string :=
  nl +:+ nl +:+ "## Relevant Context" +:+ nl +:+ nl
  +:+ "The following context documents and memories may be helpful:" +:+ nl +:+ nl.

Definition context_footer : string :=
  nl +:+ nl +:+ "---" +:+ nl +:+ nl
  +:+ "Use the above context when relevant to answer the user's query.".

(** [buildEnhancedSystemPrompt] *)
Definition buildEnhancedSystemPrompt (basePrompt : string) (contexts : list string)
  : string :=
  match contexts with
  | [] => basePrompt
  | _ =>
      let contextSection := Js.join context_separator contexts in
      basePrompt +:+ context_header +:+ contextSection +:+ context_footer
  end.

(** ** The orchestrator *)

(** The options of [executeSingleStep]. *)
Record SingleStepOptions : Type := {
  ss_systemPrompt : string;
  ss_modelAlias : string;
  ss_messages : loc;
  ss_toolDefinitions : list ToolDefinition;
  ss_toolExecutors : list ToolExecutor;
  ss_context : ToolExecutionContext
}.

(** The options of [executeLoop] and of [executePlanAndExecute]. *)
Record LoopOptions : Type := {
  lo_systemPrompt : string;
  lo_modelAlias : string;
  lo_messages : loc;
  lo_toolDefinitions : list ToolDefinition;
  lo_toolExecutors : list ToolExecutor;
  lo_maxSteps : nat;
  lo_context : ToolExecutionContext
}.

(** [{ ...options, messages }] *)
Definition with_messages (options : LoopOptions) (messages : loc) : LoopOptions :=
  {| lo_systemPrompt := lo_systemPrompt options;
     lo_modelAlias := lo_modelAlias options;
     lo_messages := messages;
     lo_toolDefinitions := lo_toolDefinitions options;
     lo_toolExecutors := lo_toolExecutors options;
     lo_maxSteps := lo_maxSteps options;
     lo_context := lo_context options |}.

(** [response.toolCalls && response.toolCalls.length > 0] *)
Definition requests_tools (response : GenerateResponse) : bool :=
  match gr_toolCalls response with
  | Some (_ :: _) => true
  | _ => false
  end.

(** The tool calls of a response, none when the property is not set. *)
Definition requested (response : GenerateResponse) : list ToolCall :=
  default [] (gr_toolCalls response).

(** The message that carries one tool result back to the model. *)
Definition tool_message (result : ToolResult) : Message :=
  {| role := tool;
     content := Js.stringify (result_output result);
     tool_calls := None;
     tool_call_id := Some (toolCallId result) |}.

Definition assistant_message (response : GenerateResponse) : Message :=
  {| role := assistant;
     content := Some (gr_content response);
     tool_calls := gr_toolCalls response;
     tool_call_id := None |}.

Definition planning_suffix : string :=
  nl +:+ nl +:+ "Create a step-by-step plan to accomplish the user's request. "
  +:+ "List the steps clearly.".

Definition plan_message (plan : string) : Message :=
  {| role := assistant;
     content := Some ("Plan:" +:+ nl +:+ plan +:+ nl +:+ nl +:+ "Now executing this plan...");
     tool_calls := None;
     tool_call_id := None |}.

(** The variables of [executeLoop] that its [while] loop updates. *)
Record LoopVars : Type := {
  lv_steps : list AgentExecutionStep;
  lv_currentMessages : list Message;
  lv_totalInputTokens : Z;
  lv_totalOutputTokens : Z;
  lv_toolCallsExecuted : nat;
  lv_iteration : nat;
  lv_finalOutput : string
}.

Section Orchestrator.

(** [llmService.generate]: the answer of the model backend to a request,
    which may depend on the calls made before it. *)
Variable llm : list LlmCall -> GenerateOptions -> Outcome GenerateResponse.

(** The stored agents, prompts, tools, documents and memories. *)
Variable db : Database.

(** [await this.llmService.generate(options)] *)
Definition generate (options : GenerateOptions) : M GenerateResponse :=
  fun w =>
    let answer := llm (llm_calls w) options in
    (answer, logged w options answer).

(** [executeSingleStep] *)
Definition executeSingleStep (options : SingleStepOptions) : M AgentExecutionResult :=
  messages <- read (ss_messages options) ;;
  response <- generate {| go_modelAlias := ss_modelAlias options;
                          go_systemPrompt := Some (ss_systemPrompt options);
                          go_messages := messages;
                          go_tools := Some (ss_toolDefinitions options);
                          go_toolChoice := Some auto |} ;;
  messages <- read (ss_messages options) ;;
  let steps :=
    [{| step_type := llm_call;
        step_data := SingleStepCall (last messages) (gr_content response)
                                    (gr_toolCalls response) |}] in
  if requests_tools response then
    toolResults <- executeToolCalls (requested response) (ss_toolExecutors options)
                                    (ss_context options) ;;
    let steps := steps ++ [{| step_type := tool_call;
                              step_data := ToolResults toolResults |}] in
    messages <- read (ss_messages options) ;;
    let messagesWithToolResults :=
      messages ++ [assistant_message response] ++ List.map tool_message toolResults in
    finalResponse <- generate {| go_modelAlias := ss_modelAlias options;
                                 go_systemPrompt := Some (ss_systemPrompt options);
                                 go_messages := messagesWithToolResults;
                                 go_tools := None;
                                 go_toolChoice := None |} ;;
    let steps := steps ++ [{| step_type := llm_call;
                              step_data := ToolResultsCall (gr_content finalResponse) |}] in
    ret {| output := gr_content finalResponse;
           toolCallsExecuted := List.length (requested response);
           steps := steps;
           usage := gr_usage response |}
  else
    ret {| output := gr_content response;
           toolCallsExecuted := 0;
           steps := steps;
           usage := gr_usage response |}.

(** The [while (iteration < options.maxSteps)] loop of [executeLoop].
    [iteration] starts at 0 and grows by one per round, so the guard holds
    exactly while [remaining], the number [maxSteps - iteration] of rounds
    still allowed, is positive. *)
Fixpoint executeLoop_rounds (options : LoopOptions) (remaining : nat) (vars : LoopVars)
  : M LoopVars :=
  match remaining with
  | 0 => ret vars
  | S remaining' =>
      let iteration := S (lv_iteration vars) in
      response <- generate {| go_modelAlias := lo_modelAlias options;
                              go_systemPrompt := Some (lo_systemPrompt options);
                              go_messages := lv_currentMessages vars;
                              go_tools := Some (lo_toolDefinitions options);
                              go_toolChoice := Some auto |} ;;
      let totalInputTokens :=
        (lv_totalInputTokens vars + inputTokens (gr_usage response))%Z in
      let totalOutputTokens :=
        (lv_totalOutputTokens vars + outputTokens (gr_usage response))%Z in
      let steps :=
        lv_steps vars ++
        [{| step_type := llm_call;
            step_data := LoopCall iteration (gr_content response)
                                  (gr_toolCalls response) |}] in
      let finalOutput := gr_content response in
      if negb (requests_tools response) then
        (* break *)
        ret {| lv_steps := steps;
               lv_currentMessages := lv_currentMessages vars;
               lv_totalInputTokens := totalInputTokens;
               lv_totalOutputTokens := totalOutputTokens;
               lv_toolCallsExecuted := lv_toolCallsExecuted vars;
               lv_iteration := iteration;
               lv_finalOutput := finalOutput |}
      else
        toolResults <- executeToolCalls (requested response) (lo_toolExecutors options)
                                        (lo_context options) ;;
        executeLoop_rounds options remaining'
          {| lv_steps := steps ++ [{| step_type := tool_call;
                                      step_data := ToolResults toolResults |}];
             lv_currentMessages :=
               lv_currentMessages vars ++ [assistant_message response]
               ++ List.map tool_message toolResults;
             lv_totalInputTokens := totalInputTokens;
             lv_totalOutputTokens := totalOutputTokens;
             lv_toolCallsExecuted :=
               lv_toolCallsExecuted vars + List.length (requested response);
             lv_iteration := iteration;
             lv_finalOutput := finalOutput |}
  end.

(** [executeLoop].  [currentMessages = [...options.messages]] is a copy that
    no one else holds; it is kept in the loop variables. *)
Definition executeLoop (options : LoopOptions) : M AgentExecutionResult :=
  messages <- read (lo_messages options) ;;
  vars <- executeLoop_rounds options (lo_maxSteps options)
            {| lv_steps := [];
               lv_currentMessages := messages;
               lv_totalInputTokens := 0;
               lv_totalOutputTokens := 0;
               lv_toolCallsExecuted := 0;
               lv_iteration := 0;
               lv_finalOutput := EmptyString |} ;;
  ret {| output := lv_finalOutput vars;
         toolCallsExecuted := lv_toolCallsExecuted vars;
         steps := lv_steps vars;
         usage := {| inputTokens := lv_totalInputTokens vars;
                     outputTokens := lv_totalOutputTokens vars;
                     totalTokens :=
                       lv_totalInputTokens vars + lv_totalOutputTokens vars |} |}.

(** [executePlanAndExecute] *)
Definition executePlanAndExecute (options : LoopOptions) : M AgentExecutionResult :=
  let planningPrompt := lo_systemPrompt options +:+ planning_suffix in
  messages <- read (lo_messages options) ;;
  planResponse <- generate {| go_modelAlias := lo_modelAlias options;
                              go_systemPrompt := Some planningPrompt;
                              go_messages := messages;
                              go_tools := None;
                              go_toolChoice := None |} ;;
  let steps : list AgentExecutionStep :=
    [{| step_type := llm_call;
        step_data := PlanningCall (gr_content planResponse) |}] in
  messages <- read (lo_messages options) ;;
  extended <- alloc (messages ++ [plan_message (gr_content planResponse)]) ;;
  executeLoop (with_messages options extended).

(** [agent.maxSteps || 10] *)
Definition maxSteps_or_default (maxSteps : option nat) : nat :=
  match maxSteps with
  | Some (S n) => S n
  | _ => 10
  end.

Definition default_system_prompt : string :=
  "You are a helpful AI assistant for SecOps.".

Definition default_model_alias : string := "claude-3-5-sonnet".

(** [agent.systemPrompts[0]?.prompt || '...'] *)
Definition resolve_system_prompt (found : AgentWithRelations) : string :=
  Js.or_else (sp_prompt <$> head (systemPrompts found)) default_system_prompt.

(** [agent.defaultModelAlias || 'claude-3-5-sonnet'] *)
Definition resolve_model_alias (found : AgentWithRelations) : string :=
  Js.or_else (a_defaultModelAlias (agent found)) default_model_alias.

Definition user_message (text : string) : Message :=
  {| role := user; content := Some text; tool_calls := None; tool_call_id := None |}.

(** [execute] *)
Definition execute (options : AgentExecutionOptions) : M AgentExecutionResult :=
  match findUnique_agent db (agentId options) with
  | None => throw AgentNotFound
  | Some found =>
      let systemPrompt := resolve_system_prompt found in
      let modelAlias := resolve_model_alias found in
      let planningMode := a_planningMode (agent found) in
      let maxSteps := maxSteps_or_default (a_maxSteps (agent found)) in
      let toolDefinitions := buildToolDefinitions (tools found) in
      let retrievedContext :=
        retrieveContext db (agentId options) (organizationId options) (input options) in
      let enhancedSystemPrompt :=
        buildEnhancedSystemPrompt systemPrompt retrievedContext in
      let steps0 : list AgentExecutionStep := [] in
      let totalInputTokens := 0%Z in
      let totalOutputTokens := 0%Z in
      let toolCallsExecuted0 := 0 in
      (* options.previousMessages || [] : the caller's array when there is one *)
      messages <- match previousMessages options with
                  | Some array => ret array
                  | None => alloc []
                  end ;;
      _ <- push messages (user_message (input options)) ;;
      let context := {| ctx_organizationId := organizationId options;
                        ctx_agentId := agentId options;
                        ctx_userId := userId options |} in
      if String.eqb planningMode "single_step" then
        result <- executeSingleStep
                    {| ss_systemPrompt := enhancedSystemPrompt;
                       ss_modelAlias := modelAlias;
                       ss_messages := messages;
                       ss_toolDefinitions := toolDefinitions;
                       ss_toolExecutors := default [] (toolExecutors options);
                       ss_context := context |} ;;
        (* steps.push(...result.steps) and the three += *)
        let totalInputTokens := (totalInputTokens + inputTokens (usage result))%Z in
        let totalOutputTokens := (totalOutputTokens + outputTokens (usage result))%Z in
        ret {| output := output result;
               toolCallsExecuted := toolCallsExecuted0 + toolCallsExecuted result;
               steps := steps0 ++ steps result;
               usage := {| inputTokens := totalInputTokens;
                           outputTokens := totalOutputTokens;
                           totalTokens := totalInputTokens + totalOutputTokens |} |}
      else if String.eqb planningMode "loop_with_limits" then
        executeLoop
          {| lo_systemPrompt := enhancedSystemPrompt;
             lo_modelAlias := modelAlias;
             lo_messages := messages;
             lo_toolDefinitions := toolDefinitions;
             lo_toolExecutors := default [] (toolExecutors options);
             lo_maxSteps := maxSteps;
             lo_context := context |}
      else
        (* plan_and_execute mode *)
        executePlanAndExecute
          {| lo_systemPrompt := enhancedSystemPrompt;
             lo_modelAlias := modelAlias;
             lo_messages := messages;
             lo_toolDefinitions := toolDefinitions;
             lo_toolExecutors := default [] (toolExecutors options);
             lo_maxSteps := maxSteps;
             lo_context := context |}
  end.

End Orchestrator.

(** * Vocabulary of the properties *)

(** A model call that returned a response asking for tools. *)
Definition asked_tools (call : LlmCall) : Prop :=
  exists r, response call = Returned r /\ requests_tools r = true.

(** A model call that returned a response asking for no tool. *)
Definition answered_plainly (call : LlmCall) : Prop :=
  exists r, response call = Returned r /\ requests_tools r = false.

(** The content of the response of a call. *)
Definition content_of (call : LlmCall) : string :=
  match response call with
  | Returned r => gr_content r
  | Thrown _ => EmptyString
  end.

(** The content of the last response produced, empty when no call was made. *)
Definition final_content (calls : list LlmCall) : string :=
  from_option content_of EmptyString (last calls).

(** What can abort a loop after the calls [calls]: the last model call failed,
    or the tool-execution phase that followed it threw. *)
Definition aborted_by (toolExecutors : list ToolExecutor) (context : ToolExecutionContext)
    (calls : list LlmCall) (e : Exception) : Prop :=
  exists init call,
    calls = init ++ [call]
    /\ Forall asked_tools init
    /\ (response call = Thrown e
        \/ exists r w,
             response call = Returned r /\ requests_tools r = true
             /\ (executeToolCalls (requested r) toolExecutors context w).1 = Thrown e).

(** A request whose arguments are a JSON text. *)
Definition parses (toolCall : ToolCall) : Prop :=
  is_Some (Js.parse (tc_arguments toolCall)).

(** An executor that, when it fails, throws a value other than [undefined]
    and [null] (an [Error], as a rule). *)
Definition throws_values (executor : ToolExecutor) : Prop :=
  forall toolInput context reason,
    te_execute executor toolInput context = RejectedWith reason ->
    reason <> Js.Undefined /\ reason <> Js.Null.

(** No executor has the name that the request asks for. *)
Definition unmatched (toolExecutors : list ToolExecutor) (toolCall : ToolCall) : Prop :=
  Forall (fun executor => te_name executor <> tc_name toolCall) toolExecutors.

(** The entry that [executeToolCalls] pushes for a request without executor. *)
Definition not_found_entry (toolCall : ToolCall) : ToolResult :=
  {| toolCallId := tc_id toolCall;
     toolName := tc_name toolCall;
     tr_input := None;
     tr_output := None;
     tr_error := Some (Js.Str ("Tool executor not found: " +:+ tc_name toolCall)) |}.

(** A model backend that always responds, with requests that parse. *)
Definition responds (llm : list LlmCall -> GenerateOptions -> Outcome GenerateResponse)
  : Prop :=
  forall earlier options,
    exists r, llm earlier options = Returned r /\ Forall parses (requested r).

(** The request of one round of [executeLoop]. *)
Definition round_request (options : LoopOptions) (vars : LoopVars) : GenerateOptions :=
  {| go_modelAlias := lo_modelAlias options;
     go_systemPrompt := Some (lo_systemPrompt options);
     go_messages := lv_currentMessages vars;
     go_tools := Some (lo_toolDefinitions options);
     go_toolChoice := Some auto |}.

(** The loop variables at the [break]. *)
Definition vars_at_break (vars : LoopVars) (r : GenerateResponse) : LoopVars :=
  {| lv_steps :=
       lv_steps vars ++
       [{| step_type := llm_call;
           step_data := LoopCall (S (lv_iteration vars)) (gr_content r) (gr_toolCalls r) |}];
     lv_currentMessages := lv_currentMessages vars;
     lv_totalInputTokens := lv_totalInputTokens vars + inputTokens (gr_usage r);
     lv_totalOutputTokens := lv_totalOutputTokens vars + outputTokens (gr_usage r);
     lv_toolCallsExecuted := lv_toolCallsExecuted vars;
     lv_iteration := S (lv_iteration vars);
     lv_finalOutput := gr_content r |}.

(** The loop variables at the end of a round that executed tools. *)
Definition vars_after_tools (vars : LoopVars) (r : GenerateResponse)
    (toolResults : list ToolResult) : LoopVars :=
  {| lv_steps :=
       (lv_steps vars ++
        [{| step_type := llm_call;
            step_data := LoopCall (S (lv_iteration vars)) (gr_content r) (gr_toolCalls r) |}])
       ++ [{| step_type := tool_call; step_data := ToolResults toolResults |}];
     lv_currentMessages :=
       lv_currentMessages vars ++ [assistant_message r] ++ List.map tool_message toolResults;
     lv_totalInputTokens := lv_totalInputTokens vars + inputTokens (gr_usage r);
     lv_totalOutputTokens := lv_totalOutputTokens vars + outputTokens (gr_usage r);
     lv_toolCallsExecuted := lv_toolCallsExecuted vars + List.length (requested r);
     lv_iteration := S (lv_iteration vars);
     lv_finalOutput := gr_content r |}.

(** The loop variables before the first round. *)
Definition initial_vars (messages : list Message) : LoopVars :=
  {| lv_steps := [];
     lv_currentMessages := messages;
     lv_totalInputTokens := 0;
     lv_totalOutputTokens := 0;
     lv_toolCallsExecuted := 0;
     lv_iteration := 0;
     lv_finalOutput := EmptyString |}.

(** The result that [executeLoop] builds from its variables. *)
Definition result_of_vars (vars : LoopVars) : AgentExecutionResult :=
  {| output := lv_finalOutput vars;
     toolCallsExecuted := lv_toolCallsExecuted vars;
     steps := lv_steps vars;
     usage := {| inputTokens := lv_totalInputTokens vars;
                 outputTokens := lv_totalOutputTokens vars;
                 totalTokens := lv_totalInputTokens vars + lv_totalOutputTokens vars |} |}.

(** The token counts that the model calls of a run returned, summed. *)
Fixpoint tokens_in (calls : list LlmCall) : Z :=
  match calls with
  | [] => 0
  | call :: rest =>
      match response call with
      | Returned r => inputTokens (gr_usage r) + tokens_in rest
      | Thrown _ => tokens_in rest
      end
  end.

Fixpoint tokens_out (calls : list LlmCall) : Z :=
  match calls with
  | [] => 0
  | call :: rest =>
      match response call with
      | Returned r => outputTokens (gr_usage r) + tokens_out rest
      | Thrown _ => tokens_out rest
      end
  end.

(** A step record written by the loop: a round's model call or its tool
    results. *)
Definition loop_step (step : AgentExecutionStep) : Prop :=
  match step_data step with
  | LoopCall _ _ _ => step_type step = llm_call
  | ToolResults _ => step_type step = tool_call
  | _ => False
  end.

(** The records of type [llm_call] in a trace. *)
Definition llm_call_records (trace : list AgentExecutionStep) : list AgentExecutionStep :=
  List.filter (fun step => match step_type step with llm_call => true | _ => false end)
              trace.

(** The record of the planning phase: [{ phase: 'planning', plan }]. *)
Definition planning_step (step : AgentExecutionStep) : Prop :=
  exists plan, step_data step = PlanningCall plan.

(** The two requests of [executeSingleStep]: the first offers the tools, the
    second carries the tool results and offers none. *)
Definition first_request (options : SingleStepOptions) (messages : list Message)
  : GenerateOptions :=
  {| go_modelAlias := ss_modelAlias options;
     go_systemPrompt := Some (ss_systemPrompt options);
     go_messages := messages;
     go_tools := Some (ss_toolDefinitions options);
     go_toolChoice := Some auto |}.

Definition second_request (options : SingleStepOptions) (messages : list Message)
    (r : GenerateResponse) (toolResults : list ToolResult) : GenerateOptions :=
  {| go_modelAlias := ss_modelAlias options;
     go_systemPrompt := Some (ss_systemPrompt options);
     go_messages := messages ++ [assistant_message r] ++ List.map tool_message toolResults;
     go_tools := None;
     go_toolChoice := None |}.

(** A logged model call. *)
Definition call_of (options : GenerateOptions) (answer : Outcome GenerateResponse)
  : LlmCall :=
  {| request := options; response := answer |}.

(** The request of the planning phase of [executePlanAndExecute]. *)
Definition planning_request (options : LoopOptions) (messages : list Message)
  : GenerateOptions :=
  {| go_modelAlias := lo_modelAlias options;
     go_systemPrompt := Some (lo_systemPrompt options +:+ planning_suffix);
     go_messages := messages;
     go_tools := None;
     go_toolChoice := None |}.

(** The first statements of [execute] that touch the message arrays: the
    conversation is the caller's array when there is one, and the user input
    is pushed onto it. *)
Definition prepare (options : AgentExecutionOptions) : M loc :=
  messages <- match previousMessages options with
              | Some array => ret array
              | None => alloc []
              end ;;
  _ <- push messages (user_message (input options)) ;;
  ret messages.

Definition run_context (options : AgentExecutionOptions) : ToolExecutionContext :=
  {| ctx_organizationId := organizationId options;
     ctx_agentId := agentId options;
     ctx_userId := userId options |}.

(** The system prompt after context assembly. *)
Definition enhanced_prompt (db : Database) (found : AgentWithRelations)
    (options : AgentExecutionOptions) : string :=
  buildEnhancedSystemPrompt
    (resolve_system_prompt found)
    (retrieveContext db (agentId options) (organizationId options) (input options)).

(** The options that [execute] hands to each strategy. *)
Definition single_step_options (db : Database) (found : AgentWithRelations)
    (options : AgentExecutionOptions) (messages : loc) : SingleStepOptions :=
  {| ss_systemPrompt := enhanced_prompt db found options;
     ss_modelAlias := resolve_model_alias found;
     ss_messages := messages;
     ss_toolDefinitions := buildToolDefinitions (tools found);
     ss_toolExecutors := default [] (toolExecutors options);
     ss_context := run_context options |}.

Definition loop_options (db : Database) (found : AgentWithRelations)
    (options : AgentExecutionOptions) (messages : loc) : LoopOptions :=
  {| lo_systemPrompt := enhanced_prompt db found options;
     lo_modelAlias := resolve_model_alias found;
     lo_messages := messages;
     lo_toolDefinitions := buildToolDefinitions (tools found);
     lo_toolExecutors := default [] (toolExecutors options);
     lo_maxSteps := maxSteps_or_default (a_maxSteps (agent found));
     lo_context := run_context options |}.

(** The result that [execute] builds from the result of [executeSingleStep]. *)
Definition totalled (result : AgentExecutionResult) : AgentExecutionResult :=
  {| output := output result;
     toolCallsExecuted := 0 + toolCallsExecuted result;
     steps := [] ++ steps result;
     usage := {| inputTokens := 0 + inputTokens (usage result);
                 outputTokens := 0 + outputTokens (usage result);
                 totalTokens := (0 + inputTokens (usage result))
                                + (0 + outputTokens (usage result)) |} |}.

(** The strategy that [execute] selects by the planning mode. *)
Definition strategy
    (llm : list LlmCall -> GenerateOptions -> Outcome GenerateResponse)
    (db : Database) (found : AgentWithRelations) (options : AgentExecutionOptions)
    (messages : loc) : M AgentExecutionResult :=
  if String.eqb (a_planningMode (agent found)) "single_step" then
    result <- executeSingleStep llm (single_step_options db found options messages) ;;
    ret (totalled result)
  else if String.eqb (a_planningMode (agent found)) "loop_with_limits" then
    executeLoop llm (loop_options db found options messages)
  else
    executePlanAndExecute llm (loop_options db found options messages).

(** The world after [push]. *)
Definition pushed (w : World) (array : loc) (m : Message) : World :=
  {| heap := <[array := default [] (heap w !! array) ++ [m]]> (heap w);
     llm_calls := llm_calls w;
     tool_invocations := tool_invocations w |}.

(** * Scenarios

    Concrete runs, among them the scenarios of the specification. *)

Module Scenario.

Definition usage_of (i o : Z) : Usage :=
  {| inputTokens := i; outputTokens := o; totalTokens := i + o |}.

(** A request for the tool [lookup_ip], with its arguments serialised the way
    a provider does it. *)
Definition lookup_ip_call : ToolCall :=
  {| tc_id := "call_1";
     tc_name := "lookup_ip";
     tc_arguments :=
       default EmptyString (Js.stringify (Js.Object [("ip", Js.Str "10.0.0.1")])) |}.

(** A request for the tool [query_siem], with no arguments. *)
Definition query_siem_call : ToolCall :=
  {| tc_id := "call_3";
     tc_name := "query_siem";
     tc_arguments := default EmptyString (Js.stringify (Js.Object [])) |}.

(** A request for the tool [query_siem] whose arguments are cut short. *)
Definition truncated_call : ToolCall :=
  {| tc_id := "call_2"; tc_name := "query_siem"; tc_arguments := "{" |}.

Definition asks_lookup : GenerateResponse :=
  {| gr_content := "Looking up the address.";
     gr_toolCalls := Some [lookup_ip_call];
     gr_finishReason := tool_calls_reason;
     gr_usage := usage_of 10 5 |}.

Definition gives_plan : GenerateResponse :=
  {| gr_content := "1. Look up the address. 2. Report.";
     gr_toolCalls := None;
     gr_finishReason := stop;
     gr_usage := usage_of 10 5 |}.

Definition answers : GenerateResponse :=
  {| gr_content := "Done.";
     gr_toolCalls := None;
     gr_finishReason := stop;
     gr_usage := usage_of 20 7 |}.

(** A model that asks for the lookup on its first call and answers after it. *)
Definition llm_lookup_then_answer (earlier : list LlmCall) (_ : GenerateOptions)
  : Outcome GenerateResponse :=
  match earlier with
  | [] => Returned asks_lookup
  | _ => Returned answers
  end.

(** A model that gives a plan on its first call and answers after it. *)
Definition llm_plan_then_answer (earlier : list LlmCall) (_ : GenerateOptions)
  : Outcome GenerateResponse :=
  match earlier with
  | [] => Returned gives_plan
  | _ => Returned answers
  end.

(** A model that answers at once. *)
Definition llm_answers (_ : list LlmCall) (_ : GenerateOptions)
  : Outcome GenerateResponse :=
  Returned answers.

(** A model that asks for the lookup on every call. *)
Definition llm_always_asks (_ : list LlmCall) (_ : GenerateOptions)
  : Outcome GenerateResponse :=
  Returned asks_lookup.

(** A model that asks for [query_siem] with the arguments cut short. *)
Definition llm_asks_truncated (_ : list LlmCall) (_ : GenerateOptions)
  : Outcome GenerateResponse :=
  Returned {| gr_content := "Querying.";
              gr_toolCalls := Some [truncated_call];
              gr_finishReason := tool_calls_reason;
              gr_usage := usage_of 10 5 |}.

(** An executor for [lookup_ip] that throws [new Error('timeout')]. *)
Definition lookup_ip_times_out : ToolExecutor :=
  {| te_name := "lookup_ip";
     te_execute := fun _ _ => RejectedWith (Js.Error "timeout") |}.

(** An agent with no model alias, and a store with no system prompt for it. *)
Definition agent_with_mode (mode : string) : Agent :=
  {| a_id := "agent-1";
     a_defaultModelAlias := None;
     a_planningMode := mode;
     a_maxSteps := Some 2 |}.

Definition db_with_mode (mode : string) : Database :=
  {| agents := [agent_with_mode mode];
     agentSystemPrompts := [];
     agentTools := [];
     contextDocuments := [];
     agentMemories := [] |}.

(** A memory whose value has 1001 characters. *)
Definition long_value : string := string_of_list_ascii (repeat (Js.chr 97) 1001).

Definition db_with_long_memory : Database :=
  {| agents := [agent_with_mode "single_step"];
     agentSystemPrompts := [];
     agentTools := [];
     contextDocuments := [];
     agentMemories := [{| mem_agentId := "agent-1";
                          mem_scope := "agent";
                          mem_key := "note";
                          mem_value := long_value |}] |}.

Definition earlier_message : Message := user_message "hello".

(** The caller's array of previous messages, at reference 0. *)
Definition world0 : World :=
  {| heap := {[ 0 := [earlier_message] ]};
     llm_calls := [];
     tool_invocations := [] |}.

Definition options_for (agentId : string) (executors : list ToolExecutor)
  : AgentExecutionOptions :=
  {| agentId := agentId;
     organizationId := "org-1";
     userId := None;
     input := "ping";
     chatId := None;
     runId := None;
     previousMessages := Some 0;
     toolExecutors := Some executors |}.

Definition context0 : ToolExecutionContext :=
  {| ctx_organizationId := "org-1"; ctx_agentId := "agent-1"; ctx_userId := None |}.

Definition single_step0 : SingleStepOptions :=
  {| ss_systemPrompt := default_system_prompt;
     ss_modelAlias := default_model_alias;
     ss_messages := 0;
     ss_toolDefinitions := [];
     ss_toolExecutors := [lookup_ip_times_out];
     ss_context := context0 |}.

Definition loop0 : LoopOptions :=
  {| lo_systemPrompt := default_system_prompt;
     lo_modelAlias := default_model_alias;
     lo_messages := 0;
     lo_toolDefinitions := [];
     lo_toolExecutors := [lookup_ip_times_out];
     lo_maxSteps := 2;
     lo_context := context0 |}.

End Scenario.

(** * Further vocabulary: tool execution and the loop *)

(** The invocation that a request leads to: none when its arguments are not a
    JSON text or no executor has its name; otherwise the first executor of
    that name, with the parsed arguments. *)
Definition invocation_of (toolExecutors : list ToolExecutor)
    (context : ToolExecutionContext) (toolCall : ToolCall) : option ToolInvocation :=
  match Js.parse (tc_arguments toolCall),
        List.find (fun e => String.eqb (te_name e) (tc_name toolCall)) toolExecutors with
  | Some toolInput, Some executor =>
      Some {| inv_executor := te_name executor;
              inv_input := toolInput;
              inv_context := context |}
  | _, _ => None
  end.

(** The number of tool calls that the responses of some model calls ask for. *)
Fixpoint tools_requested (calls : list LlmCall) : nat :=
  match calls with
  | [] => 0
  | call :: rest =>
      match response call with
      | Returned r => List.length (requested r) + tools_requested rest
      | Thrown _ => tools_requested rest
      end
  end.

(** The number of entries in the tool-result records of a trace. *)
Fixpoint tool_results_recorded (trace : list AgentExecutionStep) : nat :=
  match trace with
  | [] => 0
  | step :: rest =>
      match step_data step with
      | ToolResults results => List.length results + tool_results_recorded rest
      | _ => tool_results_recorded rest
      end
  end.

(** The record types that a loop writes for its calls: an [llm_call] record
    per call, followed by a [tool_call] record when the call asked for
    tools. *)
Fixpoint loop_record_types (calls : list LlmCall) : list StepType :=
  match calls with
  | [] => []
  | call :: rest =>
      match response call with
      | Returned r =>
          if requests_tools r then llm_call :: tool_call :: loop_record_types rest
          else llm_call :: loop_record_types rest
      | Thrown _ => loop_record_types rest
      end
  end.

(** The round numbers written in the [llm_call] records of a loop. *)
Fixpoint iterations_recorded (trace : list AgentExecutionStep) : list nat :=
  match trace with
  | [] => []
  | step :: rest =>
      match step_data step with
      | LoopCall iteration _ _ => iteration :: iterations_recorded rest
      | _ => iterations_recorded rest
      end
  end.

(** Model calls that continue one conversation: the first is made on
    [messages]; each next one is made on the conversation of the call before
    it, followed by that call's assistant message and by the tool messages of
    one entry per tool call it asked for, in order. *)
Fixpoint chained (messages : list Message) (calls : list LlmCall) : Prop :=
  match calls with
  | [] => True
  | call :: rest =>
      go_messages (request call) = messages
      /\ match rest with
         | [] => True
         | _ :: _ =>
             exists r toolResults,
               response call = Returned r
               /\ requests_tools r = true
               /\ List.map toolCallId toolResults = List.map tc_id (requested r)
               /\ List.map toolName toolResults = List.map tc_name (requested r)
               /\ chained (messages ++ [assistant_message r]
                           ++ List.map tool_message toolResults) rest
         end
  end.

(** An invocation made for a run: on one of the executors supplied, with the
    context given. *)
Definition invocation_within (toolExecutors : list ToolExecutor)
    (context : ToolExecutionContext) (invocation : ToolInvocation) : Prop :=
  inv_context invocation = context
  /\ exists executor,
       executor ∈ toolExecutors /\ te_name executor = inv_executor invocation.

(** ** Further vocabulary: whole runs *)

(** The largest number of model calls of a run of an agent: two in
    [single_step] mode, [maxSteps || 10] in [loop_with_limits] mode, one more
    in [plan_and_execute] mode. *)
Definition call_limit (found : AgentWithRelations) : nat :=
  if String.eqb (a_planningMode (agent found)) "single_step" then 2
  else if String.eqb (a_planningMode (agent found)) "loop_with_limits" then
    maxSteps_or_default (a_maxSteps (agent found))
  else 1 + maxSteps_or_default (a_maxSteps (agent found)).

(** The calls of a run whose token counts the result reports: the first call
    in [single_step] mode, every call in [loop_with_limits] mode, every call
    but the planning call in [plan_and_execute] mode. *)
Definition usage_counted (found : AgentWithRelations) (calls : list LlmCall)
  : list LlmCall :=
  if String.eqb (a_planningMode (agent found)) "single_step" then take 1 calls
  else if String.eqb (a_planningMode (agent found)) "loop_with_limits" then calls
  else drop 1 calls.

(** The calls of a run that offer the tools of the agent: the first call in
    [single_step] mode, every call in [loop_with_limits] mode, every call but
    the planning call in [plan_and_execute] mode.  The other calls offer no
    tool. *)
Definition offers (tools : option (list ToolDefinition)) (call : LlmCall) : Prop :=
  go_tools (request call) = tools
  /\ go_toolChoice (request call) = match tools with Some _ => Some auto | None => None end.

Definition tools_offered (found : AgentWithRelations) (calls : list LlmCall) : Prop :=
  let definitions := Some (buildToolDefinitions (tools found)) in
  if String.eqb (a_planningMode (agent found)) "single_step" then
    Forall (offers definitions) (take 1 calls) /\ Forall (offers None) (drop 1 calls)
  else if String.eqb (a_planningMode (agent found)) "loop_with_limits" then
    Forall (offers definitions) calls
  else
    Forall (offers None) (take 1 calls) /\ Forall (offers definitions) (drop 1 calls).

(** The order of [orderBy: { createdAt: 'desc' }]. *)
Definition newer_first (p q : AgentSystemPrompt) : Prop :=
  (sp_createdAt q <= sp_createdAt p)%Z.

(** * The model service and its providers

    [llm.service.ts] and [providers/*.provider.ts]: what stands behind
    [llmService.generate].  The vendor SDK call is the one collaborator left
    open: [client.messages.create] and [client.chat.completions.create] are
    functions from the request parameters, and from the calls made before, to
    the vendor's answer or to the error it rejects with. *)

(** [s.includes(sub)] *)
Fixpoint includes (s sub : string) : bool :=
  String.prefix sub s
  || match s with
     | EmptyString => false
     | String _ rest => includes rest sub
     end.

(** [GenerateOptions.temperature] and [GenerateOptions.maxTokens], which the
    orchestrator leaves unset.  A temperature is carried by its literal. *)
Record Sampling : Type := {
  sm_temperature : option string;
  sm_maxTokens : option Z
}.

Definition unset : Sampling := {| sm_temperature := None; sm_maxTokens := None |}.

(** [options.maxTokens || 4096]: [undefined] and [0] are falsy. *)
Definition max_tokens_of (sampling : Sampling) : Z :=
  match sm_maxTokens sampling with
  | Some n => if (n =? 0)%Z then 4096%Z else n
  | None => 4096%Z
  end.

(** [options.temperature ?? 0.7]: only [undefined] is replaced. *)
Definition temperature_of (sampling : Sampling) : string :=
  default "0.7" (sm_temperature sampling).

(** The names that an object literal inherits from [Object.prototype]: a
    lookup [modelMap[alias]] of one of them finds the inherited member, a
    function or an object, which is truthy. *)
Definition object_prototype_members : list string :=
  ["constructor"; "__defineGetter__"; "__defineSetter__"; "hasOwnProperty";
   "__lookupGetter__"; "__lookupSetter__"; "isPrototypeOf"; "propertyIsEnumerable";
   "toString"; "valueOf"; "__proto__"; "toLocaleString"].

(** What [getModel] returns: a model name, or a member of [Object.prototype]
    when the alias names one. *)
Inductive ModelId : Type :=
| ModelName (name : string)
| PrototypeMember (key : string).

(** [modelMap[alias] || alias] on an object literal whose values are
    non-empty strings. *)
Definition modelMap_or_alias (modelMap : list (string * string)) (alias : string)
  : ModelId :=
  match List.find (fun entry => String.eqb (fst entry) alias) modelMap with
  | Some entry => ModelName (snd entry)
  | None =>
      if List.existsb (String.eqb alias) object_prototype_members
      then PrototypeMember alias
      else ModelName alias
  end.

(** A vendor client: [None] when the API key is not configured, in which case
    the provider's constructor leaves [this.client] undefined. *)
Definition Client (Params Response : Type) : Type :=
  option (list LlmCall -> Params -> Outcome Response).

(** [options.tools && options.tools.length > 0] *)
Definition has_tools (options : GenerateOptions) : bool :=
  match go_tools options with
  | Some (_ :: _) => true
  | _ => false
  end.

Definition is_system (m : Message) : bool :=
  match role m with system => true | _ => false end.

(** [switch (reason)] of the two [mapFinishReason]: three cases and a default
    that gives ['stop']. *)
Definition mapFinishReason_by (stops tools lengths : string) (reason : option string)
  : FinishReason :=
  match reason with
  | Some r =>
      if String.eqb r stops then stop
      else if String.eqb r tools then tool_calls_reason
      else if String.eqb r lengths then length_reason
      else stop
  | None => stop
  end.

Module AnthropicProvider.

Record MessageParam : Type := {
  mp_role : Role;
  mp_content : option string
}.

Record ToolParam : Type := {
  tp_name : string;
  tp_description : string;
  tp_input_schema : Js.Value
}.

(** The parameters of [client.messages.create]; [system] and [tools] are set
    only under their conditions. *)
Record Params : Type := {
  p_model : ModelId;
  p_max_tokens : Z;
  p_temperature : string;
  p_messages : list MessageParam;
  p_system : option string;
  p_tools : option (list ToolParam)
}.

Inductive ContentBlock : Type :=
| TextBlock (text : string)
| ToolUseBlock (id name : string) (input : Js.Value)
| OtherBlock.

Record Response : Type := {
  r_content : list ContentBlock;
  r_stop_reason : option string;
  r_input_tokens : Z;
  r_output_tokens : Z
}.

Definition modelMap : list (string * string) :=
  [("claude-3-5-sonnet", "claude-3-5-sonnet-20241022");
   ("claude-3-opus", "claude-3-opus-20240229");
   ("claude-3-haiku", "claude-3-haiku-20240307")].

(** [getModel] *)
Definition getModel (alias : option string) : ModelId :=
  match alias with
  | Some (String c rest) => modelMap_or_alias modelMap (String c rest)
  | _ => ModelName "claude-3-5-sonnet-20241022"
  end.

(** [extractSystemPrompt]: [systemMessage?.content || ''] *)
Definition extractSystemPrompt (messages : list Message) : string :=
  match List.find is_system messages with
  | Some systemMessage => Js.or_else (content systemMessage) EmptyString
  | None => EmptyString
  end.

(** [filterSystemMessages] *)
Definition filterSystemMessages (messages : list Message) : list Message :=
  List.filter (fun m => negb (is_system m)) messages.

(** [convertMessages] *)
Definition convertMessages (messages : list Message) : list MessageParam :=
  List.map (fun msg => {| mp_role := match role msg with tool => user | other => other end;
                          mp_content := content msg |})
           messages.

(** [convertTools] *)
Definition convertTools (tools : list ToolDefinition) : list ToolParam :=
  List.map (fun tool_ => {| tp_name := td_name tool_;
                            tp_description := td_description tool_;
                            tp_input_schema := td_inputSchema tool_ |})
           tools.

(** [mapFinishReason] *)
Definition mapFinishReason : option string -> FinishReason :=
  mapFinishReason_by "end_turn" "tool_use" "max_tokens".

(** The parameters that [generate] builds. *)
Definition params_of (sampling : Sampling) (options : GenerateOptions) : Params :=
  let model := getModel (Some (go_modelAlias options)) in
  let systemPrompt :=
    Js.or_else (go_systemPrompt options) (extractSystemPrompt (go_messages options)) in
  let messages := filterSystemMessages (go_messages options) in
  {| p_model := model;
     p_max_tokens := max_tokens_of sampling;
     p_temperature := temperature_of sampling;
     p_messages := convertMessages messages;
     p_system := match systemPrompt with
                 | EmptyString => None
                 | _ => Some systemPrompt
                 end;
     p_tools := if has_tools options
                then Some (convertTools (default [] (go_tools options)))
                else None |}.

(** The body of [for (const block of response.content)].  The [arguments] of a
    tool call are [JSON.stringify(block.input)]; should that be [undefined],
    the only reader, [JSON.parse], sees the text [undefined]. *)
Definition parse_block (acc : string * list ToolCall) (block : ContentBlock)
  : string * list ToolCall :=
  let '(content, toolCalls) := acc in
  match block with
  | TextBlock text => (content +:+ text, toolCalls)
  | ToolUseBlock id name input =>
      (content,
       toolCalls ++ [{| tc_id := id;
                        tc_name := name;
                        tc_arguments := default "undefined" (Js.stringify input) |}])
  | OtherBlock => (content, toolCalls)
  end.

(** The response that [generate] builds from the vendor's answer. *)
Definition response_of (response : Response) : GenerateResponse :=
  let '(content, toolCalls) :=
    List.fold_left parse_block (r_content response) (EmptyString, []) in
  {| gr_content := content;
     gr_toolCalls := match toolCalls with
                     | [] => None
                     | _ => Some toolCalls
                     end;
     gr_finishReason := mapFinishReason (r_stop_reason response);
     gr_usage := {| inputTokens := r_input_tokens response;
                    outputTokens := r_output_tokens response;
                    totalTokens := r_input_tokens response + r_output_tokens response |} |}.

(** [generate] *)
Definition generate (client : Client Params Response) (sampling : Sampling)
    (earlier : list LlmCall) (options : GenerateOptions) : Outcome GenerateResponse :=
  let params := params_of sampling options in
  match client with
  | None => Thrown TypeError       (* this.client is undefined *)
  | Some create =>
      match create earlier params with
      | Returned response => Returned (response_of response)
      | Thrown e => Thrown e
      end
  end.

End AnthropicProvider.

Module OpenAIProvider.

Record FunctionParam : Type := {
  fp_name : string;
  fp_description : string;
  fp_parameters : Js.Value
}.

(** The parameters of [client.chat.completions.create]; a tool is
    [{ type: 'function', function }]. *)
Record Params : Type := {
  p_model : ModelId;
  p_messages : list Message;
  p_max_tokens : Z;
  p_temperature : string;
  p_tools : option (list FunctionParam);
  p_tool_choice : option ToolChoice
}.

Record Choice : Type := {
  c_content : option string;                (* message.content *)
  c_tool_calls : option (list ToolCall);    (* message.tool_calls *)
  c_finish_reason : option string
}.

Record CompletionUsage : Type := {
  prompt_tokens : option Z;
  completion_tokens : option Z;
  total_tokens : option Z
}.

Record Response : Type := {
  r_choices : list Choice;
  r_usage : option CompletionUsage
}.

Definition modelMap : list (string * string) :=
  [("gpt-4", "gpt-4-turbo-preview");
   ("gpt-4-turbo", "gpt-4-turbo-preview");
   ("gpt-3.5", "gpt-3.5-turbo")].

(** [getModel] *)
Definition getModel (alias : option string) : ModelId :=
  match alias with
  | Some (String c rest) => modelMap_or_alias modelMap (String c rest)
  | _ => ModelName "gpt-4-turbo-preview"
  end.

(** [convertTools] *)
Definition convertTools (tools : list ToolDefinition) : list FunctionParam :=
  List.map (fun tool_ => {| fp_name := td_name tool_;
                            fp_description := td_description tool_;
                            fp_parameters := td_inputSchema tool_ |})
           tools.

(** [mapFinishReason] *)
Definition mapFinishReason : option string -> FinishReason :=
  mapFinishReason_by "stop" "tool_calls" "length".

(** The parameters that [generate] builds. *)
Definition params_of (sampling : Sampling) (options : GenerateOptions) : Params :=
  {| p_model := getModel (Some (go_modelAlias options));
     p_messages := go_messages options;
     p_max_tokens := max_tokens_of sampling;
     p_temperature := temperature_of sampling;
     p_tools := if has_tools options
                then Some (convertTools (default [] (go_tools options)))
                else None;
     p_tool_choice := if has_tools options then go_toolChoice options else None |}.

(** [response.usage?.<count> || 0] *)
Definition count_or_0 (usage : option CompletionUsage)
    (count : CompletionUsage -> option Z) : Z :=
  match usage with
  | Some u => default 0%Z (count u)
  | None => 0%Z
  end.

(** The response that [generate] builds from the vendor's answer; reading
    [choice.message] throws when there is no choice. *)
Definition response_of (response : Response) : Outcome GenerateResponse :=
  match r_choices response with
  | [] => Thrown TypeError
  | choice :: _ =>
      Returned
        {| gr_content := Js.or_else (c_content choice) EmptyString;
           gr_toolCalls := c_tool_calls choice;
           gr_finishReason := mapFinishReason (c_finish_reason choice);
           gr_usage := {| inputTokens := count_or_0 (r_usage response) prompt_tokens;
                          outputTokens := count_or_0 (r_usage response) completion_tokens;
                          totalTokens := count_or_0 (r_usage response) total_tokens |} |}
  end.

(** [generate] *)
Definition generate (client : Client Params Response) (sampling : Sampling)
    (earlier : list LlmCall) (options : GenerateOptions) : Outcome GenerateResponse :=
  let params := params_of sampling options in
  match client with
  | None => Thrown TypeError       (* this.client is undefined *)
  | Some create =>
      match create earlier params with
      | Returned response => response_of response
      | Thrown e => Thrown e
      end
  end.

End OpenAIProvider.

Module LlmService.

(** The two entries of [this.providers]. *)
Inductive ModelProvider : Type := anthropicProvider | openaiProvider.

(** [this.providers.get(name)] *)
Definition providers_get (name : string) : option ModelProvider :=
  if String.eqb name "anthropic" then Some anthropicProvider
  else if String.eqb name "openai" then Some openaiProvider
  else None.

(** The configuration: the [LLM_PROVIDER] setting, and the vendor clients that
    the API keys give. *)
Record Config : Type := {
  LLM_PROVIDER : option string;
  anthropic_client : Client AnthropicProvider.Params AnthropicProvider.Response;
  openai_client : Client OpenAIProvider.Params OpenAIProvider.Response
}.

(** [getProvider] *)
Definition getProvider (config : Config) (modelAlias : option string)
  : Outcome ModelProvider :=
  let defaultProvider := Js.or_else (LLM_PROVIDER config) "anthropic" in
  let providerName :=
    match modelAlias with
    | Some (String c rest) =>
        if includes (String c rest) "claude" then "anthropic"
        else if includes (String c rest) "gpt" then "openai"
        else defaultProvider
    | _ => defaultProvider
    end in
  match providers_get providerName with
  | Some provider => Returned provider
  | None =>
      Thrown (Rejection (Js.Error ("Provider " +:+ providerName +:+ " not configured")))
  end.

(** [generate] *)
Definition generate (config : Config) (sampling : Sampling)
    (earlier : list LlmCall) (options : GenerateOptions) : Outcome GenerateResponse :=
  match getProvider config (Some (go_modelAlias options)) with
  | Thrown e => Thrown e
  | Returned anthropicProvider =>
      AnthropicProvider.generate (anthropic_client config) sampling earlier options
  | Returned openaiProvider =>
      OpenAIProvider.generate (openai_client config) sampling earlier options
  end.

(** [buildMessages] *)
Definition buildMessages (systemPrompt : string) (userMessage : string)
    (previousMessages : list Message) : list Message :=
  let messages :=
    match systemPrompt with
    | EmptyString => []
    | _ => [{| role := system; content := Some systemPrompt;
               tool_calls := None; tool_call_id := None |}]
    end in
  let messages := messages ++ previousMessages in
  messages ++ [user_message userMessage].

End LlmService.

(** [sub] occurs in [s]. *)
Definition contains (s sub : string) : Prop :=
  exists before after, s = before +:+ sub +:+ after.

(** The options with another [systemPrompt], or another [toolChoice]. *)
Definition with_systemPrompt (options : GenerateOptions) (systemPrompt : option string)
  : GenerateOptions :=
  {| go_modelAlias := go_modelAlias options;
     go_systemPrompt := systemPrompt;
     go_messages := go_messages options;
     go_tools := go_tools options;
     go_toolChoice := go_toolChoice options |}.

Definition with_toolChoice (options : GenerateOptions) (toolChoice : option ToolChoice)
  : GenerateOptions :=
  {| go_modelAlias := go_modelAlias options;
     go_systemPrompt := go_systemPrompt options;
     go_messages := go_messages options;
     go_tools := go_tools options;
     go_toolChoice := toolChoice |}.

(** The [tool_use] blocks of a vendor answer, as tool calls. *)
Definition tool_uses (blocks : list AnthropicProvider.ContentBlock) : list ToolCall :=
  List.concat
    (List.map (fun block =>
                 match block with
                 | AnthropicProvider.ToolUseBlock id name input =>
                     [{| tc_id := id; tc_name := name;
                         tc_arguments := default "undefined" (Js.stringify input) |}]
                 | _ => []
                 end) blocks).

(** The texts of the [text] blocks of a vendor answer, concatenated. *)
Definition texts (blocks : list AnthropicProvider.ContentBlock) : string :=
  List.fold_right
    (fun block rest =>
       match block with
       | AnthropicProvider.TextBlock text => text +:+ rest
       | _ => rest
       end) EmptyString blocks.

(** What [getModel] does with an alias, given the table of the provider and
    its default: a missing or empty alias gives the default; an alias of the
    table gives its model; a member name of [Object.prototype] gives that
    member, which is no model name; any other alias is the model name. *)
Definition resolves (getModel : option string -> ModelId)
    (modelMap : list (string * string)) (fallback : string) : Prop :=
  getModel None = ModelName fallback
  /\ getModel (Some EmptyString) = ModelName fallback
  /\ Forall (fun entry => getModel (Some (fst entry)) = ModelName (snd entry)) modelMap
  /\ forall alias,
       (alias ∈ object_prototype_members -> getModel (Some alias) = PrototypeMember alias)
       /\ (alias <> EmptyString -> alias ∉ List.map fst modelMap ->
           alias ∉ object_prototype_members -> getModel (Some alias) = ModelName alias)
       /\ (forall name, getModel (Some alias) = ModelName name ->
             name <> EmptyString /\ getModel (Some name) = ModelName name).

(** The messages that the caller of [execute] hands over: the contents of its
    array, none when it gives no array. *)
Definition caller_messages (options : AgentExecutionOptions) (w : World) : list Message :=
  match previousMessages options with
  | Some array => default [] (heap w !! array)
  | None => []
  end.

(** A message that is not a system message. *)
Definition not_system (m : Message) : Prop := role m <> system.

(** The provider that an alias is routed to has no client: its API key is not
    configured. *)
Definition routed_without_client (config : LlmService.Config) (alias : string) : Prop :=
  (LlmService.getProvider config (Some alias) = Returned LlmService.anthropicProvider
   /\ LlmService.anthropic_client config = None)
  \/ (LlmService.getProvider config (Some alias) = Returned LlmService.openaiProvider
      /\ LlmService.openai_client config = None).

(** * The chat service and the chat gateway

    [ChatService.processMessage], the caller of [execute], and
    [ChatGateway.processAndStream], the caller of [processMessage].  The rows
    of the tables [chats] and [chat_events] are a second store, beside the
    world of the orchestrator.  [Date.now()] is a reading [now] of the clock;
    [updatedAt] is left out. *)

Module ChatService.

Record Chat : Type := {
  c_id : string;
  c_organizationId : string;
  c_userId : string;
  c_agentId : option string;
  c_modelAlias : option string;
  c_isStreaming : bool;
  c_inputTokens : Z;
  c_outputTokens : Z;
  c_totalTokens : Z
}.

Record ChatEvent : Type := {
  e_chatId : string;
  e_timestamp : Z;
  e_sender : string;          (* 'user', 'agent' or 'system' *)
  e_messageType : string;
  e_content : string;
  e_modelAlias : option string
}.

Record Store : Type := {
  chats : list Chat;
  chatEvents : list ChatEvent
}.

(** What [processMessage] can throw: its own [NotFoundException], or what
    escapes from the orchestrator. *)
Inductive Failure : Type :=
| NotFoundException (message : string)
| Raised (e : Exception).

Inductive Result (A : Type) : Type :=
| Done (a : A)
| Failed (f : Failure).
Arguments Done {A} a.
Arguments Failed {A} f.

Fixpoint insert_asc (e : ChatEvent) (l : list ChatEvent) : list ChatEvent :=
  match l with
  | [] => [e]
  | f :: rest =>
      if (e_timestamp e <? e_timestamp f)%Z then e :: f :: rest
      else f :: insert_asc e rest
  end.

(** [orderBy: { timestamp: 'asc' }] *)
Definition orderBy_timestamp_asc (l : list ChatEvent) : list ChatEvent :=
  foldr insert_asc [] l.

(** [prisma.chat.findUnique({ where: { id }, include: { events: { orderBy:
    { timestamp: 'asc' } } } })] *)
Definition findUnique_chat (store : Store) (id : string)
  : option (Chat * list ChatEvent) :=
  match List.find (fun c => String.eqb (c_id c) id) (chats store) with
  | None => None
  | Some chat =>
      Some (chat,
            orderBy_timestamp_asc
              (List.filter (fun e => String.eqb (e_chatId e) id) (chatEvents store)))
  end.

(** [prisma.chatEvent.create({ data })] *)
Definition create_chatEvent (store : Store) (event : ChatEvent) : Store :=
  {| chats := chats store; chatEvents := chatEvents store ++ [event] |}.

(** [prisma.chat.update({ where: { id }, data })] on the row with that id. *)
Fixpoint update_first (id : string) (change : Chat -> Chat) (rows : list Chat)
  : list Chat :=
  match rows with
  | [] => []
  | row :: rest =>
      if String.eqb (c_id row) id then change row :: rest
      else row :: update_first id change rest
  end.

Definition update_chat (store : Store) (id : string) (change : Chat -> Chat) : Store :=
  {| chats := update_first id change (chats store); chatEvents := chatEvents store |}.

(** The message that [processMessage] makes of an event. *)
Definition message_of_event (e : ChatEvent) : Message :=
  {| role := if String.eqb (e_sender e) "user" then user else assistant;
     content := Some (e_content e);
     tool_calls := None;
     tool_call_id := None |}.

(** [agentId || chat.agentId] *)
Definition effective_agent (agentId : option string) (chat : Chat) : option string :=
  match agentId with
  | Some (String c rest) => Some (String c rest)
  | _ =>
      match c_agentId chat with
      | Some (String c rest) => Some (String c rest)
      | _ => None
      end
  end.

(** The data of the update that closes a run. *)
Definition closed_with (result : AgentExecutionResult) (chat : Chat) : Chat :=
  {| c_id := c_id chat;
     c_organizationId := c_organizationId chat;
     c_userId := c_userId chat;
     c_agentId := c_agentId chat;
     c_modelAlias := c_modelAlias chat;
     c_isStreaming := false;
     c_inputTokens := c_inputTokens chat + inputTokens (usage result);
     c_outputTokens := c_outputTokens chat + outputTokens (usage result);
     c_totalTokens := c_totalTokens chat + totalTokens (usage result) |}.

Section ProcessMessage.

Variable llm : list LlmCall -> GenerateOptions -> Outcome GenerateResponse.
Variable db : Database.

(** [processMessage].  The result is [Done None] for [null]. *)
Definition processMessage (now : Z) (chatId : string) (agentId : option string)
    (store : Store) (w : World)
  : Result (option AgentExecutionResult) * Store * World :=
  match findUnique_chat store chatId with
  | None => (Failed (NotFoundException "Chat not found"), store, w)
  | Some (chat, events) =>
      let previousMessages :=
        List.map message_of_event
          (List.filter (fun e => negb (String.eqb (e_sender e) "system")) events) in
      let lastMessage := last previousMessages in
      match effective_agent agentId chat with
      | None => (Done None, store, w)
      | Some effectiveAgentId =>
          match lastMessage with
          | None => (Failed (Raised TypeError), store, w)  (* lastMessage.content *)
          | Some lastMessage =>
              (* previousMessages.slice(0, -1) is a new array *)
              match alloc (removelast previousMessages) w with
              | (Thrown e, w1) => (Failed (Raised e), store, w1)
              | (Returned sliced, w1) =>
                  match execute llm db
                          {| agentId := effectiveAgentId;
                             organizationId := c_organizationId chat;
                             userId := Some (c_userId chat);
                             input := default EmptyString (content lastMessage);
                             chatId := Some (c_id chat);
                             runId := None;
                             previousMessages := Some sliced;
                             toolExecutors := None |} w1 with
                  | (Thrown e, w2) => (Failed (Raised e), store, w2)
                  | (Returned result, w2) =>
                      let store1 :=
                        create_chatEvent store
                          {| e_chatId := c_id chat;
                             e_timestamp := now;
                             e_sender := "agent";
                             e_messageType := "text";
                             e_content := output result;
                             e_modelAlias := c_modelAlias chat |} in
                      let store2 := update_chat store1 (c_id chat) (closed_with result) in
                      (Done (Some result), store2, w2)
                  end
              end
          end
      end
  end.

End ProcessMessage.

End ChatService.

Module ChatGateway.

(** [chunkText]: the loop [for (let i = 0; i < text.length; i += chunkSize)],
    with the rounds it may still make.  A loop that has not ended when they
    are used up never ends. *)
Fixpoint chunkText_from (rounds : nat) (text : string) (i chunkSize : nat)
    (chunks : list string) : option (list string) :=
  if Nat.ltb i (String.length text) then
    match rounds with
    | 0 => None
    | S rounds' =>
        chunkText_from rounds' text (i + chunkSize) chunkSize
                       (chunks ++ [String.substring i chunkSize text])
    end
  else Some chunks.

(** [chunkText].  The index grows in every round when [chunkSize] is
    positive, so the loop ends within [text.length] rounds or not at all. *)
Definition chunkText (text : string) (chunkSize : nat) : option (list string) :=
  chunkText_from (String.length text) text 0 chunkSize [].

(** What the gateway emits on the socket of the client.  An error event
    carries the error whose [message] is sent. *)
Inductive Emitted : Type :=
| streamStart (chatId : string)
| streamChunk (chatId : string) (content : string)
| streamComplete (chatId : string) (usage : option Usage)
| streamError (chatId : string) (error : ChatService.Failure).

(** [error.message] can be read unless the error is [undefined] or [null]. *)
Definition has_message (error : ChatService.Failure) : bool :=
  match error with
  | ChatService.Raised (Rejection Js.Undefined)
  | ChatService.Raised (Rejection Js.Null) => false
  | _ => true
  end.

Section ProcessAndStream.

Variable llm : list LlmCall -> GenerateOptions -> Outcome GenerateResponse.
Variable db : Database.

(** [processAndStream]: the events emitted, in order, and the exception that
    escapes the [catch] block, if any. *)
Definition processAndStream (now : Z) (chatId : string) (agentId : option string)
    (store : ChatService.Store) (w : World)
  : list Emitted * option Exception * ChatService.Store * World :=
  let started := [streamStart chatId] in
  match ChatService.processMessage llm db now chatId agentId store w with
  | (ChatService.Failed error, store', w') =>
      if has_message error
      then (started ++ [streamError chatId error], None, store', w')
      else (started, Some TypeError, store', w')
  | (ChatService.Done result, store', w') =>
      match result with
      | Some result =>
          match chunkText (output result) 20 with
          | Some chunks =>
              (started ++ List.map (streamChunk chatId) chunks
                       ++ [streamComplete chatId (Some (usage result))],
               None, store', w')
          | None => (started, None, store', w')   (* the loop does not end *)
          end
      | None => (started ++ [streamComplete chatId None], None, store', w')
      end
  end.

End ProcessAndStream.

End ChatGateway.

(** [chunks.join('')] *)
Definition joined (chunks : list string) : string :=
  List.fold_right String.append EmptyString chunks.

(** The order of [orderBy: { timestamp: 'asc' }]. *)
Definition older_first (e f : ChatService.ChatEvent) : Prop :=
  (ChatService.e_timestamp e <= ChatService.e_timestamp f)%Z.

(** The events of a chat that [processMessage] turns into messages. *)
Definition history_of (events : list ChatService.ChatEvent)
  : list ChatService.ChatEvent :=
  List.filter (fun e => negb (String.eqb (ChatService.e_sender e) "system")) events.

(** The options with which [processMessage] runs the agent. *)
Definition chat_options (chat : ChatService.Chat) (effectiveAgentId : string)
    (lastEvent : ChatService.ChatEvent) (sliced : loc) : AgentExecutionOptions :=
  {| agentId := effectiveAgentId;
     organizationId := ChatService.c_organizationId chat;
     userId := Some (ChatService.c_userId chat);
     input := ChatService.e_content lastEvent;
     chatId := Some (ChatService.c_id chat);
     runId := None;
     previousMessages := Some sliced;
     toolExecutors := None |}.

(** The world in which the agent runs: the one of the caller, with the new
    array of the earlier messages. *)
Definition chat_world (earlier : list ChatService.ChatEvent) (w : World) : World :=
  {| heap := <[fresh (dom (heap w)) := List.map ChatService.message_of_event earlier]>
               (heap w);
     llm_calls := llm_calls w;
     tool_invocations := tool_invocations w |}.

(** * JSON texts

    The values that JSON can carry, and the tokens of their texts. *)

(** The grammar of JSON numbers, as an automaton: an optional minus sign, an
    integer part without leading zero, an optional fraction, an optional
    exponent. *)
Definition number_start (c : ascii) : option Js.NumPhase :=
  if Nat.eqb (Js.code c) 45 then Some Js.NMinus
  else if Nat.eqb (Js.code c) 48 then Some Js.NZero
  else if Js.is_digit c then Some Js.NInt
  else None.

Fixpoint number_run (phase : Js.NumPhase) (chars : list ascii) : option Js.NumPhase :=
  match chars with
  | [] => Some phase
  | c :: rest =>
      match Js.lex_number phase c with
      | Some (Some phase') => number_run phase' rest
      | _ => None
      end
  end.

Definition is_number (lexeme : string) : bool :=
  match list_ascii_of_string lexeme with
  | [] => false
  | c :: rest =>
      match number_start c with
      | Some phase =>
          match number_run phase rest with
          | Some final => Js.number_complete final
          | None => false
          end
      | None => false
      end
  end.

(** A value of the JSON data model: no [undefined] and no [Error] anywhere in
    it, and every number a JSON number. *)
Fixpoint is_json (v : Js.Value) : bool :=
  match v with
  | Js.Undefined | Js.Error _ => false
  | Js.Null | Js.Bool _ | Js.Str _ => true
  | Js.Number lexeme => is_number lexeme
  | Js.Array items =>
      (fix all (l : list Js.Value) : bool :=
         match l with
         | [] => true
         | x :: rest => is_json x && all rest
         end) items
  | Js.Object fields =>
      (fix all (l : list (string * Js.Value)) : bool :=
         match l with
         | [] => true
         | (_, x) :: rest => is_json x && all rest
         end) fields
  end.

(** The values on which [Js.parse] and [Js.stringify] are [JSON.parse] and
    [JSON.stringify] to the letter.  A number is an integer of at most 15
    digits, written as [JSON.stringify] writes it: [0], or an optional minus
    sign and digits without a leading zero (so not [-0], which is written
    [0], and no fraction or exponent, which [JSON.parse] rounds and
    [JSON.stringify] writes in its own form).  The keys of an object are
    distinct and none starts with a digit (a later duplicate replaces an
    earlier member, and integer keys are moved to the front). *)
Definition is_plain_integer (lexeme : string) : bool :=
  let chars := list_ascii_of_string lexeme in
  let digits := match chars with
                | c :: rest => if Nat.eqb (Js.code c) 45 then rest else chars
                | [] => []
                end in
  match digits with
  | [] => false
  | d :: more =>
      if Nat.eqb (Js.code d) 48
      then match more with
           | [] => Nat.eqb (List.length chars) 1
           | _ => false
           end
      else Js.is_digit d && forallb Js.is_digit more
           && Nat.leb (List.length digits) 15
  end.

Definition plain_key (k : string) : bool :=
  match k with
  | EmptyString => true
  | String c _ => negb (Js.is_digit c)
  end.

Fixpoint distinct (keys : list string) : bool :=
  match keys with
  | [] => true
  | k :: rest => negb (existsb (String.eqb k) rest) && distinct rest
  end.

Fixpoint canonical (v : Js.Value) : bool :=
  match v with
  | Js.Undefined | Js.Error _ => false
  | Js.Null | Js.Bool _ | Js.Str _ => true
  | Js.Number lexeme => is_plain_integer lexeme
  | Js.Array items =>
      (fix all (l : list Js.Value) : bool :=
         match l with
         | [] => true
         | x :: rest => canonical x && all rest
         end) items
  | Js.Object fields =>
      forallb plain_key (List.map fst fields)
      && distinct (List.map fst fields)
      && (fix all (l : list (string * Js.Value)) : bool :=
            match l with
            | [] => true
            | (_, x) :: rest => canonical x && all rest
            end) fields
  end.

(** The tokens of the text of a JSON value. *)
Fixpoint tokens_of (v : Js.Value) : list Js.Token :=
  match v with
  | Js.Undefined | Js.Error _ => []
  | Js.Null => [Js.TNull]
  | Js.Bool true => [Js.TTrue]
  | Js.Bool false => [Js.TFalse]
  | Js.Number lexeme => [Js.TNum lexeme]
  | Js.Str s => [Js.TStr s]
  | Js.Array items =>
      Js.TLBracket ::
      (fix elements (l : list Js.Value) : list Js.Token :=
         match l with
         | [] => []
         | [x] => tokens_of x
         | x :: rest => tokens_of x ++ Js.TComma :: elements rest
         end) items
      ++ [Js.TRBracket]
  | Js.Object fields =>
      Js.TLBrace ::
      (fix members (l : list (string * Js.Value)) : list Js.Token :=
         match l with
         | [] => []
         | [(k, x)] => Js.TStr k :: Js.TColon :: tokens_of x
         | (k, x) :: rest =>
             Js.TStr k :: Js.TColon :: tokens_of x ++ Js.TComma :: members rest
         end) fields
      ++ [Js.TRBrace]
  end.

(** The lexer, run over some characters. *)
Fixpoint lex_run (st : Js.LexState * list Js.Token) (input : list ascii)
  : option (Js.LexState * list Js.Token) :=
  match input with
  | [] => Some st
  | c :: rest =>
      match Js.lex_step st c with
      | Some st' => lex_run st' rest
      | None => None
      end
  end.

(** A lexer state that stands for the idle state with the tokens [toks]: a
    character that ends a value, and the end of the text, are read from it as
    they are from that state. *)
Definition settles (st : Js.LexState * list Js.Token) (toks : list Js.Token) : Prop :=
  (forall c, c = Js.chr 44 \/ c = Js.chr 93 \/ c = Js.chr 125 ->
             Js.lex_step st c = Js.lex_idle c toks)
  /\ Js.lex_from st [] = Some (rev toks).

(** The text of an item of an array. *)
Definition item_text (x : Js.Value) : string := default "null" (Js.stringify x).

(** The text of a member of an object. *)
Definition member_text (field : string * Js.Value) : string :=
  Js.quote (fst field) +:+ ":" +:+ item_text (snd field).

(** The tokens of the items of an array and of the members of an object. *)
Fixpoint element_tokens (items : list Js.Value) : list Js.Token :=
  match items with
  | [] => []
  | [x] => tokens_of x
  | x :: rest => tokens_of x ++ Js.TComma :: element_tokens rest
  end.

Fixpoint member_tokens (fields : list (string * Js.Value)) : list Js.Token :=
  match fields with
  | [] => []
  | [(k, x)] => Js.TStr k :: Js.TColon :: tokens_of x
  | (k, x) :: rest => Js.TStr k :: Js.TColon :: tokens_of x ++ Js.TComma :: member_tokens rest
  end.

(** A value whose text the lexer reads as the tokens of the value. *)
Definition lexes (v : Js.Value) : Prop :=
  exists text,
    Js.stringify v = Some text
    /\ forall toks, exists st,
         lex_run (Js.LIdle, toks) (list_ascii_of_string text) = Some st
         /\ settles st (rev (tokens_of v) ++ toks).

(** A value whose tokens the parser reads as the value, wherever a value is
    expected. *)
Definition parses_back (v : Js.Value) : Prop :=
  forall stack rest,
    Js.expects_value stack = true ->
    Js.parse_tokens (stack, None) (tokens_of v ++ rest)
    = match Js.deliver v stack with
      | Some st => Js.parse_tokens st rest
      | None => None
      end.

(** * Further scenarios *)

Module Cases.

(** An executor for [lookup_ip] that throws [null]. *)
Definition lookup_ip_throws_null : ToolExecutor :=
  {| te_name := "lookup_ip";
     te_execute := fun _ _ => RejectedWith Js.Null |}.

(** An executor for [lookup_ip] that answers. *)
Definition lookup_ip_answers : ToolExecutor :=
  {| te_name := "lookup_ip";
     te_execute := fun _ _ => Fulfilled (Js.Object [("country", Js.Str "NL")]) |}.

(** The agent [agent-1] with two tools bound to it, one without description,
    beside a tool of another agent. *)
Definition db_with_tools : Database :=
  {| agents := [Scenario.agent_with_mode "loop_with_limits"];
     agentSystemPrompts := [];
     agentTools :=
       [{| at_agentId := "agent-1";
           at_tool := {| tool_name := "lookup_ip";
                         tool_description := Some "Look up an address";
                         tool_inputSchema := None |} |};
        {| at_agentId := "agent-2";
           at_tool := {| tool_name := "close_ticket";
                         tool_description := None;
                         tool_inputSchema := None |} |};
        {| at_agentId := "agent-1";
           at_tool := {| tool_name := "query_siem";
                         tool_description := None;
                         tool_inputSchema := None |} |}];
     contextDocuments := [];
     agentMemories := [] |}.

Definition found_with_tools : AgentWithRelations :=
  {| agent := Scenario.agent_with_mode "loop_with_limits";
     systemPrompts := [];
     tools := [{| at_agentId := "agent-1";
                  at_tool := {| tool_name := "lookup_ip";
                                tool_description := Some "Look up an address";
                                tool_inputSchema := None |} |};
               {| at_agentId := "agent-1";
                  at_tool := {| tool_name := "query_siem";
                                tool_description := None;
                                tool_inputSchema := None |} |}] |}.

(** The agent [agent-1] with an old and a new active prompt, a newer draft,
    and the prompt of another agent. *)
Definition prompt (agentId text status : string) (createdAt : Z) : AgentSystemPrompt :=
  {| sp_agentId := agentId; sp_prompt := text; sp_status := status;
     sp_createdAt := createdAt |}.

Definition db_with_prompts : Database :=
  {| agents := [Scenario.agent_with_mode "single_step"];
     agentSystemPrompts :=
       [prompt "agent-1" "Old prompt." "active" 1;
        prompt "agent-1" "New prompt." "active" 3;
        prompt "agent-1" "Draft." "draft" 5;
        prompt "agent-2" "Other." "active" 9];
     agentTools := [];
     contextDocuments := [];
     agentMemories := [] |}.

Definition found_with_prompts : AgentWithRelations :=
  {| agent := Scenario.agent_with_mode "single_step";
     systemPrompts := [prompt "agent-1" "New prompt." "active" 3];
     tools := [] |}.

(** A document of [agent-1] whose content has 1001 characters. *)
Definition db_with_long_document : Database :=
  {| agents := [Scenario.agent_with_mode "single_step"];
     agentSystemPrompts := [];
     agentTools := [];
     contextDocuments := [{| doc_agentId := Some "agent-1";
                             doc_organizationId := "org-1";
                             doc_title := "note";
                             doc_content := Some Scenario.long_value |}];
     agentMemories := [] |}.

Definition found_plain (mode : string) : AgentWithRelations :=
  {| agent := Scenario.agent_with_mode mode; systemPrompts := []; tools := [] |}.

(** A world with the caller's array at reference 0 and an array of someone
    else at reference 1. *)
Definition world_with_two_arrays : World :=
  {| heap := {[ 0 := [Scenario.earlier_message]; 1 := [user_message "kept"] ]};
     llm_calls := [];
     tool_invocations := [] |}.

(** A configuration without API keys. *)
Definition config_without_keys : LlmService.Config :=
  {| LlmService.LLM_PROVIDER := Some "openai";
     LlmService.anthropic_client := None;
     LlmService.openai_client := None |}.

(** A vendor answer with a text and a [tool_use] block. *)
Definition lookup_input : Js.Value :=
  Js.Object [("ip", Js.Str "10.0.0.1");
             ("ports", Js.Array [Js.Number "80"; Js.Number "-1500"]);
             ("deep", Js.Bool true);
             ("note", Js.Null)].

Definition answer_with_tool_use : AnthropicProvider.Response :=
  {| AnthropicProvider.r_content :=
       [AnthropicProvider.TextBlock "Looking up the address.";
        AnthropicProvider.ToolUseBlock "call_1" "lookup_ip" lookup_input];
     AnthropicProvider.r_stop_reason := Some "tool_use";
     AnthropicProvider.r_input_tokens := 10;
     AnthropicProvider.r_output_tokens := 5 |}.

(** A chat of [agent-1] with four events, stored out of order. *)
Definition event (sender text : string) (timestamp : Z) : ChatService.ChatEvent :=
  {| ChatService.e_chatId := "chat-1";
     ChatService.e_timestamp := timestamp;
     ChatService.e_sender := sender;
     ChatService.e_messageType := "text";
     ChatService.e_content := text;
     ChatService.e_modelAlias := None |}.

Definition chat1 : ChatService.Chat :=
  {| ChatService.c_id := "chat-1";
     ChatService.c_organizationId := "org-1";
     ChatService.c_userId := "user-1";
     ChatService.c_agentId := Some "agent-1";
     ChatService.c_modelAlias := None;
     ChatService.c_isStreaming := true;
     ChatService.c_inputTokens := 0;
     ChatService.c_outputTokens := 0;
     ChatService.c_totalTokens := 0 |}.

Definition store1 : ChatService.Store :=
  {| ChatService.chats := [chat1];
     ChatService.chatEvents :=
       [event "user" "ping" 4;
        event "user" "hello" 1;
        event "system" "joined" 3;
        event "agent" "hi" 2] |}.

End Cases.

(** * Properties *)

(** ** Tool execution *)

Section ToolExecution.

Variable toolExecutors : list ToolExecutor.
Variable context : ToolExecutionContext.

(** Tool execution touches neither the message arrays nor the model. *)
Lemma executeToolCall_frame toolCall w :
  heap (executeToolCall toolExecutors context toolCall w).2 = heap w
  /\ llm_calls (executeToolCall toolExecutors context toolCall w).2 = llm_calls w.
Proof.
  unfold executeToolCall, bind, JSON_parse.
  destruct (Js.parse (tc_arguments toolCall)) as [toolInput|]; cbn; [|done].
  destruct (List.find _ toolExecutors) as [executor|]; cbn; [|done].
  destruct (te_execute executor toolInput context) as [out|reason]; cbn; [done|].
  destruct reason; cbn; done.
Qed.

Lemma executeToolCalls_from_frame toolCalls : forall results w,
  heap (executeToolCalls_from results toolCalls toolExecutors context w).2 = heap w
  /\ llm_calls (executeToolCalls_from results toolCalls toolExecutors context w).2
     = llm_calls w.
Proof.
  induction toolCalls as [|toolCall rest IH]; intros results w; cbn; [done|].
  unfold bind.
  pose proof (executeToolCall_frame toolCall w) as [Hh Hl].
  destruct (executeToolCall toolExecutors context toolCall w) as [[result|e] w1];
    cbn in *; [|done].
  destruct (IH (results ++ [result]) w1) as [Hh' Hl'].
  split; congruence.
Qed.

Lemma executeToolCalls_frame toolCalls w :
  heap (executeToolCalls toolCalls toolExecutors context w).2 = heap w
  /\ llm_calls (executeToolCalls toolCalls toolExecutors context w).2 = llm_calls w.
Proof. apply executeToolCalls_from_frame. Qed.

(** Every entry answers the request it was made for. *)
Lemma executeToolCall_answers toolCall w result w' :
  executeToolCall toolExecutors context toolCall w = (Returned result, w') ->
  toolCallId result = tc_id toolCall /\ toolName result = tc_name toolCall.
Proof.
  unfold executeToolCall, bind, JSON_parse.
  destruct (Js.parse (tc_arguments toolCall)) as [toolInput|]; cbn; [|done].
  destruct (List.find _ toolExecutors) as [executor|]; cbn.
  - destruct (te_execute executor toolInput context) as [out|reason]; cbn.
    + intros [= <- _]; done.
    + destruct reason; cbn; intros [= <- _] || intros [=]; done.
  - intros [= <- _]; done.
Qed.

(** When the tool-execution phase completes, it has produced exactly one
    result per request, in the order of the requests. *)
Lemma executeToolCalls_from_one_each toolCalls : forall results w produced w',
  executeToolCalls_from results toolCalls toolExecutors context w = (Returned produced, w') ->
  exists fresh_results,
    produced = results ++ fresh_results
    /\ List.map toolCallId fresh_results = List.map tc_id toolCalls
    /\ List.map toolName fresh_results = List.map tc_name toolCalls.
Proof.
  induction toolCalls as [|toolCall rest IH]; intros results w produced w'; cbn.
  - intros [= <- _]. exists []. by rewrite app_nil_r.
  - unfold bind.
    destruct (executeToolCall toolExecutors context toolCall w) as [[result|e] w1] eqn:E;
      [|done].
    intros H. apply IH in H as (more & -> & Hids & Hnames).
    apply executeToolCall_answers in E as [Hid Hname].
    exists (result :: more). rewrite <- app_assoc. cbn.
    by rewrite Hid, Hname, Hids, Hnames.
Qed.

Lemma executeToolCalls_one_each toolCalls w produced w' :
  executeToolCalls toolCalls toolExecutors context w = (Returned produced, w') ->
  List.map toolCallId produced = List.map tc_id toolCalls
  /\ List.map toolName produced = List.map tc_name toolCalls.
Proof.
  intros H. apply executeToolCalls_from_one_each in H as (more & -> & ? & ?). done.
Qed.

(** The tool-execution phase completes when every request has JSON arguments
    and the executors throw values that have a [message] to read. *)
Lemma executeToolCall_completes toolCall w :
  parses toolCall ->
  Forall throws_values toolExecutors ->
  exists result w', executeToolCall toolExecutors context toolCall w = (Returned result, w').
Proof.
  intros [toolInput Hparse] Hexecutors.
  unfold executeToolCall, bind, JSON_parse. rewrite Hparse. cbn.
  destruct (List.find _ toolExecutors) as [executor|] eqn:Hfind; cbn; [|by eexists _, _].
  apply List.find_some in Hfind as [Hin _]. apply list_elem_of_In in Hin.
  rewrite Forall_forall in Hexecutors. specialize (Hexecutors executor Hin).
  destruct (te_execute executor toolInput context) as [out|reason] eqn:Hsettled; cbn;
    [by eexists _, _|].
  destruct (Hexecutors _ _ _ Hsettled) as [Hundefined Hnull].
  destruct reason; cbn; try done; by eexists _, _.
Qed.

Lemma executeToolCalls_from_completes toolCalls : forall results w,
  Forall parses toolCalls ->
  Forall throws_values toolExecutors ->
  exists produced w',
    executeToolCalls_from results toolCalls toolExecutors context w = (Returned produced, w').
Proof.
  induction toolCalls as [|toolCall rest IH]; intros results w Hparse Hexecutors; cbn.
  - by eexists _, _.
  - apply Forall_cons in Hparse as [Hfirst Hrest]. unfold bind.
    destruct (executeToolCall_completes toolCall w Hfirst Hexecutors)
      as (result & w1 & ->).
    by apply IH.
Qed.

Lemma executeToolCalls_completes toolCalls w :
  Forall parses toolCalls ->
  Forall throws_values toolExecutors ->
  exists produced w',
    executeToolCalls toolCalls toolExecutors context w = (Returned produced, w').
Proof. apply executeToolCalls_from_completes. Qed.

End ToolExecution.

(** ** The loop *)

Section Loop.

Variable llm : list LlmCall -> GenerateOptions -> Outcome GenerateResponse.
Variable options : LoopOptions.

Local Abbreviation rounds := (executeLoop_rounds llm options).
Local Abbreviation tools_phase r :=
  (executeToolCalls (requested r) (lo_toolExecutors options) (lo_context options)).

(** One round of the loop, spelled out on the world. *)
Lemma executeLoop_rounds_S remaining vars w :
  rounds (S remaining) vars w =
  let request := round_request options vars in
  let w1 := logged w request (llm (llm_calls w) request) in
  match llm (llm_calls w) request with
  | Thrown e => (Thrown e, w1)
  | Returned r =>
      if requests_tools r then
        match tools_phase r w1 with
        | (Returned toolResults, w2) =>
            rounds remaining (vars_after_tools vars r toolResults) w2
        | (Thrown e, w2) => (Thrown e, w2)
        end
      else (Returned (vars_at_break vars r), w1)
  end.
Proof.
  cbn [executeLoop_rounds]. unfold bind, generate. fold (round_request options vars).
  destruct (llm (llm_calls w) (round_request options vars)) as [r|e]; cbn; [|done].
  destruct (requests_tools r); cbn; [|done].
  by destruct (tools_phase r _) as [[toolResults|e] w2].
Qed.

(** The model calls of a loop: how many, what each answered, and how the loop
    ended. *)
Lemma executeLoop_rounds_calls remaining : forall vars w,
  exists new,
    llm_calls (rounds remaining vars w).2 = llm_calls w ++ new
    /\ heap (rounds remaining vars w).2 = heap w
    /\ List.length new <= remaining
    /\ match (rounds remaining vars w).1 with
       | Returned vars' =>
           (remaining = 0 /\ new = [] /\ vars' = vars)
           \/ exists init call r,
                new = init ++ [call]
                /\ Forall asked_tools init
                /\ response call = Returned r
                /\ lv_finalOutput vars' = gr_content r
                /\ (requests_tools r = false
                    \/ requests_tools r = true /\ List.length new = remaining)
       | Thrown e => aborted_by (lo_toolExecutors options) (lo_context options) new e
       end.
Proof.
  induction remaining as [|remaining IH]; intros vars w.
  { exists []. cbn. rewrite app_nil_r. split; [done|]. split; [done|]. split; [lia|].
    left. done. }
  rewrite executeLoop_rounds_S. cbv zeta.
  set (request := round_request options vars).
  set (call := {| request := request; response := llm (llm_calls w) request |}).
  destruct (llm (llm_calls w) request) as [r|e] eqn:Hanswer.
  2:{ exists [call]. cbn. split; [done|]. split; [done|]. split; [lia|].
      exists [], call. split; [done|]. split; [constructor|]. left. done. }
  destruct (requests_tools r) eqn:Htools.
  2:{ exists [call]. cbn. split; [done|]. split; [done|]. split; [lia|].
      right. exists [], call, r. split; [done|]. split; [constructor|].
      split; [done|]. split; [done|]. by left. }
  pose proof (executeToolCalls_frame (lo_toolExecutors options) (lo_context options)
                (requested r) (logged w request (Returned r))) as [Hheap Hcalls].
  destruct (tools_phase r (logged w request (Returned r))) as [[toolResults|e] w2] eqn:Hphase;
    cbn in Hheap, Hcalls.
  2:{ exists [call]. cbn. rewrite Hheap, Hcalls. split; [done|]. split; [done|].
      split; [lia|].
      exists [], call. split; [done|]. split; [constructor|]. right.
      exists r, (logged w request (Returned r)). rewrite Hphase. done. }
  destruct (IH (vars_after_tools vars r toolResults) w2) as (new & Hnew & Hh & Hlen & Hend).
  assert (Hasked : asked_tools call) by (exists r; done).
  exists (call :: new). rewrite Hnew, Hh, Hheap, Hcalls. cbn.
  rewrite <- app_assoc. cbn. split; [done|]. split; [done|]. split; [lia|].
  destruct (rounds remaining (vars_after_tools vars r toolResults) w2).1 as [vars'|e].
  - right.
    destruct Hend as [(-> & -> & ->)|(init & last_call & r' & -> & Hinit & Hr' & Hout & Hhow)].
    + exists [], call, r. split; [done|]. split; [constructor|].
      split; [done|]. split; [done|]. by right.
    + exists (call :: init), last_call, r'. split; [done|]. split; [by constructor|].
      split; [done|]. split; [done|].
      destruct Hhow as [?|[? Hl]]; [by left|right]. split; [done|]. by rewrite Hl.
  - destruct Hend as (init & last_call & -> & Hinit & Hwhy).
    exists (call :: init), last_call. split; [done|]. split; [by constructor|]. done.
Qed.

(** What a loop that returns has accumulated: the token counts of its model
    calls, and step records of its own rounds only. *)
Lemma executeLoop_rounds_totals remaining : forall vars w vars' w',
  rounds remaining vars w = (Returned vars', w') ->
  exists new added,
    llm_calls w' = llm_calls w ++ new
    /\ lv_totalInputTokens vars' = (lv_totalInputTokens vars + tokens_in new)%Z
    /\ lv_totalOutputTokens vars' = (lv_totalOutputTokens vars + tokens_out new)%Z
    /\ lv_steps vars' = lv_steps vars ++ added
    /\ Forall loop_step added
    /\ List.length (llm_call_records added) = List.length new.
Proof.
  induction remaining as [|remaining IH]; intros vars w vars' w'.
  { cbn. intros [= <- <-]. exists [], []. rewrite !app_nil_r, !Z.add_0_r.
    repeat split; constructor. }
  rewrite executeLoop_rounds_S. cbv zeta.
  set (request := round_request options vars).
  set (call := {| request := request; response := llm (llm_calls w) request |}).
  destruct (llm (llm_calls w) request) as [r|e] eqn:Hanswer; [|done].
  destruct (requests_tools r) eqn:Htools.
  2:{ intros [= <- <-].
      exists [call], [{| step_type := llm_call;
                         step_data := LoopCall (S (lv_iteration vars)) (gr_content r)
                                               (gr_toolCalls r) |}].
      subst call. cbn. rewrite !Z.add_0_r.
      repeat split. repeat constructor. }
  pose proof (executeToolCalls_frame (lo_toolExecutors options) (lo_context options)
                (requested r) (logged w request (Returned r))) as [_ Hcalls].
  destruct (tools_phase r (logged w request (Returned r))) as [[toolResults|e] w2];
    cbn in Hcalls; [|done].
  intros Hrest.
  apply IH in Hrest as (new & added & Hnew & Hin & Hout & Hsteps & Hadded & Hrecords).
  exists (call :: new),
         ({| step_type := llm_call;
             step_data := LoopCall (S (lv_iteration vars)) (gr_content r) (gr_toolCalls r) |}
          :: {| step_type := tool_call; step_data := ToolResults toolResults |} :: added).
  rewrite Hnew, Hcalls, Hin, Hout, Hsteps. subst call. cbn.
  rewrite <- !app_assoc. cbn.
  split; [done|]. split; [lia|]. split; [lia|]. split; [done|].
  split; [repeat constructor; done|].
  unfold llm_call_records in *. cbn. by rewrite Hrecords.
Qed.

(** [executeLoop] is its rounds, from the initial variables. *)
Lemma executeLoop_unfold w :
  executeLoop llm options w =
  match rounds (lo_maxSteps options)
               (initial_vars (default [] (heap w !! lo_messages options))) w with
  | (Returned vars, w') => (Returned (result_of_vars vars), w')
  | (Thrown e, w') => (Thrown e, w')
  end.
Proof.
  unfold executeLoop, bind, read. cbn. fold (initial_vars (default [] (heap w !! lo_messages options))).
  by destruct (rounds _ _ w) as [[vars|e] w'].
Qed.

(** The loop returns when the model responds and the tool phases complete:
    reaching the limit is not a failure. *)
Lemma executeLoop_rounds_returns remaining : forall vars w,
  responds llm ->
  Forall throws_values (lo_toolExecutors options) ->
  exists vars' w', rounds remaining vars w = (Returned vars', w').
Proof.
  induction remaining as [|remaining IH]; intros vars w Hllm Hexecutors.
  { by eexists _, _. }
  rewrite executeLoop_rounds_S. cbv zeta.
  destruct (Hllm (llm_calls w) (round_request options vars)) as (r & -> & Hparse).
  destruct (requests_tools r); [|by eexists _, _].
  destruct (executeToolCalls_completes (lo_toolExecutors options) (lo_context options)
              (requested r) (logged w (round_request options vars) (Returned r))
              Hparse Hexecutors) as (toolResults & w2 & ->).
  by apply IH.
Qed.

Lemma executeLoop_returns w :
  responds llm ->
  Forall throws_values (lo_toolExecutors options) ->
  exists result w', executeLoop llm options w = (Returned result, w').
Proof.
  intros Hllm Hexecutors. rewrite executeLoop_unfold.
  destruct (executeLoop_rounds_returns (lo_maxSteps options)
              (initial_vars (default [] (heap w !! lo_messages options))) w
              Hllm Hexecutors) as (vars & w' & ->).
  by eexists _, _.
Qed.

End Loop.

Lemma asked_not_plain call : asked_tools call -> answered_plainly call -> False.
Proof. intros (r & Hr & Ht) (r' & Hr' & Hp). congruence. Qed.

Lemma last_snoc {A} (l : list A) (x : A) : last (l ++ [x]) = Some x.
Proof. induction l as [|y l IH]; [done|]. cbn. destruct (l ++ [x]) eqn:E; [by destruct l|done]. Qed.

Lemma final_content_snoc init call :
  final_content (init ++ [call]) = content_of call.
Proof. unfold final_content. by rewrite last_snoc. Qed.

(** ** C5: the step limit of [loop_with_limits] *)

(** C5.  A [loop_with_limits] run with [maxSteps = K] makes at most K model
    calls.  A response without tool-call requests ends the loop: it is the last
    call of the run, the run returns, and its output is that response's
    content.  A run that returns gives the content of the last response
    produced as its output, whether the loop ended on a response without tool
    calls or because all K rounds asked for tools (the limit is not a
    failure); a run is aborted only by a failing model call or by an exception
    in the tool-execution phase. *)
Theorem executeLoop_step_limit
    (llm : list LlmCall -> GenerateOptions -> Outcome GenerateResponse)
    (options : LoopOptions) (w : World) :
  exists new,
    llm_calls (executeLoop llm options w).2 = llm_calls w ++ new
    /\ List.length new <= lo_maxSteps options
    /\ (forall call, call ∈ new -> answered_plainly call ->
          last new = Some call
          /\ exists result, (executeLoop llm options w).1 = Returned result
                            /\ output result = content_of call)
    /\ match (executeLoop llm options w).1 with
       | Returned result =>
           output result = final_content new
           /\ ((exists call, last new = Some call /\ answered_plainly call)
               \/ (Forall asked_tools new /\ List.length new = lo_maxSteps options))
       | Thrown e => aborted_by (lo_toolExecutors options) (lo_context options) new e
       end.
Proof.
  rewrite executeLoop_unfold.
  set (vars0 := initial_vars _).
  destruct (executeLoop_rounds_calls llm options (lo_maxSteps options) vars0 w)
    as (new & Hnew & _ & Hlen & Hend).
  exists new.
  destruct (executeLoop_rounds llm options (lo_maxSteps options) vars0 w) as [[vars|e] w'];
    cbn in *.
  - split; [done|]. split; [done|].
    destruct Hend as [(HK & -> & ->)|(init & call & r & -> & Hinit & Hr & Hout & Hhow)].
    + split; [intros call Hin; by apply elem_of_nil in Hin|].
      split; [done|]. right. split; [constructor|]. by rewrite HK.
    + split.
      * intros c Hin Hplain. apply elem_of_app in Hin as [Hin|Hin].
        { rewrite Forall_forall in Hinit. destruct (asked_not_plain c); auto. }
        apply list_elem_of_singleton in Hin as ->.
        split; [apply last_snoc|]. eexists; split; [done|].
        cbn. unfold content_of. by rewrite Hr.
      * rewrite final_content_snoc. unfold content_of. rewrite Hr. split; [done|].
        destruct Hhow as [Hp|[Ht Hl]].
        { left. exists call. split; [apply last_snoc|]. by exists r. }
        right. split; [|done]. apply Forall_app. split; [done|].
        constructor; [by exists r|constructor].
  - split; [done|]. split; [done|]. split; [|done].
    destruct Hend as (init & call & -> & Hinit & Hwhy).
    intros c Hin Hplain. exfalso. apply elem_of_app in Hin as [Hin|Hin].
    { rewrite Forall_forall in Hinit. destruct (asked_not_plain c); auto. }
    apply list_elem_of_singleton in Hin as ->.
    destruct Hplain as (r & Hr & Hp).
    destruct Hwhy as [Hthrown|(r' & w1 & Hr' & Ht & _)]; congruence.
Qed.

(** ** C6: [single_step] *)

Section SingleStep.

Variable llm : list LlmCall -> GenerateOptions -> Outcome GenerateResponse.
Variable options : SingleStepOptions.

Local Abbreviation tools_phase r :=
  (executeToolCalls (requested r) (ss_toolExecutors options) (ss_context options)).

(** [executeSingleStep], spelled out on the world. *)
Lemma executeSingleStep_unfold w :
  executeSingleStep llm options w =
  let messages := default [] (heap w !! ss_messages options) in
  let first := first_request options messages in
  let w1 := logged w first (llm (llm_calls w) first) in
  let llm_step r :=
    {| step_type := llm_call;
       step_data := SingleStepCall (last messages) (gr_content r) (gr_toolCalls r) |} in
  match llm (llm_calls w) first with
  | Thrown e => (Thrown e, w1)
  | Returned r =>
      if requests_tools r then
        match tools_phase r w1 with
        | (Thrown e, w2) => (Thrown e, w2)
        | (Returned toolResults, w2) =>
            let second := second_request options messages r toolResults in
            let w3 := logged w2 second (llm (llm_calls w2) second) in
            match llm (llm_calls w2) second with
            | Thrown e => (Thrown e, w3)
            | Returned r2 =>
                (Returned
                   {| output := gr_content r2;
                      toolCallsExecuted := List.length (requested r);
                      steps := [llm_step r;
                                {| step_type := tool_call;
                                   step_data := ToolResults toolResults |};
                                {| step_type := llm_call;
                                   step_data := ToolResultsCall (gr_content r2) |}];
                      usage := gr_usage r |}, w3)
            end
        end
      else
        (Returned {| output := gr_content r;
                     toolCallsExecuted := 0;
                     steps := [llm_step r];
                     usage := gr_usage r |}, w1)
  end.
Proof.
  unfold executeSingleStep, bind, read, generate, first_request. cbn.
  destruct (llm (llm_calls w) _) as [r|e]; cbn; [|done].
  destruct (requests_tools r); cbn; [|done].
  pose proof (executeToolCalls_frame (ss_toolExecutors options) (ss_context options)
                (requested r)) as Hframe.
  match goal with |- context [tools_phase r ?w1] => specialize (Hframe w1) end.
  destruct Hframe as [Hheap _].
  destruct (tools_phase r _) as [[toolResults|e] w2]; cbn in *; [|done].
  rewrite Hheap. unfold second_request.
  by destruct (llm (llm_calls w2) _) as [r2|e].
Qed.

(** [executeSingleStep] returns when the model responds and the tool phase
    completes. *)
Lemma executeSingleStep_returns w :
  responds llm ->
  Forall throws_values (ss_toolExecutors options) ->
  exists result w', executeSingleStep llm options w = (Returned result, w').
Proof.
  intros Hllm Hexecutors. rewrite executeSingleStep_unfold. cbv zeta.
  destruct (Hllm (llm_calls w)
              (first_request options (default [] (heap w !! ss_messages options))))
    as (r & -> & Hparse).
  destruct (requests_tools r); [|by eexists _, _].
  destruct (executeToolCalls_completes (ss_toolExecutors options) (ss_context options)
              (requested r)
              (logged w (first_request options
                           (default [] (heap w !! ss_messages options))) (Returned r))
              Hparse Hexecutors) as (toolResults & w2 & ->).
  destruct (Hllm (llm_calls w2)
              (second_request options (default [] (heap w !! ss_messages options))
                              r toolResults)) as (r2 & -> & _).
  by eexists _, _.
Qed.

End SingleStep.

(** What holds of a [single_step] run whose tool-execution phase completes.
    Let the first model call, made with the tools offered, return a response.  If the response requests no tool call, the run
    returns after that single call, with the response's content as output and
    [toolCallsExecuted = 0].  If it requests N >= 1 tool calls, then once the
    tool-execution phase has completed every request has received exactly one
    result, in order; exactly two model calls are made, the second with no
    tools offered and with the assistant message and all tool results appended
    to the conversation; and when the second call returns, the run returns its
    content as output with [toolCallsExecuted = N].  The tool-execution phase
    does complete when the arguments of every request are a JSON text and the
    executors fail with errors. *)
Theorem executeSingleStep_calls
    (llm : list LlmCall -> GenerateOptions -> Outcome GenerateResponse)
    (options : SingleStepOptions) (w : World) (r : GenerateResponse) :
  let messages := default [] (heap w !! ss_messages options) in
  let first := first_request options messages in
  let w1 := logged w first (Returned r) in
  let run := executeSingleStep llm options w in
  llm (llm_calls w) first = Returned r ->
  (requests_tools r = false ->
     llm_calls run.2 = llm_calls w ++ [call_of first (Returned r)]
     /\ exists result, run.1 = Returned result
                       /\ output result = gr_content r
                       /\ toolCallsExecuted result = 0)
  /\ (requests_tools r = true ->
      forall toolResults w2,
        executeToolCalls (requested r) (ss_toolExecutors options) (ss_context options) w1
        = (Returned toolResults, w2) ->
        let second := second_request options messages r toolResults in
        let answer := llm (llm_calls w2) second in
        1 <= List.length (requested r)
        /\ List.map toolCallId toolResults = List.map tc_id (requested r)
        /\ llm_calls run.2
           = llm_calls w ++ [call_of first (Returned r); call_of second answer]
        /\ go_tools second = None
        /\ forall r2, answer = Returned r2 ->
             exists result, run.1 = Returned result
                            /\ output result = gr_content r2
                            /\ toolCallsExecuted result = List.length (requested r))
  /\ (Forall parses (requested r) ->
      Forall throws_values (ss_toolExecutors options) ->
      exists toolResults w2,
        executeToolCalls (requested r) (ss_toolExecutors options) (ss_context options) w1
        = (Returned toolResults, w2)).
Proof.
  intros messages first w1 run Hfirst. subst run.
  rewrite executeSingleStep_unfold. cbv zeta.
  fold messages. fold first. rewrite Hfirst. fold w1.
  split; [|split; [|by apply executeToolCalls_completes]].
  - intros ->. cbn. split; [done|]. eexists. done.
  - intros Htools toolResults w2 Hphase. rewrite Htools, Hphase.
    set (second := second_request options messages r toolResults).
    set (answer := llm (llm_calls w2) second).
    pose proof (executeToolCalls_frame (ss_toolExecutors options) (ss_context options)
                  (requested r) w1) as [_ Hcalls].
    rewrite Hphase in Hcalls. cbn in Hcalls.
    split.
    { unfold requests_tools, requested in *. destruct (gr_toolCalls r) as [[|]|]; cbn; try done. lia. }
    split; [by apply executeToolCalls_one_each in Hphase as [? _]|].
    split.
    { destruct answer as [r2|e] eqn:Hanswer; cbn; rewrite Hcalls; cbn;
        by rewrite <- app_assoc. }
    split; [done|].
    intros r2 ->. eexists. done.
Qed.

(** ** C8 and C9: [plan_and_execute] *)

Lemma loop_step_not_planning step : loop_step step -> ~ planning_step step.
Proof.
  unfold loop_step. intros Hloop [plan Hplan]. by rewrite Hplan in Hloop.
Qed.

(** The trace of a loop holds records of its own rounds only, one [llm_call]
    record per model call. *)
Lemma executeLoop_trace llm options w result w' :
  executeLoop llm options w = (Returned result, w') ->
  Forall loop_step (steps result)
  /\ exists new,
       llm_calls w' = llm_calls w ++ new
       /\ List.length (llm_call_records (steps result)) = List.length new.
Proof.
  rewrite executeLoop_unfold.
  destruct (executeLoop_rounds llm options _ _ w) as [[vars|e] w1] eqn:Hrounds; [|done].
  intros [= <- <-].
  apply executeLoop_rounds_totals in Hrounds
    as (new & added & Hnew & _ & _ & Hsteps & Hadded & Hrecords).
  cbn in *. rewrite Hsteps. split; [done|]. by exists new.
Qed.

(** The usage that a loop reports is the sum over its model calls. *)
Lemma executeLoop_usage_additive llm options w result w' :
  executeLoop llm options w = (Returned result, w') ->
  exists new,
    llm_calls w' = llm_calls w ++ new
    /\ inputTokens (usage result) = tokens_in new
    /\ outputTokens (usage result) = tokens_out new
    /\ totalTokens (usage result) = (tokens_in new + tokens_out new)%Z.
Proof.
  rewrite executeLoop_unfold.
  destruct (executeLoop_rounds llm options _ _ w) as [[vars|e] w1] eqn:Hrounds; [|done].
  intros [= <- <-].
  apply executeLoop_rounds_totals in Hrounds as (new & added & Hnew & Hin & Hout & _).
  exists new. cbn in *. rewrite Hin, Hout. repeat split; auto.
Qed.

(** [executePlanAndExecute], spelled out on the world: the planning call, the
    new conversation, then the loop. *)
Lemma executePlanAndExecute_unfold llm options w :
  let messages := default [] (heap w !! lo_messages options) in
  let planning := planning_request options messages in
  let answer := llm (llm_calls w) planning in
  let w1 := logged w planning answer in
  match answer with
  | Thrown e => executePlanAndExecute llm options w = (Thrown e, w1)
  | Returned plan =>
      exists extended w2,
        llm_calls w2 = llm_calls w ++ [call_of planning answer]
        /\ heap w2 !! extended = Some (messages ++ [plan_message (gr_content plan)])
        /\ (forall l, is_Some (heap w !! l) -> heap w2 !! l = heap w !! l)
        /\ executePlanAndExecute llm options w
           = executeLoop llm (with_messages options extended) w2
  end.
Proof.
  cbv zeta.
  unfold executePlanAndExecute, bind, read, generate, alloc, ret.
  cbv beta iota zeta.
  fold (planning_request options (default [] (heap w !! lo_messages options))).
  destruct (llm (llm_calls w) _) as [plan|e] eqn:Hanswer; [|done].
  set (planning := planning_request options _).
  set (w1 := logged w planning (Returned plan)).
  exists (fresh (dom (heap w1))).
  exists {| heap := <[fresh (dom (heap w1)) :=
                       default [] (heap w1 !! lo_messages options)
                       ++ [plan_message (gr_content plan)]]> (heap w1);
            llm_calls := llm_calls w1;
            tool_invocations := tool_invocations w1 |}.
  split; [done|]. split; [cbn [heap]; by rewrite lookup_insert_eq|].
  split; [|done].
  intros l Hl. cbn [heap]. apply lookup_insert_ne.
  intros <-. apply elem_of_dom in Hl. by apply is_fresh in Hl.
Qed.

(** What [executePlanAndExecute] reports is the usage of the loop: the planning
    call is not counted. *)
Lemma executePlanAndExecute_usage llm options w result w' :
  executePlanAndExecute llm options w = (Returned result, w') ->
  exists planning_call new,
    llm_calls w' = llm_calls w ++ planning_call :: new
    /\ inputTokens (usage result) = tokens_in new
    /\ outputTokens (usage result) = tokens_out new
    /\ totalTokens (usage result) = (tokens_in new + tokens_out new)%Z.
Proof.
  intros Hrun.
  pose proof (executePlanAndExecute_unfold llm options w) as Hplan. cbv zeta in Hplan.
  destruct (llm (llm_calls w) _) as [plan|e] eqn:Hanswer.
  2:{ rewrite Hplan in Hrun. done. }
  destruct Hplan as (extended & w2 & Hcalls & _ & _ & Heq).
  rewrite Heq in Hrun.
  apply executeLoop_usage_additive in Hrun as (new & Hnew & Hin & Hout & Htotal).
  eexists _, new. rewrite Hnew, Hcalls, <- app_assoc. done.
Qed.

(** C9.  The trace returned by a [plan_and_execute] run is the trace of the
    loop that follows the planning call.  Every record in it is a round's model
    call or a round's tool results, none is the record of the planning phase,
    and it holds one [llm_call] record for each model call of the loop: the
    planning call, the first call of the run, has none. *)
Theorem executePlanAndExecute_trace_omits_planning
    (llm : list LlmCall -> GenerateOptions -> Outcome GenerateResponse)
    (options : LoopOptions) (w : World) (result : AgentExecutionResult) (w' : World) :
  executePlanAndExecute llm options w = (Returned result, w') ->
  let planning :=
    planning_request options (default [] (heap w !! lo_messages options)) in
  (exists plan extended w2 new,
     llm (llm_calls w) planning = Returned plan
     /\ executeLoop llm (with_messages options extended) w2 = (Returned result, w')
     /\ llm_calls w' = llm_calls w ++ call_of planning (Returned plan) :: new
     /\ List.length (llm_call_records (steps result)) = List.length new)
  /\ Forall loop_step (steps result)
  /\ ~ Exists planning_step (steps result).
Proof.
  intros Hrun. cbv zeta.
  pose proof (executePlanAndExecute_unfold llm options w) as Hplan.
  cbv zeta in Hplan.
  destruct (llm (llm_calls w) _) as [plan|e] eqn:Hanswer.
  2:{ rewrite Hplan in Hrun. done. }
  destruct Hplan as (extended & w2 & Hcalls & _ & _ & Heq).
  rewrite Heq in Hrun.
  destruct (executeLoop_trace _ _ _ _ _ Hrun) as (Htrace & new & Hnew & Hrecords).
  split.
  { exists plan, extended, w2, new. split; [done|]. split; [done|].
    split; [|done]. by rewrite Hnew, Hcalls, <- app_assoc. }
  split; [done|].
  rewrite Exists_exists. intros (step & Hin & Hplanning).
  rewrite Forall_forall in Htrace.
  by apply (loop_step_not_planning step (Htrace step Hin)).
Qed.

(** ** The requests of a run *)

Section Requests.

Variable llm : list LlmCall -> GenerateOptions -> Outcome GenerateResponse.

(** Every request of a loop satisfies what the loop variables maintain. *)
Lemma executeLoop_rounds_requests options
    (P : GenerateOptions -> Prop) (I : LoopVars -> Prop) :
  (forall vars, I vars -> P (round_request options vars)) ->
  (forall vars r toolResults, I vars -> I (vars_after_tools vars r toolResults)) ->
  forall remaining vars w, I vars ->
    exists new,
      llm_calls (executeLoop_rounds llm options remaining vars w).2 = llm_calls w ++ new
      /\ Forall (fun call => P (request call)) new
      /\ (1 <= remaining -> exists call rest,
            new = call :: rest /\ request call = round_request options vars).
Proof.
  intros HP HI. induction remaining as [|remaining IH]; intros vars w Hvars.
  { exists []. cbn. rewrite app_nil_r. split; [done|]. split; [constructor|]. lia. }
  rewrite executeLoop_rounds_S. cbv zeta.
  set (req := round_request options vars).
  set (answer := llm (llm_calls w) req).
  assert (Hone : forall w',
            llm_calls w' = llm_calls (logged w req answer) ->
            exists new, llm_calls w' = llm_calls w ++ new
              /\ Forall (fun call => P (request call)) new
              /\ (1 <= S remaining -> exists call rest,
                    new = call :: rest /\ request call = req)).
  { intros w' ->. exists [call_of req answer]. split; [done|].
    split; [constructor; [by apply HP|constructor]|].
    intros _. by exists (call_of req answer), []. }
  destruct answer as [r|e] eqn:Hanswer; [|by apply Hone].
  destruct (requests_tools r); [|by apply Hone].
  pose proof (executeToolCalls_frame (lo_toolExecutors options) (lo_context options)
                (requested r) (logged w req (Returned r))) as [_ Hcalls].
  destruct (executeToolCalls _ _ _ (logged w req (Returned r)))
    as [[toolResults|e] w2]; cbn [snd] in Hcalls; [|by apply Hone].
  destruct (IH (vars_after_tools vars r toolResults) w2) as (new & Hnew & Hall & _);
    [by apply HI|].
  exists (call_of req (Returned r) :: new). rewrite Hnew, Hcalls. cbn.
  rewrite <- app_assoc. split; [done|].
  split; [constructor; [by apply HP|done]|].
  intros _. by exists (call_of req (Returned r)), new.
Qed.

(** The model calls of [executeLoop]: all are made with the alias and the
    system prompt of the options and with the tools offered, on a conversation
    that extends the initial one; and there is a first one unless
    [maxSteps = 0]. *)
Lemma executeLoop_requests options w :
  let messages := default [] (heap w !! lo_messages options) in
  exists new,
    llm_calls (executeLoop llm options w).2 = llm_calls w ++ new
    /\ heap (executeLoop llm options w).2 = heap w
    /\ Forall (fun call =>
                 go_modelAlias (request call) = lo_modelAlias options
                 /\ go_systemPrompt (request call) = Some (lo_systemPrompt options)
                 /\ messages `prefix_of` go_messages (request call)) new
    /\ (1 <= lo_maxSteps options -> exists call rest,
          new = call :: rest /\ go_messages (request call) = messages).
Proof.
  intros messages. rewrite executeLoop_unfold. fold messages.
  destruct (executeLoop_rounds_requests options
              (fun req => go_modelAlias req = lo_modelAlias options
                          /\ go_systemPrompt req = Some (lo_systemPrompt options)
                          /\ messages `prefix_of` go_messages req)
              (fun vars => messages `prefix_of` lv_currentMessages vars))
    with (remaining := lo_maxSteps options) (vars := initial_vars messages) (w := w)
    as (new & Hnew & Hall & Hfirst).
  { intros vars Hvars. done. }
  { intros vars r toolResults Hvars. cbn. by apply prefix_app_r. }
  { done. }
  destruct (executeLoop_rounds_calls llm options (lo_maxSteps options)
              (initial_vars messages) w) as (_ & _ & Hheap & _).
  exists new.
  destruct (executeLoop_rounds llm options _ _ w) as [[vars|e] w']; cbn in *;
    (split; [done|]; split; [done|]; split; [done|]);
    intros HK; destruct (Hfirst HK) as (call & rest & -> & Hreq);
    exists call, rest; by rewrite Hreq.
Qed.

(** The model calls of [executeSingleStep]. *)
Lemma executeSingleStep_requests options w :
  let messages := default [] (heap w !! ss_messages options) in
  exists new,
    llm_calls (executeSingleStep llm options w).2 = llm_calls w ++ new
    /\ heap (executeSingleStep llm options w).2 = heap w
    /\ Forall (fun call =>
                 go_modelAlias (request call) = ss_modelAlias options
                 /\ go_systemPrompt (request call) = Some (ss_systemPrompt options)
                 /\ messages `prefix_of` go_messages (request call)) new
    /\ exists call rest, new = call :: rest /\ go_messages (request call) = messages.
Proof.
  intros messages. rewrite executeSingleStep_unfold. cbv zeta. fold messages.
  set (first := first_request options messages).
  assert (Hfirst : go_modelAlias first = ss_modelAlias options
                   /\ go_systemPrompt first = Some (ss_systemPrompt options)
                   /\ messages `prefix_of` go_messages first) by done.
  destruct (llm (llm_calls w) first) as [r|e] eqn:Hanswer.
  2:{ exists [call_of first (Thrown e)]. cbn. split; [done|]. split; [done|].
      split; [constructor; [exact Hfirst|constructor]|]. by eexists _, _. }
  destruct (requests_tools r).
  2:{ exists [call_of first (Returned r)]. cbn. split; [done|]. split; [done|].
      split; [constructor; [exact Hfirst|constructor]|]. by eexists _, _. }
  pose proof (executeToolCalls_frame (ss_toolExecutors options) (ss_context options)
                (requested r) (logged w first (Returned r))) as [Hheap Hcalls].
  destruct (executeToolCalls _ _ _ (logged w first (Returned r)))
    as [[toolResults|e] w2]; cbn [snd] in Hheap, Hcalls.
  2:{ exists [call_of first (Returned r)]. cbn. rewrite Hheap, Hcalls.
      split; [done|]. split; [done|].
      split; [constructor; [exact Hfirst|constructor]|]. by eexists _, _. }
  set (second := second_request options messages r toolResults).
  assert (Hsecond : go_modelAlias second = ss_modelAlias options
                    /\ go_systemPrompt second = Some (ss_systemPrompt options)
                    /\ messages `prefix_of` go_messages second).
  { split; [done|]. split; [done|]. by apply prefix_app_r. }
  exists [call_of first (Returned r); call_of second (llm (llm_calls w2) second)].
  destruct (llm (llm_calls w2) second) as [r2|e]; cbn; rewrite Hheap, Hcalls; cbn;
    rewrite <- app_assoc; cbn;
    (split; [done|]; split; [done|];
     split; [constructor; [exact Hfirst|constructor; [exact Hsecond|constructor]]|];
     by eexists _, _).
Qed.

End Requests.

(** ** [execute] *)

Lemma append_empty_r (s : string) : s +:+ EmptyString = s.
Proof.
  induction s as [|c s IH]; [done|].
  change (String c (s +:+ EmptyString) = String c s). by f_equal.
Qed.

Lemma append_assoc (a b c : string) : (a +:+ b) +:+ c = a +:+ (b +:+ c).
Proof.
  induction a as [|x a IH]; [done|].
  change (String x ((a +:+ b) +:+ c) = String x (a +:+ (b +:+ c))). by f_equal.
Qed.

Lemma maxSteps_or_default_positive maxSteps : 1 <= maxSteps_or_default maxSteps.
Proof. destruct maxSteps as [[|n]|]; cbn; lia. Qed.

Section Execute.

Variable llm : list LlmCall -> GenerateOptions -> Outcome GenerateResponse.
Variable db : Database.

(** The model calls of [executePlanAndExecute]: the planning call, then the
    calls of the loop. *)
Lemma executePlanAndExecute_requests options w :
  let messages := default [] (heap w !! lo_messages options) in
  exists new,
    llm_calls (executePlanAndExecute llm options w).2 = llm_calls w ++ new
    /\ (forall l, is_Some (heap w !! l) ->
          heap (executePlanAndExecute llm options w).2 !! l = heap w !! l)
    /\ Forall (fun call =>
                 go_modelAlias (request call) = lo_modelAlias options
                 /\ (exists suffix, go_systemPrompt (request call)
                                    = Some (lo_systemPrompt options +:+ suffix))
                 /\ messages `prefix_of` go_messages (request call)) new
    /\ exists call rest, new = call :: rest /\ go_messages (request call) = messages.
Proof.
  intros messages.
  pose proof (executePlanAndExecute_unfold llm options w) as Hplan.
  cbv zeta in Hplan. fold messages in Hplan.
  set (planning := planning_request options messages) in *.
  assert (Hplanning : go_modelAlias planning = lo_modelAlias options
            /\ (exists suffix, go_systemPrompt planning
                               = Some (lo_systemPrompt options +:+ suffix))
            /\ messages `prefix_of` go_messages planning).
  { split; [done|]. split; [by exists planning_suffix|done]. }
  destruct (llm (llm_calls w) planning) as [plan|e] eqn:Hanswer.
  2:{ rewrite Hplan. exists [call_of planning (Thrown e)]. cbn.
      split; [done|]. split; [done|].
      split; [constructor; [exact Hplanning|constructor]|]. by eexists _, _. }
  destruct Hplan as (extended & w2 & Hcalls & Hconv & Hkept & ->).
  destruct (executeLoop_requests llm (with_messages options extended) w2)
    as (new & Hnew & Hheap & Hall & _).
  cbn [lo_messages with_messages lo_modelAlias lo_systemPrompt] in Hall.
  rewrite Hconv in Hall. cbn [default] in Hall.
  exists (call_of planning (Returned plan) :: new).
  rewrite Hnew, Hcalls, Hheap, <- app_assoc.
  split; [done|]. split; [done|].
  split; [|by eexists _, _].
  constructor; [exact Hplanning|].
  eapply Forall_impl; [exact Hall|].
  intros call (Halias & Hprompt & Hprefix).
  split; [done|]. split.
  - exists EmptyString. by rewrite append_empty_r.
  - by apply prefix_app_l in Hprefix.
Qed.

(** The arrays and the model calls of the strategy that [execute] selects:
    every array that existed is left as it was; at least one model call is
    made; every call uses the resolved model alias, a system prompt that
    starts with the enhanced prompt, and a conversation that extends the
    prepared one. *)
Lemma strategy_requests found options messages w :
  let conversation := default [] (heap w !! messages) in
  exists new,
    llm_calls (strategy llm db found options messages w).2 = llm_calls w ++ new
    /\ (forall l, is_Some (heap w !! l) ->
          heap (strategy llm db found options messages w).2 !! l = heap w !! l)
    /\ Forall (fun call =>
                 go_modelAlias (request call) = resolve_model_alias found
                 /\ (exists suffix, go_systemPrompt (request call)
                                    = Some (enhanced_prompt db found options +:+ suffix))
                 /\ conversation `prefix_of` go_messages (request call)) new
    /\ exists call rest, new = call :: rest /\ go_messages (request call) = conversation.
Proof.
  intros conversation. unfold strategy.
  destruct (String.eqb (a_planningMode (agent found)) "single_step").
  { destruct (executeSingleStep_requests llm
                (single_step_options db found options messages) w)
      as (new & Hnew & Hheap & Hall & Hfirst).
    exists new. unfold bind.
    destruct (executeSingleStep llm _ w) as [[result|e] w']; cbn in *;
      (split; [done|]; split; [by intros; rewrite Hheap|]; split; [|done]);
      (eapply Forall_impl; [exact Hall|]);
      intros call (Halias & Hprompt & Hprefix);
      (split; [done|]; split; [|done]);
      exists EmptyString; by rewrite append_empty_r. }
  destruct (String.eqb (a_planningMode (agent found)) "loop_with_limits").
  { destruct (executeLoop_requests llm (loop_options db found options messages) w)
      as (new & Hnew & Hheap & Hall & Hfirst).
    exists new.
    split; [done|]. split; [by intros; rewrite Hheap|].
    split; [|apply Hfirst, maxSteps_or_default_positive].
    eapply Forall_impl; [exact Hall|].
    intros call (Halias & Hprompt & Hprefix).
    split; [done|]. split; [|done].
    exists EmptyString. by rewrite append_empty_r. }
  apply (executePlanAndExecute_requests (loop_options db found options messages) w).
Qed.

(** [execute] when the agent exists: prepare the conversation, then run the
    strategy. *)
Lemma execute_found options found w :
  findUnique_agent db (agentId options) = Some found ->
  execute llm db options w =
  (messages <- prepare options ;; strategy llm db found options messages) w.
Proof.
  intros Hfound. unfold execute, prepare, strategy. rewrite Hfound.
  unfold bind, ret, push, alloc.
  destruct (previousMessages options) as [array|]; reflexivity.
Qed.

Lemma execute_not_found options w :
  findUnique_agent db (agentId options) = None ->
  execute llm db options w = (Thrown AgentNotFound, w).
Proof. intros Hmissing. unfold execute. by rewrite Hmissing. Qed.

Lemma prepare_caller_array options array w :
  previousMessages options = Some array ->
  prepare options w = (Returned array, pushed w array (user_message (input options))).
Proof. intros Hcaller. unfold prepare. by rewrite Hcaller. Qed.

(** [prepare] always returns a conversation that ends with the user input, and
    calls no model. *)
Lemma prepare_returns options w :
  exists messages w0 earlier,
    prepare options w = (Returned messages, w0)
    /\ llm_calls w0 = llm_calls w
    /\ heap w0 !! messages = Some (earlier ++ [user_message (input options)]).
Proof.
  unfold prepare, bind, ret, push, alloc.
  destruct (previousMessages options) as [array|]; cbn.
  - eexists _, _, _. split; [done|]. split; [done|]. cbn. by rewrite lookup_insert_eq.
  - eexists _, _, _. split; [done|]. split; [done|]. cbn. by rewrite lookup_insert_eq.
Qed.

(** The step limit on a whole run: [execute] in [loop_with_limits] mode makes
    at most [agent.maxSteps || 10] model calls. *)
Lemma execute_loop_with_limits_bound options found w :
  findUnique_agent db (agentId options) = Some found ->
  a_planningMode (agent found) = "loop_with_limits" ->
  exists new,
    llm_calls (execute llm db options w).2 = llm_calls w ++ new
    /\ List.length new <= maxSteps_or_default (a_maxSteps (agent found)).
Proof.
  intros Hfound Hmode. rewrite (execute_found options found w Hfound). unfold bind.
  destruct (prepare_returns options w) as (messages & w0 & earlier & -> & Hcalls & _).
  unfold strategy. rewrite Hmode. cbn [String.eqb Ascii.eqb Bool.eqb].
  rewrite executeLoop_unfold.
  destruct (executeLoop_rounds_calls llm (loop_options db found options messages)
              (maxSteps_or_default (a_maxSteps (agent found)))
              (initial_vars (default [] (heap w0 !! messages))) w0)
    as (new & Hnew & _ & Hlen & _).
  exists new. cbn [lo_maxSteps loop_options lo_messages] in *.
  destruct (executeLoop_rounds _ _ _ _ w0) as [[vars|e] w']; cbn in *;
    by rewrite Hnew, Hcalls.
Qed.

End Execute.

(** ** C3: configuration *)

Lemma buildEnhancedSystemPrompt_extends basePrompt contexts :
  exists suffix, buildEnhancedSystemPrompt basePrompt contexts = basePrompt +:+ suffix.
Proof.
  destruct contexts as [|snippet contexts].
  - exists EmptyString. cbn. by rewrite append_empty_r.
  - eexists. cbn [buildEnhancedSystemPrompt]. reflexivity.
Qed.

(** C3, as the code has it.  When the agent is not found, [execute] throws
    ['Agent not found'] with no model call made and nothing else done.  When the
    agent is found, [execute] does not stop for a missing active system prompt
    or a missing model alias: it goes on to call the model, with
    ['claude-3-5-sonnet'] in place of a missing alias and a system prompt that
    starts with ['You are a helpful AI assistant for SecOps.'] in place of a
    missing active prompt. *)
Theorem execute_configuration
    (llm : list LlmCall -> GenerateOptions -> Outcome GenerateResponse)
    (db : Database) (options : AgentExecutionOptions) (w : World) :
  match findUnique_agent db (agentId options) with
  | None => execute llm db options w = (Thrown AgentNotFound, w)
  | Some found =>
      exists call rest suffix,
        llm_calls (execute llm db options w).2 = llm_calls w ++ call :: rest
        /\ go_modelAlias (request call)
           = Js.or_else (a_defaultModelAlias (agent found)) "claude-3-5-sonnet"
        /\ go_systemPrompt (request call)
           = Some (Js.or_else (sp_prompt <$> head (systemPrompts found))
                              "You are a helpful AI assistant for SecOps."
                   +:+ suffix)
  end.
Proof.
  destruct (findUnique_agent db (agentId options)) as [found|] eqn:Hfound;
    [|by apply execute_not_found].
  rewrite (execute_found llm db options found w Hfound). unfold bind.
  destruct (prepare_returns options w) as (messages & w0 & earlier & -> & Hcalls & _).
  destruct (strategy_requests llm db found options messages w0)
    as (new & Hnew & _ & Hall & call & rest & -> & _).
  apply Forall_cons in Hall as [(Halias & [suffix Hprompt] & _) _].
  destruct (buildEnhancedSystemPrompt_extends (resolve_system_prompt found)
              (retrieveContext db (agentId options) (organizationId options)
                               (input options))) as [context Hcontext].
  exists call, rest, (context +:+ suffix).
  rewrite Hnew, Hcalls. split; [done|]. split; [done|].
  rewrite Hprompt. unfold enhanced_prompt. rewrite Hcontext.
  by rewrite append_assoc.
Qed.

(** ** C10: the caller's array *)

Lemma pushed_lookup w array earlier m :
  heap w !! array = Some earlier ->
  heap (pushed w array m) !! array = Some (earlier ++ [m]).
Proof. intros Hearlier. cbn. by rewrite lookup_insert_eq, Hearlier. Qed.

(** C10, as the code has it.  When [execute] is given the caller's array of
    previous messages and the agent is found, the user message is pushed onto
    that very array before any model call: after the run, however it ends, the
    array holds its earlier messages followed by the user message, and the
    conversation of every model call of the run starts with exactly these. *)
Theorem execute_appends_to_previousMessages
    (llm : list LlmCall -> GenerateOptions -> Outcome GenerateResponse)
    (db : Database) (options : AgentExecutionOptions) (w : World)
    (array : loc) (earlier : list Message) (found : AgentWithRelations) :
  previousMessages options = Some array ->
  heap w !! array = Some earlier ->
  findUnique_agent db (agentId options) = Some found ->
  let run := execute llm db options w in
  let grown := earlier ++ [user_message (input options)] in
  heap run.2 !! array = Some grown
  /\ exists call rest,
       llm_calls run.2 = llm_calls w ++ call :: rest
       /\ go_messages (request call) = grown
       /\ Forall (fun made => grown `prefix_of` go_messages (request made)) (call :: rest).
Proof.
  intros Hcaller Hearlier Hfound. cbv zeta.
  rewrite (execute_found llm db options found w Hfound). unfold bind.
  rewrite (prepare_caller_array options array w Hcaller).
  set (w0 := pushed w array (user_message (input options))).
  pose proof (pushed_lookup w array earlier (user_message (input options)) Hearlier)
    as Hgrown. fold w0 in Hgrown.
  destruct (strategy_requests llm db found options array w0)
    as (new & Hnew & Hheap & Hall & call & rest & -> & Hfirst).
  rewrite Hgrown in Hall, Hfirst. cbn [default] in Hall, Hfirst.
  split.
  - rewrite Hheap; [done|]. by rewrite Hgrown.
  - exists call, rest. rewrite Hnew. split; [done|]. split; [done|].
    eapply Forall_impl; [exact Hall|]. by intros made (_ & _ & Hprefix).
Qed.

(** ** C4: context assembly *)

Lemma substring_0_length n : forall s, String.length (substring_0 n s) <= n.
Proof.
  unfold substring_0. induction n as [|n IH]; intros [|c s]; cbn; try lia.
  specialize (IH s). lia.
Qed.

Lemma substring_0_prefix n : forall s, exists rest, s = substring_0 n s +:+ rest.
Proof.
  unfold substring_0. induction n as [|n IH]; intros [|c s]; cbn.
  - by exists EmptyString.
  - by exists (String c s).
  - by exists EmptyString.
  - destruct (IH s) as [rest Hrest]. exists rest.
    change (String c s = String c (substring 0 n s +:+ rest)). by f_equal.
Qed.

(** At most five documents and five memories are retrieved, so there are at
    most ten snippets. *)
Lemma retrieveContext_bounded db agentId organizationId query :
  List.length (retrieveContext db agentId organizationId query) <= 10.
Proof.
  unfold retrieveContext. rewrite length_app, length_map.
  assert (Hdocs : forall docs : list ContextDocument,
            List.length (List.concat (List.map document_snippet docs))
            <= List.length docs).
  { induction docs as [|doc docs IH]; cbn; [lia|].
    rewrite length_app. unfold document_snippet at 1.
    destruct (doc_content doc) as [[|c text]|]; cbn; lia. }
  specialize (Hdocs (findMany_contextDocument db agentId organizationId)).
  assert (List.length (findMany_contextDocument db agentId organizationId) <= 5)
    by (unfold findMany_contextDocument; rewrite length_take; lia).
  assert (List.length (findMany_agentMemory db agentId) <= 5)
    by (unfold findMany_agentMemory; rewrite length_take; lia).
  lia.
Qed.

(** Context assembly, as the code has it.  With no snippet retrieved the system prompt is
    used as it is.  Otherwise the section headed [## Relevant Context], holding
    the snippets separated by rules and closed by a rule and an instruction, is
    appended to it.  Every snippet is either a retrieved document with a
    non-empty content, labelled [[Document: <title>]] and followed by the first
    1000 characters of the content at most, or a retrieved memory, labelled
    [[Memory: <key>]] and followed by its value in full. *)
Theorem context_assembly
    (db : Database) (agentId organizationId query basePrompt : string) :
  let contexts := retrieveContext db agentId organizationId query in
  (contexts = [] -> buildEnhancedSystemPrompt basePrompt contexts = basePrompt)
  /\ (contexts <> [] ->
      buildEnhancedSystemPrompt basePrompt contexts
      = basePrompt +:+ context_header
        +:+ Js.join context_separator contexts +:+ context_footer)
  /\ Forall
       (fun snippet =>
          (exists doc text,
             doc ∈ findMany_contextDocument db agentId organizationId
             /\ doc_content doc = Some text /\ text <> EmptyString
             /\ snippet = "[Document: " +:+ doc_title doc +:+ "]" +:+ nl
                          +:+ substring_0 1000 text
             /\ String.length (substring_0 1000 text) <= 1000
             /\ exists rest, text = substring_0 1000 text +:+ rest)
          \/ (exists memory,
                memory ∈ findMany_agentMemory db agentId
                /\ snippet = "[Memory: " +:+ mem_key memory +:+ "]" +:+ nl
                             +:+ mem_value memory))
       contexts.
Proof.
  cbv zeta. split; [by intros ->|]. split.
  { destruct (retrieveContext _ _ _ _); [done|]. intros _. reflexivity. }
  unfold retrieveContext. apply Forall_app. split.
  - apply Forall_forall. intros snippet Hin.
    apply list_elem_of_In, List.in_concat in Hin as (snippets & Hdoc & Hin).
    apply List.in_map_iff in Hdoc as (doc & <- & Hdoc).
    apply list_elem_of_In in Hdoc. left.
    unfold document_snippet in Hin.
    destruct (doc_content doc) as [[|c text]|] eqn:Hcontent; try by destruct Hin.
    destruct Hin as [<-|[]].
    exists doc, (String c text).
    split; [done|].
    split; [done|]. split; [done|]. split; [done|].
    split; [apply substring_0_length|apply substring_0_prefix].
  - apply Forall_forall. intros snippet Hin.
    apply list_elem_of_In, List.in_map_iff in Hin as (memory & <- & Hmemory).
    apply list_elem_of_In in Hmemory. right. exists memory.
    split; done.
Qed.

(** ** Scenarios of the specification *)

(** [single_step], input ["ping"], a model that answers at once: one call,
    its content the output, no tool call executed. *)
Example single_step_answers_at_once :
  exists result w',
    execute Scenario.llm_answers (Scenario.db_with_mode "single_step")
            (Scenario.options_for "agent-1" []) Scenario.world0
    = (Returned result, w')
    /\ output result = "Done."
    /\ toolCallsExecuted result = 0
    /\ List.length (llm_calls w') = 1.
Proof. eexists _, _. split; [vm_compute; reflexivity|]. done. Qed.

(** [loop_with_limits] with [maxSteps = 2] and a model that asks for a tool on
    every call: the loop stops after round 2 and returns round 2's content. *)
Example loop_stops_at_limit :
  exists result w',
    execute Scenario.llm_always_asks (Scenario.db_with_mode "loop_with_limits")
            (Scenario.options_for "agent-1" [Scenario.lookup_ip_times_out])
            Scenario.world0
    = (Returned result, w')
    /\ output result = "Looking up the address."
    /\ toolCallsExecuted result = 2
    /\ List.length (llm_calls w') = 2.
Proof. eexists _, _. split; [vm_compute; reflexivity|]. done. Qed.

(** ** C1: usage accounting *)

(** What [executeSingleStep] reports is the usage of its first call. *)
Lemma executeSingleStep_usage llm options w result w' :
  executeSingleStep llm options w = (Returned result, w') ->
  exists r,
    llm (llm_calls w)
        (first_request options (default [] (heap w !! ss_messages options)))
    = Returned r
    /\ usage result = gr_usage r.
Proof.
  rewrite executeSingleStep_unfold. cbv zeta.
  destruct (llm (llm_calls w) _) as [r|e]; [|done].
  destruct (requests_tools r).
  - destruct (executeToolCalls _ _ _ _) as [[toolResults|e] w2]; [|done].
    destruct (llm (llm_calls w2) _) as [r2|e]; [|done].
    intros [= <- _]. by exists r.
  - intros [= <- _]. by exists r.
Qed.

(** C1 fails on the code.  In a [single_step] run whose first response asks
    for a tool, two model calls are made and return 10+5 and 20+7 tokens, 42 in
    all, and the result reports 15: the usage of the second call is left out.
    In a [plan_and_execute] run with a planning call of 10+5 tokens and one
    loop call of 20+7 tokens, the result reports 27: the usage of the planning
    call is left out. *)
Theorem usage_leaves_calls_out :
  (exists result w',
     execute Scenario.llm_lookup_then_answer (Scenario.db_with_mode "single_step")
             (Scenario.options_for "agent-1" [Scenario.lookup_ip_times_out])
             Scenario.world0
     = (Returned result, w')
     /\ List.length (llm_calls w') = 2
     /\ (tokens_in (llm_calls w') + tokens_out (llm_calls w') = 42)%Z
     /\ totalTokens (usage result) = 15%Z)
  /\ (exists result w',
        execute Scenario.llm_plan_then_answer (Scenario.db_with_mode "plan_and_execute")
                (Scenario.options_for "agent-1" [Scenario.lookup_ip_times_out])
                Scenario.world0
        = (Returned result, w')
        /\ List.length (llm_calls w') = 2
        /\ (tokens_in (llm_calls w') + tokens_out (llm_calls w') = 42)%Z
        /\ totalTokens (usage result) = 27%Z).
Proof.
  split; eexists _, _; (split; [vm_compute; reflexivity|]); done.
Qed.

(** ** C2: tool errors *)

(** An entry that carries an error carries no output, so the message built
    from it has no content. *)
Lemma error_result_has_no_content toolExecutors context toolCall w result w' :
  executeToolCall toolExecutors context toolCall w = (Returned result, w') ->
  is_Some (tr_error result) ->
  content (tool_message result) = None.
Proof.
  unfold executeToolCall, bind, JSON_parse.
  destruct (Js.parse (tc_arguments toolCall)) as [toolInput|]; cbn; [|done].
  destruct (List.find _ toolExecutors) as [executor|]; cbn.
  - destruct (te_execute executor toolInput context) as [out|reason]; cbn.
    + intros [= <- _] [? [=]].
    + destruct reason; cbn; intros [= <- _] || intros [=]; done.
  - by intros [= <- _].
Qed.

(** C2 fails on the code.  In a [loop_with_limits] run the model asks for
    [lookup_ip], whose executor throws [new Error('timeout')].  The run goes on
    to a second model call and returns, and the trace records the error
    ['timeout']; but the tool message sent to the second call has no content
    ([JSON.stringify] of the missing [output] is [undefined]), so the error
    text is not fed back to the model. *)
Theorem tool_error_is_not_fed_back :
  exists result w' first second,
    execute Scenario.llm_lookup_then_answer (Scenario.db_with_mode "loop_with_limits")
            (Scenario.options_for "agent-1" [Scenario.lookup_ip_times_out])
            Scenario.world0
    = (Returned result, w')
    /\ llm_calls w' = [first; second]
    /\ steps result !! 1
       = Some {| step_type := tool_call;
                 step_data :=
                   ToolResults
                     [{| toolCallId := "call_1";
                         toolName := "lookup_ip";
                         tr_input := Some (Js.Object [("ip", Js.Str "10.0.0.1")]);
                         tr_output := None;
                         tr_error := Some (Js.Str "timeout") |}] |}
    /\ last (go_messages (request second))
       = Some {| role := tool;
                 content := None;
                 tool_calls := None;
                 tool_call_id := Some "call_1" |}.
Proof.
  eexists _, _, _, _. split; [vm_compute; reflexivity|]. done.
Qed.

(** ** C6: a run that ends in the tool phase *)

(** C6 fails on the code.  In a [single_step] run whose first response asks
    for one tool call with its arguments cut short, [JSON.parse] throws in the
    tool-execution phase: the run ends in a [SyntaxError] after its first
    model call, the request has received no result and no executor has been
    invoked, and the second model call is never made.  An executor that
    throws [null] ends the run the same way, in a [TypeError]. *)
Theorem single_step_aborts_in_tool_phase :
  (exists first w',
     execute Scenario.llm_asks_truncated (Scenario.db_with_mode "single_step")
             (Scenario.options_for "agent-1" [Scenario.lookup_ip_times_out])
             Scenario.world0
     = (Thrown SyntaxError, w')
     /\ llm_calls w' = [first]
     /\ (exists r, response first = Returned r
                   /\ requested r = [Scenario.truncated_call])
     /\ tool_invocations w' = [])
  /\ (exists first w',
        execute Scenario.llm_always_asks (Scenario.db_with_mode "single_step")
                (Scenario.options_for "agent-1" [Cases.lookup_ip_throws_null])
                Scenario.world0
        = (Thrown TypeError, w')
        /\ llm_calls w' = [first]
        /\ (exists r, response first = Returned r
                      /\ requested r = [Scenario.lookup_ip_call])
        /\ List.length (tool_invocations w') = 1).
Proof.
  split; eexists _, _; (split; [vm_compute; reflexivity|]);
    (split; [reflexivity|]); (split; [eexists; split; reflexivity|]); reflexivity.
Qed.

(** ** C7: a tool without executor *)

Lemma find_unmatched toolExecutors toolCall :
  unmatched toolExecutors toolCall ->
  List.find (fun e => String.eqb (te_name e) (tc_name toolCall)) toolExecutors = None.
Proof.
  unfold unmatched. induction toolExecutors as [|executor rest IH]; [done|].
  intros Hall. apply Forall_cons in Hall as [Hname Hrest]. cbn.
  destruct (String.eqb_spec (te_name executor) (tc_name toolCall)); [done|].
  by apply IH.
Qed.

(** A request without executor: the entry is the error, and nothing is
    invoked; the world is as it was. *)
Lemma executeToolCall_not_found toolExecutors context toolCall w :
  parses toolCall ->
  unmatched toolExecutors toolCall ->
  executeToolCall toolExecutors context toolCall w
  = (Returned (not_found_entry toolCall), w).
Proof.
  intros [toolInput Hparse] Hunmatched. unfold executeToolCall, bind, JSON_parse.
  by rewrite Hparse, (find_unmatched _ _ Hunmatched).
Qed.

Lemma executeToolCalls_from_not_found toolExecutors context toolCalls : forall results w,
  Forall parses toolCalls ->
  Forall (unmatched toolExecutors) toolCalls ->
  executeToolCalls_from results toolCalls toolExecutors context w
  = (Returned (results ++ List.map not_found_entry toolCalls), w).
Proof.
  induction toolCalls as [|toolCall rest IH]; intros results w Hparse Hunmatched; cbn.
  - by rewrite app_nil_r.
  - apply Forall_cons in Hparse as [Hparse Hparses].
    apply Forall_cons in Hunmatched as [Hunmatched Hothers].
    unfold bind. rewrite (executeToolCall_not_found _ _ _ _ Hparse Hunmatched).
    rewrite (IH _ _ Hparses Hothers), <- app_assoc. done.
Qed.

(** With arguments that are a JSON text, as the interface of a tool call
    says, a request whose tool name matches no supplied executor gets the entry
    with the error [Tool executor not found: <name>]; the step returns, so no
    exception escapes, and it leaves the world as it was, so no executor is
    invoked.  A whole phase of such requests returns their entries, one per
    request in order, and invokes nothing. *)
Lemma executeToolCalls_tool_not_found
    (toolExecutors : list ToolExecutor) (context : ToolExecutionContext) (w : World) :
  (forall toolCall,
     parses toolCall -> unmatched toolExecutors toolCall ->
     executeToolCall toolExecutors context toolCall w
     = (Returned (not_found_entry toolCall), w)
     /\ tr_error (not_found_entry toolCall)
        = Some (Js.Str ("Tool executor not found: " +:+ tc_name toolCall))
     /\ tr_output (not_found_entry toolCall) = None)
  /\ (forall toolCalls,
        Forall parses toolCalls -> Forall (unmatched toolExecutors) toolCalls ->
        executeToolCalls toolCalls toolExecutors context w
        = (Returned (List.map not_found_entry toolCalls), w)).
Proof.
  split.
  - intros toolCall Hparse Hunmatched.
    split; [by apply executeToolCall_not_found|done].
  - intros toolCalls Hparse Hunmatched.
    apply (executeToolCalls_from_not_found _ _ _ [] w Hparse Hunmatched).
Qed.

(** C7 fails on the code.  The model asks for [query_siem], for which there is
    no executor, with arguments that are not a JSON text (a provider may hand
    over the argument string as the model wrote it).  [JSON.parse] runs before
    the executor is looked up and outside the [try]: the tool-execution phase
    throws [SyntaxError] instead of producing the error entry, and the whole
    run is aborted after its first model call. *)
Theorem executeToolCalls_throws_on_malformed_arguments :
  unmatched [] Scenario.truncated_call
  /\ Js.parse (tc_arguments Scenario.truncated_call) = None
  /\ executeToolCalls [Scenario.truncated_call] [] Scenario.context0 Scenario.world0
     = (Thrown SyntaxError, Scenario.world0)
  /\ (execute Scenario.llm_asks_truncated (Scenario.db_with_mode "loop_with_limits")
              (Scenario.options_for "agent-1" []) Scenario.world0).1
     = Thrown SyntaxError
  /\ List.length
       (llm_calls
          (execute Scenario.llm_asks_truncated (Scenario.db_with_mode "loop_with_limits")
                   (Scenario.options_for "agent-1" []) Scenario.world0).2)
     = 1.
Proof.
  split; [constructor|].
  split; [vm_compute; reflexivity|]. split; [vm_compute; reflexivity|].
  split; vm_compute; reflexivity.
Qed.

(** ** C3, C4 and C10 on concrete runs *)

(** C3 as stated fails: the agent has no model alias and no active system
    prompt, and [execute] does not fail; it calls the model with the default
    alias and the default prompt, and returns. *)
Lemma execute_runs_without_prompt_and_alias :
  exists found result w' call,
    findUnique_agent (Scenario.db_with_mode "single_step") "agent-1" = Some found
    /\ a_defaultModelAlias (agent found) = None
    /\ systemPrompts found = []
    /\ execute Scenario.llm_answers (Scenario.db_with_mode "single_step")
               (Scenario.options_for "agent-1" []) Scenario.world0
       = (Returned result, w')
    /\ llm_calls w' = [call]
    /\ go_modelAlias (request call) = "claude-3-5-sonnet"
    /\ go_systemPrompt (request call) = Some "You are a helpful AI assistant for SecOps.".
Proof.
  eexists _, _, _, _. split; [vm_compute; reflexivity|].
  split; [done|]. split; [done|]. split; [vm_compute; reflexivity|]. done.
Qed.

(** C4 fails on the code.  A memory whose value has 1001 characters is put
    into the prompt whole: its snippet is the label followed by all 1001
    characters, not by at most 1000 of them.  The loop next to it does cut: a
    document with the same text as its content gives a snippet that carries
    the first 1000 characters only. *)
Theorem memory_value_is_not_truncated :
  let snippet := "[Memory: note]" +:+ nl +:+ Scenario.long_value in
  retrieveContext Scenario.db_with_long_memory "agent-1" "org-1" "ping" = [snippet]
  /\ buildEnhancedSystemPrompt "base" [snippet]
     = "base" +:+ context_header +:+ snippet +:+ context_footer
  /\ String.length Scenario.long_value = 1001
  /\ (~ exists kept, snippet = "[Memory: note]" +:+ nl +:+ kept
                     /\ String.length kept <= 1000)
  /\ exists kept,
       retrieveContext Cases.db_with_long_document "agent-1" "org-1" "ping"
       = ["[Document: note]" +:+ nl +:+ kept]
       /\ String.length kept = 1000
       /\ Scenario.long_value = kept +:+ "a".
Proof.
  cbv zeta. split; [vm_compute; reflexivity|]. split; [reflexivity|].
  split; [vm_compute; reflexivity|].
  split.
  { intros (kept & Hkept & Hlen).
    rewrite <- !append_assoc in Hkept. apply String.app_inj in Hkept.
    subst kept. vm_compute in Hlen. lia. }
  exists (substring_0 1000 Scenario.long_value).
  split; [vm_compute; reflexivity|]. split; vm_compute; reflexivity.
Qed.

(** C10 as stated fails: when the agent is not found, [execute] throws before
    the push, and the caller's array is as it was. *)
Lemma execute_leaves_array_when_agent_missing :
  previousMessages (Scenario.options_for "ghost" []) = Some 0
  /\ heap Scenario.world0 !! 0 = Some [Scenario.earlier_message]
  /\ (execute Scenario.llm_answers (Scenario.db_with_mode "single_step")
              (Scenario.options_for "ghost" []) Scenario.world0).1
     = Thrown AgentNotFound
  /\ heap (execute Scenario.llm_answers (Scenario.db_with_mode "single_step")
                   (Scenario.options_for "ghost" []) Scenario.world0).2 !! 0
     = Some [Scenario.earlier_message].
Proof. repeat split; vm_compute; reflexivity. Qed.

(** ** The theorems at work on concrete runs *)

(** A [single_step] run where the model asks for [lookup_ip] and then
    answers. *)
Lemma executeSingleStep_calls_witness :
  Scenario.llm_lookup_then_answer
    (llm_calls Scenario.world0)
    (first_request Scenario.single_step0
       (default [] (heap Scenario.world0 !! ss_messages Scenario.single_step0)))
  = Returned Scenario.asks_lookup
  /\ exists result,
       (executeSingleStep Scenario.llm_lookup_then_answer Scenario.single_step0
                          Scenario.world0).1
       = Returned result
       /\ output result = "Done."
       /\ toolCallsExecuted result = 1.
Proof.
  split; [reflexivity|].
  destruct (executeSingleStep_calls Scenario.llm_lookup_then_answer Scenario.single_step0
              Scenario.world0 Scenario.asks_lookup eq_refl) as (_ & Htools & _).
  edestruct (Htools eq_refl) as (_ & _ & _ & _ & Hresult); [vm_compute; reflexivity|].
  destruct (Hresult Scenario.answers) as (result & Hrun & Hout & Hcount);
    [vm_compute; reflexivity|].
  exists result. split; [exact Hrun|]. split; [exact Hout|exact Hcount].
Defined.

(** C9 on the run where the model gives a plan and then answers. *)
Lemma executePlanAndExecute_trace_witness :
  match executePlanAndExecute Scenario.llm_plan_then_answer Scenario.loop0
                              Scenario.world0 with
  | (Returned result, _) =>
      Forall loop_step (steps result) /\ ~ Exists planning_step (steps result)
  | (Thrown _, _) => False
  end.
Proof.
  pose proof (executePlanAndExecute_trace_omits_planning
                Scenario.llm_plan_then_answer Scenario.loop0 Scenario.world0) as Htrace.
  destruct (executePlanAndExecute Scenario.llm_plan_then_answer Scenario.loop0
                                  Scenario.world0) as [[result|e] w'] eqn:Hrun.
  - destruct (Htrace result w' eq_refl) as (_ & Hloop & Hnone). split; [exact Hloop|exact Hnone].
  - vm_compute in Hrun. discriminate Hrun.
Defined.

(** C10 on a run of the agent [agent-1] with the caller's array at reference 0. *)
Lemma execute_appends_to_previousMessages_witness :
  heap (execute Scenario.llm_answers (Scenario.db_with_mode "single_step")
                (Scenario.options_for "agent-1" []) Scenario.world0).2 !! 0
  = Some [Scenario.earlier_message; user_message "ping"].
Proof.
  edestruct (execute_appends_to_previousMessages
               Scenario.llm_answers (Scenario.db_with_mode "single_step")
               (Scenario.options_for "agent-1" []) Scenario.world0
               0 [Scenario.earlier_message]
               {| agent := Scenario.agent_with_mode "single_step";
                  systemPrompts := [];
                  tools := [] |}) as [Hgrown _];
    [reflexivity|vm_compute; reflexivity|vm_compute; reflexivity|exact Hgrown].
Defined.

(** A request for [query_siem] when only [lookup_ip] has an executor. *)
Lemma executeToolCalls_tool_not_found_at_query_siem :
  executeToolCalls [Scenario.query_siem_call] [Scenario.lookup_ip_times_out]
                   Scenario.context0 Scenario.world0
  = (Returned [{| toolCallId := "call_3";
                  toolName := "query_siem";
                  tr_input := None;
                  tr_output := None;
                  tr_error := Some (Js.Str "Tool executor not found: query_siem") |}],
     Scenario.world0).
Proof.
  destruct (executeToolCalls_tool_not_found [Scenario.lookup_ip_times_out]
              Scenario.context0 Scenario.world0) as [_ Hphase].
  apply (Hphase [Scenario.query_siem_call]).
  - constructor; [|constructor]. eexists. vm_compute. reflexivity.
  - constructor; [|constructor]. constructor; [|constructor]. vm_compute. discriminate.
Defined.

(** C5 on the run where the model asks for a tool on every call, with
    [maxSteps = 2]. *)
Lemma executeLoop_step_limit_witness :
  exists new,
    llm_calls (executeLoop Scenario.llm_always_asks Scenario.loop0 Scenario.world0).2
    = llm_calls Scenario.world0 ++ new
    /\ List.length new <= 2.
Proof.
  destruct (executeLoop_step_limit Scenario.llm_always_asks Scenario.loop0 Scenario.world0)
    as (new & Hnew & Hlen & _).
  exists new. split; [exact Hnew|exact Hlen].
Defined.

(** * Further properties of the code *)

(** ** [executeToolCalls] *)

Section ToolPhase.

Variable toolExecutors : list ToolExecutor.
Variable context : ToolExecutionContext.

(** An entry has an output or an error, never both and never neither. *)
Lemma executeToolCall_output_xor_error toolCall w result w' :
  executeToolCall toolExecutors context toolCall w = (Returned result, w') ->
  (is_Some (tr_output result) <-> tr_error result = None).
Proof.
  unfold executeToolCall, bind, JSON_parse.
  destruct (Js.parse (tc_arguments toolCall)) as [toolInput|]; cbn; [|done].
  destruct (List.find _ toolExecutors) as [executor|]; cbn.
  - destruct (te_execute executor toolInput context) as [out|reason]; cbn.
    + intros [= <- _]. cbn. split; [done|]. by eexists.
    + destruct reason; cbn; intros [= <- _] || intros [=]; cbn;
        (split; [by intros [? [=]]|done]).
  - intros [= <- _]. cbn. split; [by intros [? [=]]|done].
Qed.

Lemma executeToolCalls_from_output_xor_error toolCalls : forall results w produced w',
  executeToolCalls_from results toolCalls toolExecutors context w = (Returned produced, w') ->
  Forall (fun r => is_Some (tr_output r) <-> tr_error r = None) results ->
  Forall (fun r => is_Some (tr_output r) <-> tr_error r = None) produced.
Proof.
  induction toolCalls as [|toolCall rest IH]; intros results w produced w'; cbn.
  - by intros [= <- _].
  - unfold bind.
    destruct (executeToolCall toolExecutors context toolCall w) as [[result|e] w1] eqn:E;
      [|done].
    intros Hrest Hresults. eapply IH; [exact Hrest|].
    apply Forall_app. split; [done|].
    constructor; [|constructor]. by eapply executeToolCall_output_xor_error.
Qed.

(** What one request does to the log of invocations. *)
Lemma executeToolCall_invocations toolCall w :
  tool_invocations (executeToolCall toolExecutors context toolCall w).2
  = tool_invocations w
    ++ from_option (fun invocation => [invocation]) []
                   (invocation_of toolExecutors context toolCall).
Proof.
  unfold executeToolCall, invocation_of, bind, JSON_parse.
  destruct (Js.parse (tc_arguments toolCall)) as [toolInput|]; cbn;
    [|by rewrite app_nil_r].
  destruct (List.find _ toolExecutors) as [executor|]; cbn; [|by rewrite app_nil_r].
  destruct (te_execute executor toolInput context) as [out|reason]; cbn; [done|].
  destruct reason; cbn; done.
Qed.

(** A phase, request after request. *)
Lemma executeToolCalls_from_app first second : forall results w,
  executeToolCalls_from results (first ++ second) toolExecutors context w
  = match executeToolCalls_from results first toolExecutors context w with
    | (Returned produced, w1) =>
        executeToolCalls_from produced second toolExecutors context w1
    | (Thrown e, w1) => (Thrown e, w1)
    end.
Proof.
  induction first as [|toolCall first IH]; intros results w; cbn; [done|].
  unfold bind.
  destruct (executeToolCall toolExecutors context toolCall w) as [[result|e] w1]; [|done].
  apply IH.
Qed.

(** The invocations of a phase: those of the requests that were processed,
    in order; of all requests when the phase returns. *)
Lemma executeToolCalls_from_invocations toolCalls : forall results w,
  exists processed,
    processed `prefix_of` toolCalls
    /\ tool_invocations (executeToolCalls_from results toolCalls toolExecutors context w).2
       = tool_invocations w ++ omap (invocation_of toolExecutors context) processed
    /\ (forall produced,
          (executeToolCalls_from results toolCalls toolExecutors context w).1
          = Returned produced -> processed = toolCalls).
Proof.
  induction toolCalls as [|toolCall rest IH]; intros results w; cbn.
  { exists []. rewrite app_nil_r. done. }
  unfold bind.
  pose proof (executeToolCall_invocations toolCall w) as Hone.
  destruct (executeToolCall toolExecutors context toolCall w) as [[result|e] w1];
    cbn [snd] in Hone.
  - destruct (IH (results ++ [result]) w1) as (processed & Hprefix & Hlog & Hall).
    exists (toolCall :: processed).
    split; [by apply prefix_cons|].
    split.
    + rewrite Hlog, Hone, <- app_assoc. f_equal. cbn.
      by destruct (invocation_of toolExecutors context toolCall).
    + intros produced Hreturned. f_equal. by eapply Hall.
  - exists [toolCall]. cbn.
    split; [by apply prefix_cons, prefix_nil|].
    split; [|done].
    by rewrite Hone.
Qed.

(** An invocation is made on a supplied executor, with the context of the
    phase. *)
Lemma invocation_of_supplied toolCall invocation :
  invocation_of toolExecutors context toolCall = Some invocation ->
  inv_context invocation = context
  /\ inv_executor invocation = tc_name toolCall
  /\ Js.parse (tc_arguments toolCall) = Some (inv_input invocation)
  /\ exists executor, executor ∈ toolExecutors /\ te_name executor = inv_executor invocation.
Proof.
  unfold invocation_of.
  destruct (Js.parse (tc_arguments toolCall)) as [toolInput|]; [|done].
  destruct (List.find _ toolExecutors) as [executor|] eqn:Hfind; [|done].
  intros [= <-]. cbn.
  apply List.find_some in Hfind as [Hin Hname]. apply String.eqb_eq in Hname.
  split; [done|]. split; [done|]. split; [done|].
  exists executor. split; [by apply list_elem_of_In|done].
Qed.

Lemma executeToolCalls_invocations_supplied toolCalls w :
  exists new,
    tool_invocations (executeToolCalls toolCalls toolExecutors context w).2
    = tool_invocations w ++ new
    /\ Forall (invocation_within toolExecutors context) new.
Proof.
  destruct (executeToolCalls_from_invocations toolCalls [] w) as (processed & _ & Hlog & _).
  eexists. split; [exact Hlog|].
  apply Forall_forall. intros invocation Hin.
  apply list_elem_of_omap in Hin as (toolCall & _ & Hinv).
  apply invocation_of_supplied in Hinv as (? & _ & _ & ?). done.
Qed.

(** What makes a request throw. *)
Lemma executeToolCall_throws toolCall w e w' :
  executeToolCall toolExecutors context toolCall w = (Thrown e, w') ->
  (e = SyntaxError /\ Js.parse (tc_arguments toolCall) = None)
  \/ (e = TypeError
      /\ exists executor toolInput reason,
           List.find (fun x => String.eqb (te_name x) (tc_name toolCall)) toolExecutors
           = Some executor
           /\ Js.parse (tc_arguments toolCall) = Some toolInput
           /\ te_execute executor toolInput context = RejectedWith reason
           /\ (reason = Js.Undefined \/ reason = Js.Null)).
Proof.
  unfold executeToolCall, bind, JSON_parse.
  destruct (Js.parse (tc_arguments toolCall)) as [toolInput|]; cbn.
  2:{ intros [= <- _]. by left. }
  destruct (List.find _ toolExecutors) as [executor|]; cbn; [|done].
  destruct (te_execute executor toolInput context) as [out|reason] eqn:Hsettled; cbn;
    [done|].
  destruct reason; cbn; try done; intros [= <- _]; right; (split; [done|]);
    exists executor, toolInput; eexists; (split; [done|]); (split; [done|]);
    (split; [exact Hsettled|]); auto.
Qed.

Lemma executeToolCalls_from_throws toolCalls : forall results w e w',
  executeToolCalls_from results toolCalls toolExecutors context w = (Thrown e, w') ->
  exists toolCall,
    toolCall ∈ toolCalls
    /\ ((e = SyntaxError /\ Js.parse (tc_arguments toolCall) = None)
        \/ (e = TypeError
            /\ exists executor toolInput reason,
                 List.find (fun x => String.eqb (te_name x) (tc_name toolCall))
                           toolExecutors = Some executor
                 /\ Js.parse (tc_arguments toolCall) = Some toolInput
                 /\ te_execute executor toolInput context = RejectedWith reason
                 /\ (reason = Js.Undefined \/ reason = Js.Null))).
Proof.
  induction toolCalls as [|toolCall rest IH]; intros results w e w'; cbn; [done|].
  unfold bind.
  destruct (executeToolCall toolExecutors context toolCall w) as [[result|e1] w1] eqn:E.
  - intros Hrest. apply IH in Hrest as (failing & Hin & Hwhy).
    exists failing. split; [by apply list_elem_of_further|done].
  - intros [= <- <-]. apply executeToolCall_throws in E.
    exists toolCall. split; [by apply list_elem_of_here|done].
Qed.

End ToolPhase.

Section ToolEntries.

Variable toolExecutors : list ToolExecutor.
Variable context : ToolExecutionContext.

(** [find] gives the first element that passes the test. *)
Lemma find_first {A} (test : A -> bool) (l : list A) :
  match List.find test l with
  | Some x =>
      forall before y after,
        l = before ++ y :: after -> test y = true ->
        Forall (fun earlier => test earlier = false) before -> y = x
  | None => Forall (fun x => test x = false) l
  end.
Proof.
  induction l as [|a l IH]; cbn; [constructor|].
  destruct (test a) eqn:Ha.
  - intros [|b before] y after; cbn; intros [= <- Hl] Hy Hbefore; [done|].
    apply Forall_cons in Hbefore as [Hb _]. congruence.
  - destruct (List.find test l) as [x|].
    + intros [|b before] y after; cbn; intros [= <- Hl] Hy Hbefore; [congruence|].
      apply Forall_cons in Hbefore as [_ Hbefore]. by eapply IH.
    + by constructor.
Qed.

(** The entry of one request: what is recorded, and what is invoked. *)
Lemma executeToolCall_entry toolCall w entry w' :
  executeToolCall toolExecutors context toolCall w = (Returned entry, w') ->
  exists toolInput,
    Js.parse (tc_arguments toolCall) = Some toolInput
    /\ match List.find (fun x => String.eqb (te_name x) (tc_name toolCall))
                       toolExecutors with
       | None =>
           tr_input entry = None /\ tr_output entry = None
           /\ tr_error entry
              = Some (Js.Str ("Tool executor not found: " +:+ tc_name toolCall))
           /\ tool_invocations w' = tool_invocations w
       | Some executor =>
           tr_input entry = Some toolInput
           /\ tool_invocations w'
              = tool_invocations w ++ [{| inv_executor := toolName entry;
                                          inv_input := toolInput;
                                          inv_context := context |}]
           /\ match te_execute executor toolInput context with
              | Fulfilled output =>
                  tr_output entry = Some output /\ tr_error entry = None
              | RejectedWith reason =>
                  tr_output entry = None
                  /\ tr_error entry
                     = Some match reason with
                            | Js.Error message => Js.Str message
                            | Js.Object fields => get_field "message" fields
                            | _ => Js.Undefined
                            end
                  /\ reason <> Js.Undefined
                  /\ reason <> Js.Null
              end
       end.
Proof.
  unfold executeToolCall, bind, JSON_parse.
  destruct (Js.parse (tc_arguments toolCall)) as [toolInput|]; cbn; [|done].
  intros Hrun. exists toolInput. split; [done|].
  destruct (List.find _ toolExecutors) as [executor|] eqn:Hfind; cbn in Hrun.
  - apply List.find_some in Hfind as [_ Hname]. apply String.eqb_eq in Hname.
    destruct (te_execute executor toolInput context) as [out|reason]; cbn in Hrun.
    + injection Hrun as <- <-. cbn. by rewrite Hname.
    + destruct reason; cbn in Hrun; try done; injection Hrun as <- <-; cbn;
        by rewrite Hname.
  - by injection Hrun as <- <-.
Qed.

(** The invocation that an entry stands for, if it has an input. *)
Local Abbreviation invocation_for entry :=
  (from_option
     (fun toolInput => [{| inv_executor := toolName entry;
                           inv_input := toolInput;
                           inv_context := context |}])
     [] (tr_input entry)).

Lemma executeToolCalls_from_entries
    (R : ToolCall -> ToolResult -> Prop) :
  (forall toolCall w entry w',
     executeToolCall toolExecutors context toolCall w = (Returned entry, w') ->
     R toolCall entry) ->
  forall toolCalls results w produced w',
    executeToolCalls_from results toolCalls toolExecutors context w
    = (Returned produced, w') ->
    exists added,
      produced = results ++ added
      /\ Forall2 R toolCalls added
      /\ tool_invocations w'
         = tool_invocations w ++ concat (List.map (fun entry => invocation_for entry) added).
Proof.
  intros HR.
  induction toolCalls as [|toolCall rest IH]; intros results w produced w'; cbn.
  { intros [= <- <-]. exists []. rewrite !app_nil_r. split; [done|]. split; [constructor|done]. }
  unfold bind.
  destruct (executeToolCall toolExecutors context toolCall w) as [[entry|e] w1] eqn:Hone;
    [|done].
  intros Hrest. apply IH in Hrest as (added & -> & Hall & Hlog).
  exists (entry :: added). rewrite <- app_assoc. split; [done|].
  split; [constructor; [by eapply HR|done]|].
  rewrite Hlog. cbn. rewrite app_assoc. f_equal.
  destruct (executeToolCall_entry _ _ _ _ Hone) as (toolInput & _ & Hentry).
  destruct (List.find _ toolExecutors) as [executor|].
  - destruct Hentry as (-> & -> & _). done.
  - destruct Hentry as (-> & _ & _ & ->). cbn. by rewrite app_nil_r.
Qed.

End ToolEntries.

(** X1.  When [executeToolCalls] returns, it has produced exactly one entry
    per request, in the order of the requests; each entry carries the id and
    the tool name of its request, and either an [output] or an [error],
    never both and never neither.  The phase touches no message array and
    calls no model. *)
Theorem executeToolCalls_answers_every_request
    (toolExecutors : list ToolExecutor) (context : ToolExecutionContext)
    (toolCalls : list ToolCall) (w : World) (produced : list ToolResult) (w' : World) :
  executeToolCalls toolCalls toolExecutors context w = (Returned produced, w') ->
  List.length produced = List.length toolCalls
  /\ List.map toolCallId produced = List.map tc_id toolCalls
  /\ List.map toolName produced = List.map tc_name toolCalls
  /\ Forall (fun entry => is_Some (tr_output entry) <-> tr_error entry = None) produced
  /\ heap w' = heap w
  /\ llm_calls w' = llm_calls w.
Proof.
  intros Hrun.
  pose proof (executeToolCalls_one_each _ _ _ _ _ _ Hrun) as [Hids Hnames].
  pose proof (executeToolCalls_frame toolExecutors context toolCalls w) as [Hheap Hcalls].
  rewrite Hrun in Hheap, Hcalls. cbn in Hheap, Hcalls.
  split.
  { rewrite <- (length_map toolCallId produced), Hids. apply length_map. }
  split; [done|]. split; [done|]. split; [|done].
  by eapply executeToolCalls_from_output_xor_error; [exact Hrun|constructor].
Qed.

(** X2.  A phase that returns has answered each request from the first
    executor, in the order in which the executors were supplied, whose name is
    the name asked for.  That executor was called once, with the context of
    the phase and the value recorded as the entry's [input]; what it returned
    is the entry's [output], and when it threw the entry has an [error] and no
    [output].  A request whose name no executor has received the entry
    "Tool executor not found: <name>", without [input].  The invocations made
    are, in order, one per entry that has an [input]: nothing else is
    invoked. *)
Theorem executeToolCalls_invokes_first_match
    (toolExecutors : list ToolExecutor) (context : ToolExecutionContext)
    (toolCalls : list ToolCall) (w : World) (produced : list ToolResult) (w' : World) :
  executeToolCalls toolCalls toolExecutors context w = (Returned produced, w') ->
  Forall2
    (fun toolCall entry =>
       toolName entry = tc_name toolCall
       /\ (Forall (fun executor => te_name executor <> tc_name toolCall) toolExecutors ->
           tr_input entry = None
           /\ tr_output entry = None
           /\ tr_error entry
              = Some (Js.Str ("Tool executor not found: " +:+ tc_name toolCall)))
       /\ forall before executor after,
            toolExecutors = before ++ executor :: after ->
            te_name executor = tc_name toolCall ->
            Forall (fun earlier => te_name earlier <> tc_name toolCall) before ->
            exists toolInput,
              tr_input entry = Some toolInput
              /\ match te_execute executor toolInput context with
                 | Fulfilled output =>
                     tr_output entry = Some output /\ tr_error entry = None
                 | RejectedWith _ =>
                     tr_output entry = None /\ is_Some (tr_error entry)
                 end)
    toolCalls produced
  /\ tool_invocations w'
     = tool_invocations w
       ++ omap (fun entry =>
                  match tr_input entry with
                  | Some toolInput => Some {| inv_executor := toolName entry;
                                              inv_input := toolInput;
                                              inv_context := context |}
                  | None => None
                  end) produced.
Proof.
  intros Hrun.
  eapply executeToolCalls_from_entries in Hrun as (added & -> & Hall & Hlog).
  - cbn. split; [exact Hall|]. rewrite Hlog. f_equal.
    clear. induction added as [|entry added IH]; cbn; [done|].
    rewrite IH. by destruct (tr_input entry).
  - clear. intros toolCall w entry w' Hone. cbv beta.
    pose proof (executeToolCall_answers _ _ _ _ _ _ Hone) as [_ Hname].
    split; [exact Hname|].
    destruct (executeToolCall_entry _ _ _ _ _ _ Hone) as (toolInput & _ & Hentry).
    pose proof (find_first (fun x => String.eqb (te_name x) (tc_name toolCall))
                  toolExecutors) as Hfirst.
    destruct (List.find _ toolExecutors) as [found|] eqn:Hfind.
    + destruct Hentry as (Hinput & _ & Hsettled). split.
      * intros Hnone. exfalso.
        apply List.find_some in Hfind as [Hin Hfound].
        apply String.eqb_eq in Hfound. apply list_elem_of_In in Hin.
        by apply (proj1 (Forall_forall _ _) Hnone found Hin).
      * intros before executor after Hsplit Hexecutor Hbefore.
        assert (executor = found) as ->.
        { eapply Hfirst; [exact Hsplit|by apply String.eqb_eq|].
          eapply Forall_impl; [exact Hbefore|]. intros x Hx. by apply String.eqb_neq. }
        exists toolInput. split; [done|].
        destruct (te_execute found toolInput context) as [out|reason]; [done|].
        destruct Hsettled as (-> & -> & _). done.
    + destruct Hentry as (Hinput & Houtput & Herror & _). split; [done|].
      intros before executor after -> Hexecutor _. exfalso.
      apply Forall_app in Hfirst as [_ Hfirst]. apply Forall_cons in Hfirst as [Hx _].
      apply String.eqb_neq in Hx. done.
Qed.

(** X3.  [executeToolCalls] can only throw a [SyntaxError], when the arguments
    of some request are not a JSON text, or a [TypeError], when the executor
    of some request threw [undefined] or [null].  Whatever else an executor
    throws does not escape: the entry of the request has no [output], and its
    [error] is the [message] property of the thrown value and nothing more:
    the message of an [Error], the member [message] of an object, and
    [undefined] for a thrown string, number, boolean or array.  So the phase
    returns when all arguments are JSON texts and no executor throws
    [undefined] or [null]. *)
Theorem executeToolCalls_failure_causes
    (toolExecutors : list ToolExecutor) (context : ToolExecutionContext)
    (toolCalls : list ToolCall) (w : World) :
  match (executeToolCalls toolCalls toolExecutors context w).1 with
  | Returned produced =>
      List.length produced = List.length toolCalls
      /\ Forall2
           (fun toolCall entry =>
              forall before executor after toolInput reason,
                toolExecutors = before ++ executor :: after ->
                te_name executor = tc_name toolCall ->
                Forall (fun earlier => te_name earlier <> tc_name toolCall) before ->
                tr_input entry = Some toolInput ->
                te_execute executor toolInput context = RejectedWith reason ->
                reason <> Js.Undefined
                /\ reason <> Js.Null
                /\ tr_output entry = None
                /\ tr_error entry
                   = Some match reason with
                          | Js.Error message => Js.Str message
                          | Js.Object fields => get_field "message" fields
                          | Js.Str _ | Js.Number _ | Js.Bool _ | Js.Array _ => Js.Undefined
                          | Js.Undefined | Js.Null => Js.Undefined
                          end)
           toolCalls produced
  | Thrown e =>
      exists toolCall,
        toolCall ∈ toolCalls
        /\ ((e = SyntaxError /\ ~ parses toolCall)
            \/ (e = TypeError
                /\ exists executor toolInput reason,
                     executor ∈ toolExecutors
                     /\ te_name executor = tc_name toolCall
                     /\ Js.parse (tc_arguments toolCall) = Some toolInput
                     /\ te_execute executor toolInput context = RejectedWith reason
                     /\ (reason = Js.Undefined \/ reason = Js.Null)
                     /\ ~ throws_values executor))
  end
  /\ (Forall parses toolCalls -> Forall throws_values toolExecutors ->
      exists produced, (executeToolCalls toolCalls toolExecutors context w).1
                       = Returned produced).
Proof.
  assert (Hcauses : forall e w',
            executeToolCalls toolCalls toolExecutors context w = (Thrown e, w') ->
            exists toolCall,
              toolCall ∈ toolCalls
              /\ ((e = SyntaxError /\ ~ parses toolCall)
                  \/ (e = TypeError
                      /\ exists executor toolInput reason,
                           executor ∈ toolExecutors
                           /\ te_name executor = tc_name toolCall
                           /\ Js.parse (tc_arguments toolCall) = Some toolInput
                           /\ te_execute executor toolInput context = RejectedWith reason
                           /\ (reason = Js.Undefined \/ reason = Js.Null)
                           /\ ~ throws_values executor))).
  { intros e w' Hrun.
    apply executeToolCalls_from_throws in Hrun as (toolCall & Hin & Hwhy).
    exists toolCall. split; [done|].
    destruct Hwhy as [[-> Hparse]|(-> & executor & toolInput & reason
                                   & Hfind & Hparse & Hsettled & Hreason)].
    - left. split; [done|]. unfold parses. rewrite Hparse. by intros [? [=]].
    - right. split; [done|]. exists executor, toolInput, reason.
      apply List.find_some in Hfind as [Hmember Hname].
      apply String.eqb_eq in Hname. apply list_elem_of_In in Hmember.
      split; [done|]. split; [done|]. split; [done|]. split; [done|]. split; [done|].
      intros Hvalues. destruct (Hvalues _ _ _ Hsettled) as [? ?].
      by destruct Hreason. }
  split.
  - destruct (executeToolCalls toolCalls toolExecutors context w) as [[produced|e] w'] eqn:Hrun;
      cbn.
    + split.
      { apply executeToolCalls_one_each in Hrun as [Hids _].
        rewrite <- (length_map toolCallId produced), Hids. apply length_map. }
      eapply executeToolCalls_from_entries in Hrun as (added & -> & Hall & _);
        [exact Hall|].
      clear. intros toolCall w entry w' Hone. cbv beta.
      intros before executor after toolInput reason Hsplit Hexecutor Hbefore Hinput Hsettled.
      destruct (executeToolCall_entry _ _ _ _ _ _ Hone) as (parsed & _ & Hentry).
      pose proof (find_first (fun x => String.eqb (te_name x) (tc_name toolCall))
                    toolExecutors) as Hfirst.
      destruct (List.find _ toolExecutors) as [found|].
      2:{ destruct Hentry as (Hnone & _). congruence. }
      assert (executor = found) as ->.
      { eapply Hfirst; [exact Hsplit|by apply String.eqb_eq|].
        eapply Forall_impl; [exact Hbefore|]. intros x Hx. by apply String.eqb_neq. }
      destruct Hentry as (Hparsed & _ & Hrecorded).
      assert (parsed = toolInput) as -> by congruence.
      rewrite Hsettled in Hrecorded.
      destruct Hrecorded as (Houtput & Herror & Hundefined & Hnull).
      split; [done|]. split; [done|]. split; [done|].
      rewrite Herror. by destruct reason.
    + by eapply Hcauses.
  - intros Hparse Hvalues.
    destruct (executeToolCalls_completes toolExecutors context toolCalls w Hparse Hvalues)
      as (produced & w' & ->). by exists produced.
Qed.

(** X4.  A request whose arguments are not a JSON text aborts the phase with a
    [SyntaxError] when it is reached: the executors of the requests before it
    have been invoked, their results are lost with the exception, and no
    executor is invoked for the request itself or for those after it. *)
Theorem executeToolCalls_malformed_request_aborts
    (toolExecutors : list ToolExecutor) (context : ToolExecutionContext)
    (before : list ToolCall) (toolCall : ToolCall) (after : list ToolCall) (w : World) :
  Forall parses before ->
  Forall throws_values toolExecutors ->
  Js.parse (tc_arguments toolCall) = None ->
  exists w',
    executeToolCalls (before ++ toolCall :: after) toolExecutors context w
    = (Thrown SyntaxError, w')
    /\ tool_invocations w'
       = tool_invocations w ++ omap (invocation_of toolExecutors context) before
    /\ heap w' = heap w
    /\ llm_calls w' = llm_calls w.
Proof.
  intros Hbefore Hvalues Hparse.
  destruct (executeToolCalls_completes toolExecutors context before w Hbefore Hvalues)
    as (produced & w1 & Hrun).
  destruct (executeToolCalls_from_invocations toolExecutors context before [] w)
    as (processed & _ & Hlog & Hall).
  pose proof (executeToolCalls_frame toolExecutors context before w) as [Hheap Hcalls].
  unfold executeToolCalls in *. rewrite Hrun in Hlog, Hall, Hheap, Hcalls.
  cbn in Hlog, Hall, Hheap, Hcalls. rewrite (Hall produced eq_refl) in Hlog.
  exists w1. rewrite executeToolCalls_from_app, Hrun. cbn.
  unfold bind, executeToolCall, JSON_parse. rewrite Hparse. cbn. done.
Qed.

(** X5.  An executor that throws [undefined] or [null] aborts the phase with a
    [TypeError], raised by the [catch] block when it reads [error.message]:
    the executor has been invoked, the results of the requests before it are
    lost, and nothing is invoked for the requests after it. *)
Theorem executeToolCalls_nullish_rejection_aborts
    (toolExecutors : list ToolExecutor) (context : ToolExecutionContext)
    (before : list ToolCall) (toolCall : ToolCall) (after : list ToolCall)
    (executor : ToolExecutor) (toolInput reason : Js.Value)
    (w : World) (produced : list ToolResult) (w1 : World) :
  executeToolCalls before toolExecutors context w = (Returned produced, w1) ->
  Js.parse (tc_arguments toolCall) = Some toolInput ->
  List.find (fun x => String.eqb (te_name x) (tc_name toolCall)) toolExecutors
  = Some executor ->
  te_execute executor toolInput context = RejectedWith reason ->
  reason = Js.Undefined \/ reason = Js.Null ->
  exists w',
    executeToolCalls (before ++ toolCall :: after) toolExecutors context w
    = (Thrown TypeError, w')
    /\ tool_invocations w'
       = tool_invocations w1
         ++ [{| inv_executor := tc_name toolCall;
                inv_input := toolInput;
                inv_context := context |}]
    /\ heap w' = heap w
    /\ llm_calls w' = llm_calls w.
Proof.
  intros Hrun Hparse Hfind Hsettled Hreason.
  pose proof (executeToolCalls_frame toolExecutors context before w) as [Hheap Hcalls].
  rewrite Hrun in Hheap, Hcalls. cbn in Hheap, Hcalls.
  unfold executeToolCalls in *.
  rewrite executeToolCalls_from_app, Hrun. cbn.
  unfold bind, executeToolCall, JSON_parse, invoke. rewrite Hparse. cbn.
  rewrite Hfind. cbn. rewrite Hsettled.
  apply List.find_some in Hfind as [_ Hname]. apply String.eqb_eq in Hname.
  destruct Hreason as [-> | ->]; cbn; eexists; (split; [done|]); cbn;
    rewrite Hname; done.
Qed.

(** ** [executeLoop] *)

Lemma requests_no_tools r : requests_tools r = false -> requested r = [].
Proof.
  unfold requests_tools, requested. by destruct (gr_toolCalls r) as [[|toolCall rest]|].
Qed.

Section LoopAccounting.

Variable llm : list LlmCall -> GenerateOptions -> Outcome GenerateResponse.
Variable options : LoopOptions.

Local Abbreviation rounds := (executeLoop_rounds llm options).
Local Abbreviation tools_phase r :=
  (executeToolCalls (requested r) (lo_toolExecutors options) (lo_context options)).

(** What a loop that returns has counted and recorded. *)
Lemma executeLoop_rounds_records remaining : forall vars w vars' w',
  rounds remaining vars w = (Returned vars', w') ->
  exists new added,
    llm_calls w' = llm_calls w ++ new
    /\ lv_steps vars' = lv_steps vars ++ added
    /\ lv_toolCallsExecuted vars' = lv_toolCallsExecuted vars + tools_requested new
    /\ tool_results_recorded added = tools_requested new
    /\ List.map step_type added = loop_record_types new
    /\ iterations_recorded added = seq (S (lv_iteration vars)) (List.length new)
    /\ lv_iteration vars' = lv_iteration vars + List.length new.
Proof.
  induction remaining as [|remaining IH]; intros vars w vars' w'.
  { cbn. intros [= <- <-]. exists [], []. rewrite !app_nil_r. cbn.
    repeat split; lia. }
  rewrite executeLoop_rounds_S. cbv zeta.
  set (req := round_request options vars).
  destruct (llm (llm_calls w) req) as [r|e] eqn:Hanswer; [|done].
  destruct (requests_tools r) eqn:Htools.
  2:{ intros [= <- <-].
      exists [call_of req (Returned r)],
             [{| step_type := llm_call;
                 step_data := LoopCall (S (lv_iteration vars)) (gr_content r)
                                       (gr_toolCalls r) |}].
      cbn. rewrite Htools, (requests_no_tools r Htools). cbn.
      repeat split; lia. }
  pose proof (executeToolCalls_frame (lo_toolExecutors options) (lo_context options)
                (requested r) (logged w req (Returned r))) as [_ Hcalls].
  destruct (tools_phase r (logged w req (Returned r))) as [[toolResults|e] w2] eqn:Hphase;
    cbn [snd] in Hcalls; [|done].
  apply executeToolCalls_one_each in Hphase as [Hids _].
  assert (Hcount : List.length toolResults = List.length (requested r)).
  { rewrite <- (length_map toolCallId toolResults), Hids. apply length_map. }
  intros Hrest.
  apply IH in Hrest
    as (new & added & Hnew & Hsteps & Hexecuted & Hrecorded & Htypes & Hiter & Hlast).
  exists (call_of req (Returned r) :: new),
         ({| step_type := llm_call;
             step_data := LoopCall (S (lv_iteration vars)) (gr_content r) (gr_toolCalls r) |}
          :: {| step_type := tool_call; step_data := ToolResults toolResults |} :: added).
  rewrite Hnew, Hcalls, Hsteps, Hexecuted, Hlast. cbn.
  rewrite Htools, <- !app_assoc, Hrecorded, Htypes, Hiter, Hcount. cbn.
  repeat split; lia.
Qed.

(** The calls of a loop continue one conversation, however the loop ends. *)
Lemma executeLoop_rounds_chained remaining : forall vars w,
  exists new,
    llm_calls (rounds remaining vars w).2 = llm_calls w ++ new
    /\ chained (lv_currentMessages vars) new.
Proof.
  induction remaining as [|remaining IH]; intros vars w.
  { exists []. cbn. by rewrite app_nil_r. }
  rewrite executeLoop_rounds_S. cbv zeta.
  set (req := round_request options vars).
  destruct (llm (llm_calls w) req) as [r|e] eqn:Hanswer.
  2:{ by exists [call_of req (Thrown e)]. }
  destruct (requests_tools r) eqn:Htools.
  2:{ by exists [call_of req (Returned r)]. }
  pose proof (executeToolCalls_frame (lo_toolExecutors options) (lo_context options)
                (requested r) (logged w req (Returned r))) as [_ Hcalls].
  destruct (tools_phase r (logged w req (Returned r))) as [[toolResults|e] w2] eqn:Hphase;
    cbn [snd] in Hcalls.
  2:{ exists [call_of req (Returned r)]. cbn [snd]. by rewrite Hcalls. }
  apply executeToolCalls_one_each in Hphase as [Hids Hnames].
  destruct (IH (vars_after_tools vars r toolResults) w2) as (new & Hnew & Hchain).
  exists (call_of req (Returned r) :: new).
  rewrite Hnew, Hcalls. cbn. rewrite <- app_assoc. split; [done|].
  split; [done|].
  destruct new as [|next new]; [done|].
  by exists r, toolResults.
Qed.

(** The executors that a loop invokes, however it ends. *)
Lemma executeLoop_rounds_invocations remaining : forall vars w,
  exists new,
    tool_invocations (rounds remaining vars w).2 = tool_invocations w ++ new
    /\ Forall (invocation_within (lo_toolExecutors options) (lo_context options)) new.
Proof.
  induction remaining as [|remaining IH]; intros vars w.
  { exists []. cbn. by rewrite app_nil_r. }
  rewrite executeLoop_rounds_S. cbv zeta.
  set (req := round_request options vars).
  destruct (llm (llm_calls w) req) as [r|e] eqn:Hanswer.
  2:{ exists []. cbn. by rewrite app_nil_r. }
  destruct (requests_tools r) eqn:Htools.
  2:{ exists []. cbn. by rewrite app_nil_r. }
  destruct (executeToolCalls_invocations_supplied
              (lo_toolExecutors options) (lo_context options)
              (requested r) (logged w req (Returned r))) as (first & Hfirst & Hsupplied).
  destruct (tools_phase r (logged w req (Returned r))) as [[toolResults|e] w2];
    cbn [snd] in Hfirst.
  2:{ by exists first. }
  destruct (IH (vars_after_tools vars r toolResults) w2) as (new & Hnew & Hall).
  exists (first ++ new). rewrite Hnew, Hfirst. cbn. rewrite <- app_assoc.
  split; [done|]. by apply Forall_app.
Qed.

End LoopAccounting.

(** X6.  When [executeLoop] returns, [toolCallsExecuted] is the number of tool
    calls that the responses of its model calls asked for, summed over the
    calls, and the tool-result records of the trace hold that many entries. *)
Theorem executeLoop_counts_tool_calls
    (llm : list LlmCall -> GenerateOptions -> Outcome GenerateResponse)
    (options : LoopOptions) (w : World) (result : AgentExecutionResult) (w' : World) :
  executeLoop llm options w = (Returned result, w') ->
  exists new,
    llm_calls w' = llm_calls w ++ new
    /\ toolCallsExecuted result = tools_requested new
    /\ tool_results_recorded (steps result) = toolCallsExecuted result.
Proof.
  rewrite executeLoop_unfold.
  destruct (executeLoop_rounds llm options _ _ w) as [[vars|e] w1] eqn:Hrounds; [|done].
  intros [= <- <-].
  apply executeLoop_rounds_records in Hrounds
    as (new & added & Hnew & Hsteps & Hexecuted & Hrecorded & _).
  exists new. cbn in *. rewrite Hsteps, Hexecuted, Hrecorded. done.
Qed.

(** X7.  The trace that [executeLoop] returns follows its model calls: for
    each call, in order, an [llm_call] record, followed by a [tool_call]
    record when the response asked for tools; and the [llm_call] records
    carry the iteration numbers 1, 2, ..., one per call. *)
Theorem executeLoop_trace_follows_calls
    (llm : list LlmCall -> GenerateOptions -> Outcome GenerateResponse)
    (options : LoopOptions) (w : World) (result : AgentExecutionResult) (w' : World) :
  executeLoop llm options w = (Returned result, w') ->
  exists new,
    llm_calls w' = llm_calls w ++ new
    /\ List.map step_type (steps result) = loop_record_types new
    /\ iterations_recorded (steps result) = seq 1 (List.length new)
    /\ List.length new <= lo_maxSteps options.
Proof.
  rewrite executeLoop_unfold.
  pose proof (executeLoop_rounds_calls llm options (lo_maxSteps options)
                (initial_vars (default [] (heap w !! lo_messages options))) w)
    as (made & Hmade & _ & Hbound & _).
  destruct (executeLoop_rounds llm options _ _ w) as [[vars|e] w1] eqn:Hrounds; [|done].
  intros [= <- <-].
  apply executeLoop_rounds_records in Hrounds
    as (new & added & Hnew & Hsteps & _ & _ & Htypes & Hiter & _).
  cbn [snd] in Hmade. rewrite Hnew in Hmade. apply app_inv_head in Hmade as <-.
  exists new. cbn in *. rewrite Hsteps. done.
Qed.

(** X8.  The model calls of [executeLoop] continue one conversation, however
    the loop ends: the first call is made on the messages given; each later
    call is made on the conversation of the call before it, followed by the
    assistant message of that call's response, which asked for tools, and by
    one tool message per tool call asked for, in the order of the requests. *)
Theorem executeLoop_conversation_grows
    (llm : list LlmCall -> GenerateOptions -> Outcome GenerateResponse)
    (options : LoopOptions) (w : World) :
  exists new,
    llm_calls (executeLoop llm options w).2 = llm_calls w ++ new
    /\ chained (default [] (heap w !! lo_messages options)) new.
Proof.
  rewrite executeLoop_unfold.
  destruct (executeLoop_rounds_chained llm options (lo_maxSteps options)
              (initial_vars (default [] (heap w !! lo_messages options))) w)
    as (new & Hnew & Hchain).
  exists new.
  by destruct (executeLoop_rounds llm options _ _ w) as [[vars|e] w1].
Qed.

(** ** Whole runs *)

Section RunEffects.

Variable llm : list LlmCall -> GenerateOptions -> Outcome GenerateResponse.

(** The effects of [executeSingleStep], however it ends. *)
Lemma executeSingleStep_effects options w :
  exists new invoked,
    llm_calls (executeSingleStep llm options w).2 = llm_calls w ++ new
    /\ 1 <= List.length new <= 2
    /\ tool_invocations (executeSingleStep llm options w).2
       = tool_invocations w ++ invoked
    /\ Forall (invocation_within (ss_toolExecutors options) (ss_context options)) invoked
    /\ Forall (offers (Some (ss_toolDefinitions options))) (take 1 new)
    /\ Forall (offers None) (drop 1 new)
    /\ forall result, (executeSingleStep llm options w).1 = Returned result ->
         inputTokens (usage result) = tokens_in (take 1 new)
         /\ outputTokens (usage result) = tokens_out (take 1 new).
Proof.
  rewrite executeSingleStep_unfold. cbv zeta.
  set (messages := default [] (heap w !! ss_messages options)).
  set (first := first_request options messages).
  assert (Hfirst : forall answer,
            Forall (offers (Some (ss_toolDefinitions options))) [call_of first answer]).
  { intros answer. constructor; [done|constructor]. }
  destruct (llm (llm_calls w) first) as [r|e] eqn:Hanswer.
  2:{ exists [call_of first (Thrown e)], []. cbn. rewrite app_nil_r.
      split; [done|]. split; [lia|]. split; [done|]. split; [constructor|].
      split; [apply Hfirst|]. split; [constructor|]. done. }
  destruct (requests_tools r).
  2:{ exists [call_of first (Returned r)], []. cbn. rewrite app_nil_r.
      split; [done|]. split; [lia|]. split; [done|]. split; [constructor|].
      split; [apply Hfirst|]. split; [constructor|].
      intros result [= <-]. cbn. lia. }
  pose proof (executeToolCalls_frame (ss_toolExecutors options) (ss_context options)
                (requested r) (logged w first (Returned r))) as [_ Hcalls].
  destruct (executeToolCalls_invocations_supplied
              (ss_toolExecutors options) (ss_context options)
              (requested r) (logged w first (Returned r))) as (invoked & Hlog & Hsupplied).
  destruct (executeToolCalls _ _ _ (logged w first (Returned r)))
    as [[toolResults|e] w2]; cbn [snd] in Hcalls, Hlog.
  2:{ exists [call_of first (Returned r)], invoked. cbn. rewrite Hcalls, Hlog.
      split; [done|]. split; [lia|]. split; [done|]. split; [done|].
      split; [apply Hfirst|]. split; [constructor|]. done. }
  set (second := second_request options messages r toolResults).
  exists [call_of first (Returned r); call_of second (llm (llm_calls w2) second)], invoked.
  assert (Hsecond : Forall (offers None) [call_of second (llm (llm_calls w2) second)]).
  { constructor; [done|constructor]. }
  destruct (llm (llm_calls w2) second) as [r2|e]; cbn; rewrite Hcalls, Hlog; cbn;
    rewrite <- app_assoc; cbn;
    (split; [done|]; split; [lia|]; split; [done|]; split; [done|];
     split; [apply Hfirst|]; split; [exact Hsecond|]); [|done].
  intros result [= <-]. cbn. lia.
Qed.

(** The effects of [executeLoop], however it ends. *)
Lemma executeLoop_effects options w :
  exists new invoked,
    llm_calls (executeLoop llm options w).2 = llm_calls w ++ new
    /\ List.length new <= lo_maxSteps options
    /\ (1 <= lo_maxSteps options -> 1 <= List.length new)
    /\ tool_invocations (executeLoop llm options w).2 = tool_invocations w ++ invoked
    /\ Forall (invocation_within (lo_toolExecutors options) (lo_context options)) invoked
    /\ Forall (offers (Some (lo_toolDefinitions options))) new
    /\ forall result, (executeLoop llm options w).1 = Returned result ->
         inputTokens (usage result) = tokens_in new
         /\ outputTokens (usage result) = tokens_out new
         /\ totalTokens (usage result)
            = (inputTokens (usage result) + outputTokens (usage result))%Z.
Proof.
  set (messages := default [] (heap w !! lo_messages options)).
  destruct (executeLoop_rounds_calls llm options (lo_maxSteps options)
              (initial_vars messages) w) as (new & Hnew & _ & Hbound & _).
  destruct (executeLoop_rounds_requests llm options
              (fun req => go_tools req = Some (lo_toolDefinitions options)
                          /\ go_toolChoice req = Some auto)
              (fun _ => True))
    with (remaining := lo_maxSteps options) (vars := initial_vars messages) (w := w)
    as (new' & Hnew' & Hoffers & Hfirst); [done..|].
  rewrite Hnew in Hnew'. apply app_inv_head in Hnew' as <-.
  destruct (executeLoop_rounds_invocations llm options (lo_maxSteps options)
              (initial_vars messages) w) as (invoked & Hlog & Hsupplied).
  exists new, invoked.
  assert (Hcalls : llm_calls (executeLoop llm options w).2 = llm_calls w ++ new).
  { rewrite executeLoop_unfold. fold messages.
    by destruct (executeLoop_rounds llm options _ _ w) as [[vars|e] w1]. }
  split; [done|]. split; [done|].
  split.
  { intros HK. destruct (Hfirst HK) as (call & rest & -> & _). cbn. lia. }
  split.
  { rewrite executeLoop_unfold. fold messages.
    by destruct (executeLoop_rounds llm options _ _ w) as [[vars|e] w1]. }
  split; [done|]. split; [done|].
  intros result Hresult.
  destruct (executeLoop llm options w) as [outcome w'] eqn:Hrun. cbn in Hresult, Hcalls.
  subst outcome.
  apply executeLoop_usage_additive in Hrun as (counted & Hcounted & Hin & Hout & Htotal).
  rewrite Hcalls in Hcounted. apply app_inv_head in Hcounted as <-.
  rewrite Htotal, Hin, Hout. done.
Qed.

(** [executePlanAndExecute] on the world: the planning call, the array of the
    extended conversation, the loop. *)
Lemma executePlanAndExecute_explicit options w :
  executePlanAndExecute llm options w =
  let messages := default [] (heap w !! lo_messages options) in
  let planning := planning_request options messages in
  let w1 := logged w planning (llm (llm_calls w) planning) in
  match llm (llm_calls w) planning with
  | Thrown e => (Thrown e, w1)
  | Returned plan =>
      let extended := fresh (dom (heap w1)) in
      executeLoop llm (with_messages options extended)
        {| heap := <[extended := messages ++ [plan_message (gr_content plan)]]> (heap w1);
           llm_calls := llm_calls w1;
           tool_invocations := tool_invocations w1 |}
  end.
Proof.
  cbv zeta.
  unfold executePlanAndExecute, bind, read, generate, alloc, ret.
  cbv beta iota zeta.
  fold (planning_request options (default [] (heap w !! lo_messages options))).
  by destruct (llm (llm_calls w) _) as [plan|e].
Qed.

(** The effects of [executePlanAndExecute], however it ends. *)
Lemma executePlanAndExecute_effects options w :
  exists new invoked,
    llm_calls (executePlanAndExecute llm options w).2 = llm_calls w ++ new
    /\ 1 <= List.length new <= 1 + lo_maxSteps options
    /\ tool_invocations (executePlanAndExecute llm options w).2
       = tool_invocations w ++ invoked
    /\ Forall (invocation_within (lo_toolExecutors options) (lo_context options)) invoked
    /\ Forall (offers None) (take 1 new)
    /\ Forall (offers (Some (lo_toolDefinitions options))) (drop 1 new)
    /\ forall result, (executePlanAndExecute llm options w).1 = Returned result ->
         inputTokens (usage result) = tokens_in (drop 1 new)
         /\ outputTokens (usage result) = tokens_out (drop 1 new)
         /\ totalTokens (usage result)
            = (inputTokens (usage result) + outputTokens (usage result))%Z.
Proof.
  rewrite executePlanAndExecute_explicit. cbv zeta.
  set (planning := planning_request options _).
  assert (Hplanning : forall answer, Forall (offers None) [call_of planning answer]).
  { intros answer. constructor; [done|constructor]. }
  destruct (llm (llm_calls w) planning) as [plan|e].
  2:{ exists [call_of planning (Thrown e)], []. cbn. rewrite app_nil_r.
      split; [done|]. split; [lia|]. split; [done|]. split; [constructor|].
      split; [apply Hplanning|]. split; [constructor|]. done. }
  match goal with |- context [executeLoop llm ?o ?w2] =>
    destruct (executeLoop_effects o w2)
      as (new & invoked & Hnew & Hbound & _ & Hlog & Hsupplied & Hoffers & Husage)
  end.
  exists (call_of planning (Returned plan) :: new), invoked.
  rewrite Hnew, Hlog. cbn. rewrite <- app_assoc. cbn in *.
  split; [done|]. split; [lia|]. split; [done|]. split; [done|].
  split; [apply Hplanning|]. rewrite drop_0. done.
Qed.

Variable db : Database.

Lemma prepare_invokes_nothing options w :
  tool_invocations (prepare options w).2 = tool_invocations w.
Proof.
  unfold prepare, bind, ret, push, alloc.
  by destruct (previousMessages options) as [array|].
Qed.

(** The effects of a run of an agent that is found, however the run ends. *)
Lemma execute_effects options found w :
  findUnique_agent db (agentId options) = Some found ->
  exists new invoked,
    llm_calls (execute llm db options w).2 = llm_calls w ++ new
    /\ 1 <= List.length new <= call_limit found
    /\ tool_invocations (execute llm db options w).2 = tool_invocations w ++ invoked
    /\ Forall (invocation_within (default [] (toolExecutors options))
                                 (run_context options)) invoked
    /\ tools_offered found new
    /\ forall result, (execute llm db options w).1 = Returned result ->
         inputTokens (usage result) = tokens_in (usage_counted found new)
         /\ outputTokens (usage result) = tokens_out (usage_counted found new)
         /\ totalTokens (usage result)
            = (inputTokens (usage result) + outputTokens (usage result))%Z.
Proof.
  intros Hfound. rewrite (execute_found llm db options found w Hfound). unfold bind.
  pose proof (prepare_invokes_nothing options w) as Hquiet.
  destruct (prepare_returns options w) as (messages & w0 & earlier & Hprepare & Hcalls & _).
  rewrite Hprepare in Hquiet |- *. cbn [snd] in Hquiet.
  rewrite <- Hcalls, <- Hquiet.
  unfold strategy, call_limit, tools_offered, usage_counted. cbv zeta.
  pose proof (maxSteps_or_default_positive (a_maxSteps (agent found))) as Hpositive.
  destruct (String.eqb (a_planningMode (agent found)) "single_step").
  { destruct (executeSingleStep_effects (single_step_options db found options messages) w0)
      as (new & invoked & Hnew & Hbound & Hlog & Hsupplied & Hfirst & Hrest & Husage).
    exists new, invoked. unfold bind.
    destruct (executeSingleStep llm _ w0) as [[result|e] w'']; cbn in *;
      (split; [done|]; split; [done|]; split; [done|]; split; [done|];
       split; [done|]); [|done].
    intros ? [= <-]. cbn. destruct (Husage result eq_refl) as [-> ->]. done. }
  destruct (String.eqb (a_planningMode (agent found)) "loop_with_limits").
  { destruct (executeLoop_effects (loop_options db found options messages) w0)
      as (new & invoked & Hnew & Hbound & Hfirst & Hlog & Hsupplied & Hoffers & Husage).
    exists new, invoked. cbn in *.
    split; [done|]. split; [split; [by apply Hfirst|done]|]. done. }
  destruct (executePlanAndExecute_effects (loop_options db found options messages) w0)
    as (new & invoked & Hnew & Hbound & Hlog & Hsupplied & Hfirst & Hrest & Husage).
  exists new, invoked. cbn in *. done.
Qed.

End RunEffects.

(** ** C8: [plan_and_execute] *)

(** C8.  A [plan_and_execute] run starts with one model call on the
    conversation as it stands: its system prompt is the run's prompt followed
    by a blank line and the instruction "Create a step-by-step plan to
    accomplish the user's request. List the steps clearly.", and it offers no
    tools.  If that call throws, the run throws.  Otherwise a new array is
    made of the conversation followed by one assistant message, "Plan:", the
    plan text, a blank line and "Now executing this plan...", and the run is
    the run of [executeLoop] on the options with the same prompt, alias,
    definitions, executors, context and [maxSteps], and with that new array
    as the conversation.  So the planning call is followed by at most
    [maxSteps] calls; each of them has the run's own prompt, offers the tools,
    and has a conversation that starts with the extended one; the first of
    them has exactly the extended conversation. *)
Theorem executePlanAndExecute_plans_then_loops
    (llm : list LlmCall -> GenerateOptions -> Outcome GenerateResponse)
    (options : LoopOptions) (w : World) :
  let messages := default [] (heap w !! lo_messages options) in
  let planning :=
    {| go_modelAlias := lo_modelAlias options;
       go_systemPrompt :=
         Some (lo_systemPrompt options +:+ nl +:+ nl +:+
               "Create a step-by-step plan to accomplish the user's request. List the steps clearly.");
       go_messages := messages;
       go_tools := None;
       go_toolChoice := None |} in
  let planned answer :=
    {| heap := heap w;
       llm_calls := llm_calls w ++ [{| request := planning; response := answer |}];
       tool_invocations := tool_invocations w |} in
  match llm (llm_calls w) planning with
  | Thrown e =>
      executePlanAndExecute llm options w = (Thrown e, planned (Thrown e))
  | Returned plan =>
      let planMessage :=
        {| role := assistant;
           content := Some ("Plan:" +:+ nl +:+ gr_content plan +:+ nl +:+ nl +:+
                            "Now executing this plan...");
           tool_calls := None;
           tool_call_id := None |} in
      let extended := fresh (dom (heap w)) in
      let loop :=
        {| lo_systemPrompt := lo_systemPrompt options;
           lo_modelAlias := lo_modelAlias options;
           lo_messages := extended;
           lo_toolDefinitions := lo_toolDefinitions options;
           lo_toolExecutors := lo_toolExecutors options;
           lo_maxSteps := lo_maxSteps options;
           lo_context := lo_context options |} in
      let w2 :=
        {| heap := <[extended := messages ++ [planMessage]]> (heap w);
           llm_calls := llm_calls (planned (Returned plan));
           tool_invocations := tool_invocations w |} in
      heap w !! extended = None
      /\ heap w2 !! lo_messages loop = Some (messages ++ [planMessage])
      /\ executePlanAndExecute llm options w = executeLoop llm loop w2
      /\ exists new,
           llm_calls (executePlanAndExecute llm options w).2
           = llm_calls w ++ {| request := planning; response := Returned plan |} :: new
           /\ List.length new <= lo_maxSteps options
           /\ Forall (fun call =>
                        go_modelAlias (request call) = lo_modelAlias options
                        /\ go_systemPrompt (request call) = Some (lo_systemPrompt options)
                        /\ go_tools (request call) = Some (lo_toolDefinitions options)
                        /\ (messages ++ [planMessage])
                             `prefix_of` go_messages (request call)) new
           /\ (1 <= lo_maxSteps options ->
               exists call rest,
                 new = call :: rest
                 /\ go_messages (request call) = messages ++ [planMessage])
  end.
Proof.
  cbv zeta.
  set (messages := default [] (heap w !! lo_messages options)).
  set (planning := {| go_modelAlias := lo_modelAlias options;
                      go_systemPrompt := _; go_messages := messages;
                      go_tools := None; go_toolChoice := None |}).
  assert (Hplanning : planning = planning_request options messages) by reflexivity.
  clearbody planning. subst planning.
  rewrite executePlanAndExecute_explicit. cbv zeta. fold messages.
  destruct (llm (llm_calls w) (planning_request options messages)) as [plan|e]; [|done].
  set (planMessage := {| role := assistant; content := _;
                         tool_calls := None; tool_call_id := None |}).
  assert (HplanMessage : planMessage = plan_message (gr_content plan)) by reflexivity.
  clearbody planMessage. subst planMessage.
  set (extended := fresh (dom (heap w))).
  set (loop := {| lo_systemPrompt := lo_systemPrompt options;
                  lo_messages := extended |}).
  set (w2 := {| heap := <[extended := _]> (heap w) |}).
  assert (Hfresh : heap w !! extended = None).
  { apply not_elem_of_dom. apply is_fresh. }
  assert (Hextended : heap w2 !! lo_messages loop
                      = Some (messages ++ [plan_message (gr_content plan)])).
  { cbn. by rewrite lookup_insert_eq. }
  split; [exact Hfresh|]. split; [exact Hextended|]. split; [reflexivity|].
  change (executeLoop llm (with_messages options (fresh (dom (heap (logged w _ _))))) _)
    with (executeLoop llm loop w2).
  destruct (executeLoop_requests llm loop w2)
    as (new & Hnew & _ & Hrequests & Hfirst).
  destruct (executeLoop_effects llm loop w2)
    as (new' & invoked & Hnew' & Hbound & _ & _ & _ & Hoffers & _).
  rewrite Hnew in Hnew'. apply app_inv_head in Hnew'. subst new'.
  rewrite Hextended in Hrequests, Hfirst. cbn [default] in Hrequests, Hfirst.
  exists new. split.
  { rewrite Hnew. cbn. by rewrite <- app_assoc. }
  split; [exact Hbound|]. split; [|exact Hfirst].
  apply Forall_forall. intros call Hin.
  pose proof (proj1 (Forall_forall _ _) Hrequests call Hin) as (Halias & Hprompt & Hprefix).
  pose proof (proj1 (Forall_forall _ _) Hoffers call Hin) as [Htools _].
  done.
Qed.


(** X9.  A run of an agent that is not found calls no model.  A run of an
    agent that is found calls the model at least once and at most
    [call_limit] times: twice in [single_step] mode, [maxSteps || 10] times in
    [loop_with_limits] mode and once more in [plan_and_execute] mode, however
    the run ends. *)
Theorem execute_model_call_bounds
    (llm : list LlmCall -> GenerateOptions -> Outcome GenerateResponse)
    (db : Database) (options : AgentExecutionOptions) (w : World) :
  match findUnique_agent db (agentId options) with
  | None => llm_calls (execute llm db options w).2 = llm_calls w
  | Some found =>
      exists new,
        llm_calls (execute llm db options w).2 = llm_calls w ++ new
        /\ 1 <= List.length new <= call_limit found
        /\ call_limit found <= 1 + maxSteps_or_default (a_maxSteps (agent found))
  end.
Proof.
  destruct (findUnique_agent db (agentId options)) as [found|] eqn:Hfound.
  - destruct (execute_effects llm db options found w Hfound)
      as (new & invoked & Hnew & Hbound & _).
    exists new. split; [done|]. split; [done|].
    pose proof (maxSteps_or_default_positive (a_maxSteps (agent found))).
    unfold call_limit.
    destruct (String.eqb _ "single_step"); [lia|].
    destruct (String.eqb _ "loop_with_limits"); lia.
  - by rewrite (execute_not_found llm db options w Hfound).
Qed.

(** X10.  Whatever the model asks for and however the run ends, a run invokes
    only executors that its caller supplied in [toolExecutors], and each with
    the context made of the organisation, the agent and the user of the run.
    A run given no executors invokes nothing. *)
Theorem execute_invokes_only_supplied_executors
    (llm : list LlmCall -> GenerateOptions -> Outcome GenerateResponse)
    (db : Database) (options : AgentExecutionOptions) (w : World) :
  exists invoked,
    tool_invocations (execute llm db options w).2 = tool_invocations w ++ invoked
    /\ Forall (fun invocation =>
                 inv_context invocation
                 = {| ctx_organizationId := organizationId options;
                      ctx_agentId := agentId options;
                      ctx_userId := userId options |}
                 /\ exists executor supplied,
                      toolExecutors options = Some supplied
                      /\ executor ∈ supplied
                      /\ te_name executor = inv_executor invocation) invoked
    /\ (toolExecutors options = None \/ toolExecutors options = Some [] -> invoked = []).
Proof.
  destruct (findUnique_agent db (agentId options)) as [found|] eqn:Hfound.
  2:{ exists []. rewrite (execute_not_found llm db options w Hfound). cbn.
      rewrite app_nil_r. split; [done|]. split; [constructor|done]. }
  destruct (execute_effects llm db options found w Hfound)
    as (new & invoked & _ & _ & Hlog & Hsupplied & _).
  exists invoked. split; [done|].
  assert (Hall : Forall (fun invocation =>
                 inv_context invocation = run_context options
                 /\ exists executor supplied,
                      toolExecutors options = Some supplied
                      /\ executor ∈ supplied
                      /\ te_name executor = inv_executor invocation) invoked).
  { eapply Forall_impl; [exact Hsupplied|].
    intros invocation (Hcontext & executor & Hin & Hname).
    split; [done|].
    destruct (toolExecutors options) as [supplied|]; cbn in Hin.
    - by exists executor, supplied.
    - by apply elem_of_nil in Hin. }
  split; [exact Hall|].
  intros Hnone. destruct invoked as [|invocation rest]; [done|].
  apply Forall_cons in Hall as [(_ & executor & supplied & Hsome & Hin & _) _].
  destruct Hnone as [Hnone|Hnone]; rewrite Hnone in Hsome; [done|].
  injection Hsome as <-. by apply elem_of_nil in Hin.
Qed.

(** X11.  The usage that a run reports is the token counts of the calls that
    its mode counts, summed: the first call in [single_step] mode, every call
    in [loop_with_limits] mode, every call but the planning call in
    [plan_and_execute] mode.  In every mode [totalTokens] is the sum of the
    input and output tokens reported, whatever totals the provider gave. *)
Theorem execute_usage_accounting
    (llm : list LlmCall -> GenerateOptions -> Outcome GenerateResponse)
    (db : Database) (options : AgentExecutionOptions) (w : World)
    (result : AgentExecutionResult) (w' : World) :
  execute llm db options w = (Returned result, w') ->
  exists found new,
    findUnique_agent db (agentId options) = Some found
    /\ llm_calls w' = llm_calls w ++ new
    /\ inputTokens (usage result) = tokens_in (usage_counted found new)
    /\ outputTokens (usage result) = tokens_out (usage_counted found new)
    /\ totalTokens (usage result)
       = (tokens_in (usage_counted found new) + tokens_out (usage_counted found new))%Z
    /\ usage_counted found new `sublist_of` new.
Proof.
  intros Hrun.
  destruct (findUnique_agent db (agentId options)) as [found|] eqn:Hfound.
  2:{ by rewrite (execute_not_found llm db options w Hfound) in Hrun. }
  destruct (execute_effects llm db options found w Hfound)
    as (new & invoked & Hnew & _ & _ & _ & _ & Husage).
  rewrite Hrun in Hnew, Husage. cbn in Hnew, Husage.
  destruct (Husage result eq_refl) as (Hin & Hout & Htotal).
  exists found, new. rewrite Htotal, Hin, Hout.
  split; [done|]. split; [done|]. split; [done|]. split; [done|]. split; [done|].
  unfold usage_counted.
  destruct (String.eqb _ "single_step"); [apply sublist_take|].
  destruct (String.eqb _ "loop_with_limits"); [done|apply sublist_drop].
Qed.

Lemma buildToolDefinitions_described agentTools :
  Forall (fun definition => td_description definition <> EmptyString)
         (buildToolDefinitions agentTools).
Proof.
  unfold buildToolDefinitions. apply Forall_forall. intros definition Hin.
  apply list_elem_of_In, List.in_map_iff in Hin as (row & <- & _). cbn.
  destruct (tool_description (at_tool row)) as [[|c rest]|]; by cbv.
Qed.

(** X12.  The tools that a run offers to the model are the tools bound to its
    agent, and no others: one definition per binding of the agent, in stored
    order.  A definition carries the name of its tool; its description is the
    tool's own when that is a non-empty string and "Execute " followed by the
    tool's name otherwise, so it is never empty; its input schema is the
    tool's own when there is one and the schema of an object without
    properties otherwise.  The definitions are offered, with
    [toolChoice: 'auto'], on the first call in [single_step] mode, on every
    call in [loop_with_limits] mode and on every call but the planning call in
    [plan_and_execute] mode; the other calls offer no tool. *)
Theorem execute_offers_the_agents_tools
    (llm : list LlmCall -> GenerateOptions -> Outcome GenerateResponse)
    (db : Database) (options : AgentExecutionOptions) (w : World)
    (found : AgentWithRelations) :
  findUnique_agent db (agentId options) = Some found ->
  let definitions := buildToolDefinitions (tools found) in
  (exists new,
     llm_calls (execute llm db options w).2 = llm_calls w ++ new
     /\ tools_offered found new)
  /\ Forall2
       (fun row definition =>
          td_name definition = tool_name (at_tool row)
          /\ td_description definition
             = match tool_description (at_tool row) with
               | Some (String c rest) => String c rest
               | Some EmptyString | None => "Execute " +:+ tool_name (at_tool row)
               end
          /\ td_inputSchema definition
             = match tool_inputSchema (at_tool row) with
               | Some schema => schema
               | None => Js.Object [("type", Js.Str "object");
                                    ("properties", Js.Object [])]
               end)
       (List.filter (fun row => String.eqb (at_agentId row) (agentId options))
                    (agentTools db))
       definitions
  /\ Forall (fun definition => td_description definition <> EmptyString) definitions
  /\ Forall (fun row => at_agentId row = agentId options /\ row ∈ agentTools db)
            (tools found).
Proof.
  intros Hfound. cbv zeta.
  split.
  { destruct (execute_effects llm db options found w Hfound)
      as (new & invoked & Hnew & _ & _ & _ & Hoffered & _).
    by exists new. }
  assert (Htools : tools found
                   = List.filter (fun row => String.eqb (at_agentId row) (agentId options))
                                 (agentTools db)).
  { unfold findUnique_agent in Hfound.
    destruct (List.find _ (agents db)); [|done]. by injection Hfound as <-. }
  split.
  { rewrite <- Htools. unfold buildToolDefinitions. clear.
    induction (tools found) as [|row rows IH]; cbn [List.map]; constructor; [|exact IH].
    cbn. split; [done|].
    split; [by destruct (tool_description (at_tool row)) as [[|c rest]|]|].
    by destruct (tool_inputSchema (at_tool row)). }
  split; [apply buildToolDefinitions_described|].
  rewrite Htools. apply Forall_forall. intros row Hin.
  apply list_elem_of_In, List.filter_In in Hin as [Hin Hagent].
  apply String.eqb_eq in Hagent. by apply list_elem_of_In in Hin.
Qed.

(** ** The queries *)

Lemma insert_desc_elem p l x : x ∈ insert_desc p l <-> x = p \/ x ∈ l.
Proof.
  induction l as [|q rest IH]; cbn.
  - rewrite list_elem_of_singleton. split; [auto|]. intros [?|H]; [done|].
    by apply elem_of_nil in H.
  - destruct (sp_createdAt q <? sp_createdAt p)%Z.
    + by rewrite elem_of_cons.
    + rewrite !elem_of_cons, IH. tauto.
Qed.

Lemma insert_desc_sorted p l :
  StronglySorted newer_first l -> StronglySorted newer_first (insert_desc p l).
Proof.
  induction 1 as [|q rest Hsorted IH Hall]; cbn.
  - repeat constructor.
  - destruct (sp_createdAt q <? sp_createdAt p)%Z eqn:Hcmp.
    + apply Z.ltb_lt in Hcmp. constructor; [by constructor|].
      constructor; [unfold newer_first; lia|].
      eapply Forall_impl; [exact Hall|]. unfold newer_first. intros; lia.
    + apply Z.ltb_ge in Hcmp. constructor; [done|].
      apply Forall_forall. intros x Hx. apply insert_desc_elem in Hx as [->|Hx]; [done|].
      rewrite Forall_forall in Hall. by apply Hall.
Qed.

Lemma orderBy_createdAt_desc_elem l x : x ∈ orderBy_createdAt_desc l <-> x ∈ l.
Proof.
  unfold orderBy_createdAt_desc. induction l as [|p rest IH]; cbn; [done|].
  rewrite insert_desc_elem, elem_of_cons, IH. done.
Qed.

Lemma orderBy_createdAt_desc_sorted l :
  StronglySorted newer_first (orderBy_createdAt_desc l).
Proof.
  unfold orderBy_createdAt_desc. induction l as [|p rest IH]; cbn; [constructor|].
  by apply insert_desc_sorted.
Qed.

(** X13.  The agent that [execute] loads is the first stored agent with the
    id asked for, and the system prompt loaded with it is the newest active
    prompt of that agent: none only when the agent has no active prompt,
    otherwise one active prompt of the agent than which no active prompt of
    the agent was created later.  Prompts of other agents and prompts that
    are not active are never loaded. *)
Theorem findUnique_agent_loads_newest_active_prompt
    (db : Database) (id : string) (found : AgentWithRelations) :
  findUnique_agent db id = Some found ->
  agent found ∈ agents db
  /\ a_id (agent found) = id
  /\ match systemPrompts found with
     | [] =>
         forall p, p ∈ agentSystemPrompts db -> sp_agentId p = id ->
                   sp_status p <> "active"
     | [newest] =>
         newest ∈ agentSystemPrompts db
         /\ sp_agentId newest = id
         /\ sp_status newest = "active"
         /\ forall p, p ∈ agentSystemPrompts db -> sp_agentId p = id ->
                      sp_status p = "active" ->
                      (sp_createdAt p <= sp_createdAt newest)%Z
     | _ :: _ :: _ => False
     end.
Proof.
  unfold findUnique_agent.
  destruct (List.find _ (agents db)) as [a|] eqn:Hfind; [|done].
  intros [= <-]. cbn.
  apply List.find_some in Hfind as [Hin Hid]. apply String.eqb_eq in Hid.
  split; [by apply list_elem_of_In|]. split; [done|].
  set (active := List.filter _ (agentSystemPrompts db)).
  assert (Hactive : forall p, p ∈ active <->
            p ∈ agentSystemPrompts db /\ sp_agentId p = id /\ sp_status p = "active").
  { intros p. unfold active. rewrite !list_elem_of_In, List.filter_In.
    rewrite andb_true_iff, !String.eqb_eq. tauto. }
  pose proof (orderBy_createdAt_desc_sorted active) as Hsorted.
  pose proof (orderBy_createdAt_desc_elem active) as Helem.
  destruct (orderBy_createdAt_desc active) as [|newest others]; cbn.
  - intros p Hp Hagent Hstatus.
    assert (p ∈ active) as Habsurd by (apply Hactive; done).
    apply Helem in Habsurd. by apply elem_of_nil in Habsurd.
  - rewrite take_0.
    assert (newest ∈ active) as Hnewest by (apply Helem, list_elem_of_here).
    apply Hactive in Hnewest as (? & ? & ?).
    split; [done|]. split; [done|]. split; [done|].
    intros p Hp Hagent Hstatus.
    assert (p ∈ active) as Hmember by (apply Hactive; done).
    apply Helem, elem_of_cons in Hmember as [->|Hmember]; [lia|].
    apply StronglySorted_inv in Hsorted as [_ Hall].
    rewrite Forall_forall in Hall. by apply Hall.
Qed.

(** X14.  Context retrieval stays in scope.  At most five documents and five
    memories are retrieved, so at most ten snippets are added to the prompt.
    Every retrieved document is stored and is either bound to the agent or
    bound to no agent and owned by the organisation of the run; every
    retrieved memory is stored, belongs to the agent and has scope [agent] or
    [global].  The user input plays no part in what is retrieved. *)
Theorem retrieveContext_stays_in_scope
    (db : Database) (agentId organizationId query : string) :
  let contextDocs := findMany_contextDocument db agentId organizationId in
  let memories := findMany_agentMemory db agentId in
  List.length contextDocs <= 5
  /\ List.length memories <= 5
  /\ List.length (retrieveContext db agentId organizationId query) <= 10
  /\ Forall (fun doc =>
               doc ∈ contextDocuments db
               /\ (doc_agentId doc = Some agentId
                   \/ (doc_agentId doc = None /\ doc_organizationId doc = organizationId)))
            contextDocs
  /\ Forall (fun memory =>
               memory ∈ agentMemories db
               /\ mem_agentId memory = agentId
               /\ (mem_scope memory = "agent" \/ mem_scope memory = "global"))
            memories
  /\ forall other,
       retrieveContext db agentId organizationId other
       = retrieveContext db agentId organizationId query.
Proof.
  cbv zeta.
  split; [unfold findMany_contextDocument; rewrite length_take; lia|].
  split; [unfold findMany_agentMemory; rewrite length_take; lia|].
  split; [apply retrieveContext_bounded|].
  split; [|split; [|done]].
  - apply Forall_forall. intros doc Hin.
    unfold findMany_contextDocument in Hin.
    assert (Hkept : doc ∈ List.filter
              (fun d => option_string_eqb (doc_agentId d) agentId
                        || (String.eqb (doc_organizationId d) organizationId
                            && match doc_agentId d with None => true | Some _ => false end))
              (contextDocuments db)).
    { eapply elem_of_sublist; [exact Hin|apply sublist_take]. }
    apply list_elem_of_In, List.filter_In in Hkept as [Hstored Hwhere].
    split; [by apply list_elem_of_In|].
    apply orb_true_iff in Hwhere as [Hagent|Horg].
    + left. unfold option_string_eqb in Hagent.
      destruct (doc_agentId doc) as [bound|]; [|done].
      apply String.eqb_eq in Hagent. by subst.
    + right. apply andb_true_iff in Horg as [Horg Hnone].
      apply String.eqb_eq in Horg. by destruct (doc_agentId doc).
  - apply Forall_forall. intros memory Hin.
    unfold findMany_agentMemory in Hin.
    assert (Hkept : memory ∈ List.filter
              (fun m => String.eqb (mem_agentId m) agentId
                        && (String.eqb (mem_scope m) "agent"
                            || String.eqb (mem_scope m) "global"))
              (agentMemories db)).
    { eapply elem_of_sublist; [exact Hin|apply sublist_take]. }
    apply list_elem_of_In, List.filter_In in Hkept as [Hstored Hwhere].
    split; [by apply list_elem_of_In|].
    apply andb_true_iff in Hwhere as [Hagent Hscope].
    apply String.eqb_eq in Hagent. split; [done|].
    apply orb_true_iff in Hscope as [Hscope|Hscope]; apply String.eqb_eq in Hscope; auto.
Qed.

(** ** The model service *)

Lemma prefix_spec sub : forall s,
  String.prefix sub s = true <-> exists after, s = sub +:+ after.
Proof.
  induction sub as [|c sub IH]; intros s; cbn.
  - split; [intros _; by exists s|by destruct s].
  - destruct s as [|d s]; cbn.
    + split; [done|]. by intros [after [=]].
    + destruct (ascii_dec c d) as [->|Hne].
      * rewrite IH. split; intros [after Hafter]; exists after.
        -- change (String d s = String d (sub +:+ after)). by f_equal.
        -- change (String d s = String d (sub +:+ after)) in Hafter. by injection Hafter.
      * split; [done|]. intros [after Hafter].
        change (String d s = String c (sub +:+ after)) in Hafter. congruence.
Qed.

Lemma includes_spec sub : forall s, includes s sub = true <-> contains s sub.
Proof.
  induction s as [|c s IH]; cbn [includes].
  - rewrite orb_false_r, prefix_spec. split.
    + intros [after Hafter]. by exists EmptyString, after.
    + intros (before & after & Hs). destruct before as [|b before]; [by exists after|].
      change (EmptyString = String b (before +:+ sub +:+ after)) in Hs. done.
  - rewrite orb_true_iff, prefix_spec, IH. split.
    + intros [[after Hafter]|(before & after & Hs)].
      * by exists EmptyString, after.
      * exists (String c before), after.
        change (String c s = String c (before +:+ sub +:+ after)). by f_equal.
    + intros (before & after & Hs). destruct before as [|b before].
      * left. by exists after.
      * right. exists before, after.
        change (String c s = String b (before +:+ sub +:+ after)) in Hs. by injection Hs.
Qed.

(** X15.  [getProvider] routes by the alias first: an alias in which [claude]
    occurs goes to the Anthropic provider, whatever [LLM_PROVIDER] says and
    even when [gpt] occurs in it too; an alias in which only [gpt] occurs goes
    to the OpenAI provider; any other alias is routed as a missing one.  A
    missing alias goes to the provider that [LLM_PROVIDER] names, to
    Anthropic when the setting is missing or empty, and is refused with
    [Provider <name> not configured] when the setting names neither. *)
Theorem getProvider_routes_by_alias (config : LlmService.Config) (alias : string) :
  (contains alias "claude" ->
   LlmService.getProvider config (Some alias) = Returned LlmService.anthropicProvider)
  /\ (~ contains alias "claude" -> contains alias "gpt" ->
      LlmService.getProvider config (Some alias) = Returned LlmService.openaiProvider)
  /\ (~ contains alias "claude" -> ~ contains alias "gpt" ->
      LlmService.getProvider config (Some alias) = LlmService.getProvider config None)
  /\ LlmService.getProvider config None
     = match LlmService.LLM_PROVIDER config with
       | None | Some EmptyString => Returned LlmService.anthropicProvider
       | Some name =>
           if String.eqb name "anthropic" then Returned LlmService.anthropicProvider
           else if String.eqb name "openai" then Returned LlmService.openaiProvider
           else Thrown (Rejection (Js.Error ("Provider " +:+ name +:+ " not configured")))
       end.
Proof.
  unfold LlmService.getProvider.
  split; [|split; [|split]].
  - intros Hclaude. destruct alias as [|c rest].
    { destruct Hclaude as ([|b before] & after & Hs); done. }
    apply includes_spec in Hclaude. by rewrite Hclaude.
  - intros Hclaude Hgpt. destruct alias as [|c rest].
    { destruct Hgpt as ([|b before] & after & Hs); done. }
    apply includes_spec in Hgpt. rewrite Hgpt.
    destruct (includes (String c rest) "claude") eqn:E; [|done].
    by apply includes_spec in E.
  - intros Hclaude Hgpt. destruct alias as [|c rest]; [done|].
    destruct (includes (String c rest) "claude") eqn:E1.
    { by apply includes_spec in E1. }
    destruct (includes (String c rest) "gpt") eqn:E2; [|done].
    by apply includes_spec in E2.
  - destruct (LlmService.LLM_PROVIDER config) as [[|c name]|]; cbn [Js.or_else]; [done| |done].
    unfold LlmService.providers_get.
    destruct (String.eqb (String c name) "anthropic"); [done|].
    by destruct (String.eqb (String c name) "openai").
Qed.

(** ** The Anthropic provider *)

Lemma parse_blocks_spec blocks : forall content toolCalls,
  List.fold_left AnthropicProvider.parse_block blocks (content, toolCalls)
  = (content +:+ texts blocks, toolCalls ++ tool_uses blocks).
Proof.
  induction blocks as [|block blocks IH]; intros content toolCalls; cbn.
  - by rewrite append_empty_r, app_nil_r.
  - destruct block as [text|id name input|]; cbn; rewrite IH; unfold tool_uses; cbn.
    + by rewrite append_assoc.
    + by rewrite <- app_assoc.
    + done.
Qed.

Lemma response_of_spec response :
  AnthropicProvider.response_of response
  = {| gr_content := texts (AnthropicProvider.r_content response);
       gr_toolCalls := match tool_uses (AnthropicProvider.r_content response) with
                       | [] => None
                       | toolCalls => Some toolCalls
                       end;
       gr_finishReason :=
         AnthropicProvider.mapFinishReason (AnthropicProvider.r_stop_reason response);
       gr_usage := {| inputTokens := AnthropicProvider.r_input_tokens response;
                      outputTokens := AnthropicProvider.r_output_tokens response;
                      totalTokens := AnthropicProvider.r_input_tokens response
                                     + AnthropicProvider.r_output_tokens response |} |}.
Proof.
  unfold AnthropicProvider.response_of. rewrite parse_blocks_spec. cbn [app].
  by destruct (tool_uses (AnthropicProvider.r_content response)).
Qed.

Lemma mapFinishReason_by_no_error stops tools lengths reason :
  mapFinishReason_by stops tools lengths reason <> error_reason.
Proof.
  unfold mapFinishReason_by. destruct reason as [r|]; [|done].
  destruct (String.eqb r stops); [done|].
  destruct (String.eqb r tools); [done|].
  by destruct (String.eqb r lengths).
Qed.

(** X16.  The response that the Anthropic provider builds: its content is the
    texts of the [text] blocks, concatenated in order; its tool calls are the
    [tool_use] blocks, in order, with the id and the name of the block and
    the block's input serialised as the arguments; [toolCalls] is left unset
    when there is no such block and is never an empty array, so the
    orchestrator goes on to execute tools exactly when the answer holds a
    [tool_use] block; blocks of other types are dropped.  [totalTokens] is
    the sum of the two counts, and the finish reason is never ['error']. *)
Theorem anthropic_response_follows_blocks (response : AnthropicProvider.Response) :
  let blocks := AnthropicProvider.r_content response in
  let built := AnthropicProvider.response_of response in
  gr_content built = texts blocks
  /\ requested built = tool_uses blocks
  /\ gr_toolCalls built <> Some []
  /\ (requests_tools built = true <->
      exists id name input, AnthropicProvider.ToolUseBlock id name input ∈ blocks)
  /\ List.map tc_id (requested built)
     = List.concat (List.map (fun block =>
                                match block with
                                | AnthropicProvider.ToolUseBlock id _ _ => [id]
                                | _ => []
                                end) blocks)
  /\ totalTokens (gr_usage built)
     = (inputTokens (gr_usage built) + outputTokens (gr_usage built))%Z
  /\ gr_finishReason built <> error_reason.
Proof.
  cbv zeta. rewrite response_of_spec.
  set (blocks := AnthropicProvider.r_content response).
  assert (Hsome : forall id name input,
            AnthropicProvider.ToolUseBlock id name input ∈ blocks ->
            tool_uses blocks <> []).
  { intros id name input Hin Hnone.
    assert (Hmember : {| tc_id := id; tc_name := name;
                         tc_arguments := default "undefined" (Js.stringify input) |}
                      ∈ tool_uses blocks).
    { unfold tool_uses. apply list_elem_of_In, List.in_concat.
      eexists. split.
      - apply List.in_map_iff. eexists. split; [reflexivity|].
        apply list_elem_of_In. exact Hin.
      - cbn. by left. }
    rewrite Hnone in Hmember. by apply elem_of_nil in Hmember. }
  assert (Hblock : tool_uses blocks <> [] ->
            exists id name input, AnthropicProvider.ToolUseBlock id name input ∈ blocks).
  { clear Hsome. induction blocks as [|block blocks IH]; [done|].
    destruct block as [text|id name input|].
    - intros Hne. destruct (IH Hne) as (id & name & input & Hin).
      exists id, name, input. by apply list_elem_of_further.
    - intros _. exists id, name, input. apply list_elem_of_here.
    - intros Hne. destruct (IH Hne) as (id & name & input & Hin).
      exists id, name, input. by apply list_elem_of_further. }
  unfold requested, requests_tools. cbn.
  split; [done|].
  split; [by destruct (tool_uses blocks)|].
  split; [by destruct (tool_uses blocks)|].
  split.
  { destruct (tool_uses blocks) as [|toolCall rest] eqn:Huses.
    - split; [done|]. intros (id & name & input & Hin). by destruct (Hsome _ _ _ Hin).
    - split; [|done]. intros _. by apply Hblock. }
  split.
  { assert (Hids : List.map tc_id (tool_uses blocks)
                   = List.concat (List.map (fun block =>
                                    match block with
                                    | AnthropicProvider.ToolUseBlock id _ _ => [id]
                                    | _ => []
                                    end) blocks)).
    { clear. induction blocks as [|block blocks IH]; [done|].
      unfold tool_uses in *. destruct block; cbn; by rewrite ?IH. }
    rewrite <- Hids. by destruct (tool_uses blocks). }
  split; [done|]. apply mapFinishReason_by_no_error.
Qed.

(** X17.  The request that the Anthropic provider sends.  System messages are
    taken out of the conversation; the other messages are sent one for one,
    in order, each with its content, a [user] message under the role [user],
    an [assistant] message under the role [assistant] and a [tool] message
    under the role [user]: only the roles [user] and [assistant] are sent.  The system instruction is
    [options.systemPrompt] when that is a non-empty string, otherwise the
    content of the first system message of the conversation, and is left out
    when that is empty or missing too.  Tools are sent only when there is at
    least one, and [toolChoice] plays no part in the request. *)
Theorem anthropic_request_parameters (sampling : Sampling) (options : GenerateOptions) :
  let params := AnthropicProvider.params_of sampling options in
  let kept := AnthropicProvider.filterSystemMessages (go_messages options) in
  kept = List.filter (fun m => match role m with system => false | _ => true end)
                     (go_messages options)
  /\ Forall2
       (fun m sent =>
          AnthropicProvider.mp_content sent = content m
          /\ AnthropicProvider.mp_role sent
             = match role m with
               | tool => user
               | user => user
               | assistant => assistant
               | system => system
               end)
       kept (AnthropicProvider.p_messages params)
  /\ Forall (fun m => AnthropicProvider.mp_role m = user
                      \/ AnthropicProvider.mp_role m = assistant)
            (AnthropicProvider.p_messages params)
  /\ List.map AnthropicProvider.mp_content (AnthropicProvider.p_messages params)
     = List.map content kept
  /\ kept `sublist_of` go_messages options
  /\ Forall (fun m => role m <> system) kept
  /\ (forall m, m ∈ go_messages options -> role m <> system -> m ∈ kept)
  /\ AnthropicProvider.p_system params
     = match go_systemPrompt options with
       | Some (String c rest) => Some (String c rest)
       | _ =>
           match AnthropicProvider.extractSystemPrompt (go_messages options) with
           | EmptyString => None
           | found => Some found
           end
       end
  /\ (AnthropicProvider.p_tools params = None <-> has_tools options = false)
  /\ forall toolChoice,
       AnthropicProvider.params_of sampling (with_toolChoice options toolChoice) = params.
Proof.
  cbv zeta. unfold AnthropicProvider.params_of. cbn.
  split.
  { unfold AnthropicProvider.filterSystemMessages, is_system.
    induction (go_messages options) as [|m rest IH]; cbn; [done|].
    rewrite IH. by destruct (role m). }
  split.
  { unfold AnthropicProvider.convertMessages.
    induction (AnthropicProvider.filterSystemMessages (go_messages options))
      as [|m rest IH]; cbn [List.map]; constructor; [|exact IH].
    cbn. split; [done|]. by destruct (role m). }
  split.
  { unfold AnthropicProvider.convertMessages, AnthropicProvider.filterSystemMessages.
    apply Forall_forall. intros m Hin.
    apply list_elem_of_In, List.in_map_iff in Hin as (msg & <- & Hin).
    apply List.filter_In in Hin as [_ Hkept]. unfold is_system in Hkept. cbn.
    destruct (role msg); auto; done. }
  split.
  { unfold AnthropicProvider.convertMessages. by rewrite List.map_map. }
  split.
  { unfold AnthropicProvider.filterSystemMessages.
    induction (go_messages options) as [|m rest IH]; cbn; [done|].
    destruct (negb (is_system m)); [by apply sublist_skip|by apply sublist_cons]. }
  split.
  { apply Forall_forall. intros m Hin.
    apply list_elem_of_In, List.filter_In in Hin as [_ Hkept].
    unfold is_system in Hkept. by destruct (role m). }
  split.
  { intros m Hin Hrole. apply list_elem_of_In, List.filter_In.
    split; [by apply list_elem_of_In|]. unfold is_system. by destruct (role m). }
  split.
  { destruct (go_systemPrompt options) as [[|c rest]|]; cbn; try done;
      by destruct (AnthropicProvider.extractSystemPrompt (go_messages options)). }
  split.
  { destruct (has_tools options); split; done. }
  done.
Qed.

(** ** Model names *)

Lemma modelMap_or_alias_spec modelMap alias :
  alias ∉ List.map fst modelMap ->
  modelMap_or_alias modelMap alias
  = if List.existsb (String.eqb alias) object_prototype_members
    then PrototypeMember alias else ModelName alias.
Proof.
  intros Hfresh. unfold modelMap_or_alias.
  destruct (List.find _ modelMap) as [entry|] eqn:Hfind; [|done].
  apply List.find_some in Hfind as [Hin Hkey]. apply String.eqb_eq in Hkey.
  destruct Hfresh. subst alias. apply list_elem_of_In, List.in_map, Hin.
Qed.

Lemma existsb_eqb_spec alias names :
  List.existsb (String.eqb alias) names = true <-> alias ∈ names.
Proof.
  rewrite List.existsb_exists. split.
  - intros (name & Hin & Heq). apply String.eqb_eq in Heq. subst.
    by apply list_elem_of_In.
  - intros Hin. exists alias. split; [by apply list_elem_of_In|apply String.eqb_refl].
Qed.

Lemma resolves_table (getModel : option string -> ModelId)
    (modelMap : list (string * string)) (fallback : string) :
  (forall alias, getModel alias
                 = match alias with
                   | Some (String c rest) => modelMap_or_alias modelMap (String c rest)
                   | _ => ModelName fallback
                   end) ->
  fallback <> EmptyString ->
  modelMap_or_alias modelMap fallback = ModelName fallback ->
  Forall (fun entry =>
            fst entry <> EmptyString /\ snd entry <> EmptyString
            /\ modelMap_or_alias modelMap (fst entry) = ModelName (snd entry)
            /\ modelMap_or_alias modelMap (snd entry) = ModelName (snd entry)) modelMap ->
  Forall (fun member => member <> EmptyString /\ member ∉ List.map fst modelMap)
         object_prototype_members ->
  resolves getModel modelMap fallback.
Proof.
  intros HgetModel Hfallback Hdefault Htable Hmembers.
  assert (Hnonempty : forall alias, alias <> EmptyString ->
            getModel (Some alias) = modelMap_or_alias modelMap alias).
  { intros [|c rest] Hne; [done|]. by rewrite HgetModel. }
  split; [by rewrite HgetModel|]. split; [by rewrite HgetModel|].
  split.
  { eapply Forall_impl; [exact Htable|]. intros [key name] (Hkey & _ & Hmapped & _).
    cbn in *. by rewrite Hnonempty. }
  intros alias.
  split.
  { intros Hmember. rewrite Forall_forall in Hmembers.
    destruct (Hmembers alias Hmember) as [Hne Hfresh].
    rewrite (Hnonempty alias Hne), (modelMap_or_alias_spec _ _ Hfresh).
    apply existsb_eqb_spec in Hmember. by rewrite Hmember. }
  split.
  { intros Hne Hfresh Hmember.
    rewrite (Hnonempty alias Hne), (modelMap_or_alias_spec _ _ Hfresh).
    destruct (List.existsb _ object_prototype_members) eqn:E; [|done].
    by apply existsb_eqb_spec in E. }
  intros name Hname.
  destruct (String.eqb alias EmptyString) eqn:Hempty.
  { apply String.eqb_eq in Hempty. subst alias. rewrite HgetModel in Hname.
    injection Hname as <-. split; [done|]. by rewrite Hnonempty. }
  apply String.eqb_neq in Hempty. rewrite (Hnonempty alias Hempty) in Hname.
  unfold modelMap_or_alias in Hname.
  destruct (List.find _ modelMap) as [entry|] eqn:Hfind.
  - injection Hname as <-.
    apply List.find_some in Hfind as [Hin _]. apply list_elem_of_In in Hin.
    rewrite Forall_forall in Htable. destruct (Htable entry Hin) as (_ & Hne & _ & Hidem).
    split; [done|]. by rewrite Hnonempty.
  - destruct (List.existsb _ object_prototype_members) eqn:E; [done|].
    injection Hname as <-. split; [done|].
    rewrite (Hnonempty alias Hempty). unfold modelMap_or_alias. by rewrite Hfind, E.
Qed.

Lemma members_outside (modelMap : list (string * string)) :
  forallb (fun member =>
             negb (String.eqb member EmptyString)
             && negb (List.existsb (String.eqb member) (List.map fst modelMap)))
          object_prototype_members = true ->
  Forall (fun member => member <> EmptyString /\ member ∉ List.map fst modelMap)
         object_prototype_members.
Proof.
  intros Hall. apply Forall_forall. intros member Hin.
  rewrite List.forallb_forall in Hall.
  specialize (Hall member (proj1 (list_elem_of_In _ _) Hin)).
  apply andb_true_iff in Hall as [Hne Hfresh].
  apply negb_true_iff in Hne, Hfresh. apply String.eqb_neq in Hne.
  split; [done|]. intros Hkey. apply existsb_eqb_spec in Hkey. congruence.
Qed.

(** X18.  [getModel] of either provider: a missing or empty alias gives the
    provider's default model; an alias of the provider's table gives the model
    of the table; any other alias is passed on unchanged as the model name,
    so the result is never empty and resolving it again changes nothing.
    The one exception is an alias that names a member of [Object.prototype]
    ([constructor], [toString], ...): the lookup in the table finds the
    inherited member, and that, not a model name, is what is returned. *)
Theorem getModel_resolves_aliases :
  resolves AnthropicProvider.getModel AnthropicProvider.modelMap
           "claude-3-5-sonnet-20241022"
  /\ resolves OpenAIProvider.getModel OpenAIProvider.modelMap "gpt-4-turbo-preview".
Proof.
  split; apply resolves_table;
    try (intros [[|c rest]|]; reflexivity);
    try done;
    try (repeat constructor; done);
    by apply members_outside.
Qed.

(** ** The OpenAI provider *)

(** The request that the OpenAI provider sends holds the conversation as it
    is, system and tool messages included, and nothing of
    [options.systemPrompt]: two requests that differ in the system prompt
    only are sent alike.  Tools are sent only when there is at least one, and
    [toolChoice] only together with them. *)
Lemma openai_request_leaves_out_systemPrompt
    (sampling : Sampling) (options : GenerateOptions) :
  let params := OpenAIProvider.params_of sampling options in
  OpenAIProvider.p_messages params = go_messages options
  /\ (forall systemPrompt,
        OpenAIProvider.params_of sampling (with_systemPrompt options systemPrompt)
        = params)
  /\ (OpenAIProvider.p_tools params = None <-> has_tools options = false)
  /\ (has_tools options = false -> OpenAIProvider.p_tool_choice params = None)
  /\ (has_tools options = true ->
      OpenAIProvider.p_tool_choice params = go_toolChoice options
      /\ exists definitions,
           go_tools options = Some definitions
           /\ List.map OpenAIProvider.fp_name
                       (default [] (OpenAIProvider.p_tools params))
              = List.map td_name definitions).
Proof.
  cbv zeta. unfold OpenAIProvider.params_of. cbn.
  split; [done|]. split; [done|].
  unfold has_tools.
  destruct (go_tools options) as [[|definition rest]|]; cbn;
    (split; [split; done|]); (split; [done|]); try done.
  intros _. split; [done|]. eexists. split; [done|].
  cbn. f_equal. unfold OpenAIProvider.convertTools. by rewrite List.map_map.
Qed.

(** X20.  What the OpenAI provider makes of the vendor's answer.  Without a
    client (no API key) and on an answer without choices, [generate] throws a
    [TypeError]; a rejection of the vendor call is passed on.  Otherwise the
    first choice alone is read: a missing or empty content becomes the empty
    string, the tool calls are handed on as they came, each token count that
    is missing becomes 0, [totalTokens] is the vendor's own total, and the
    finish reason is never ['error']. *)
Theorem openai_response_reads_first_choice
    (client : Client OpenAIProvider.Params OpenAIProvider.Response)
    (sampling : Sampling) (earlier : list LlmCall) (options : GenerateOptions) :
  match client with
  | None => OpenAIProvider.generate client sampling earlier options = Thrown TypeError
  | Some create =>
      match create earlier (OpenAIProvider.params_of sampling options) with
      | Thrown e => OpenAIProvider.generate client sampling earlier options = Thrown e
      | Returned response =>
          match OpenAIProvider.r_choices response with
          | [] => OpenAIProvider.generate client sampling earlier options = Thrown TypeError
          | choice :: _ =>
              exists built,
                OpenAIProvider.generate client sampling earlier options = Returned built
                /\ gr_content built = default EmptyString (OpenAIProvider.c_content choice)
                /\ gr_toolCalls built = OpenAIProvider.c_tool_calls choice
                /\ gr_finishReason built <> error_reason
                /\ match OpenAIProvider.r_usage response with
                   | None => gr_usage built
                             = {| inputTokens := 0; outputTokens := 0; totalTokens := 0 |}
                   | Some counts =>
                       inputTokens (gr_usage built)
                       = default 0%Z (OpenAIProvider.prompt_tokens counts)
                       /\ outputTokens (gr_usage built)
                          = default 0%Z (OpenAIProvider.completion_tokens counts)
                       /\ totalTokens (gr_usage built)
                          = default 0%Z (OpenAIProvider.total_tokens counts)
                   end
          end
      end
  end.
Proof.
  unfold OpenAIProvider.generate. destruct client as [create|]; [|done].
  destruct (create earlier _) as [response|e]; [|done].
  unfold OpenAIProvider.response_of.
  destruct (OpenAIProvider.r_choices response) as [|choice rest]; [done|].
  eexists. split; [done|]. cbn.
  split; [by destruct (OpenAIProvider.c_content choice) as [[|c text]|]|].
  split; [done|]. split; [apply mapFinishReason_by_no_error|].
  by destruct (OpenAIProvider.r_usage response).
Qed.

(** ** The conversations of a run *)

Section Conversations.

Variable llm : list LlmCall -> GenerateOptions -> Outcome GenerateResponse.

(** A property of messages that the messages made by the orchestrator have. *)
Variable Q : Message -> Prop.
Hypothesis Q_assistant : forall r, Q (assistant_message r).
Hypothesis Q_tool : forall entry, Q (tool_message entry).
Hypothesis Q_plan : forall plan, Q (plan_message plan).
Hypothesis Q_user : forall text, Q (user_message text).

Local Abbreviation conversations_keep calls :=
  (Forall (fun call => Forall Q (go_messages (request call))) calls).

Lemma Q_extended messages r toolResults :
  Forall Q messages ->
  Forall Q (messages ++ [assistant_message r] ++ List.map tool_message toolResults).
Proof.
  intros Hmessages. apply Forall_app. split; [done|].
  constructor; [apply Q_assistant|].
  apply Forall_forall. intros m Hin.
  apply list_elem_of_In, List.in_map_iff in Hin as (entry & <- & _). apply Q_tool.
Qed.

Lemma executeLoop_conversations options w :
  Forall Q (default [] (heap w !! lo_messages options)) ->
  exists new,
    llm_calls (executeLoop llm options w).2 = llm_calls w ++ new
    /\ conversations_keep new.
Proof.
  intros Hmessages. rewrite executeLoop_unfold.
  destruct (executeLoop_rounds_requests llm options
              (fun req => Forall Q (go_messages req))
              (fun vars => Forall Q (lv_currentMessages vars)))
    with (remaining := lo_maxSteps options)
         (vars := initial_vars (default [] (heap w !! lo_messages options))) (w := w)
    as (new & Hnew & Hall & _).
  { done. }
  { intros vars r toolResults Hvars. by apply Q_extended. }
  { done. }
  exists new.
  by destruct (executeLoop_rounds llm options _ _ w) as [[vars|e] w'].
Qed.

Lemma executeSingleStep_conversations options w :
  Forall Q (default [] (heap w !! ss_messages options)) ->
  exists new,
    llm_calls (executeSingleStep llm options w).2 = llm_calls w ++ new
    /\ conversations_keep new.
Proof.
  intros Hmessages. rewrite executeSingleStep_unfold. cbv zeta.
  set (messages := default [] (heap w !! ss_messages options)) in *.
  set (first := first_request options messages).
  destruct (llm (llm_calls w) first) as [r|e].
  2:{ exists [call_of first (Thrown e)]. split; [done|]. by constructor. }
  destruct (requests_tools r).
  2:{ exists [call_of first (Returned r)]. split; [done|]. by constructor. }
  pose proof (executeToolCalls_frame (ss_toolExecutors options) (ss_context options)
                (requested r) (logged w first (Returned r))) as [_ Hcalls].
  destruct (executeToolCalls _ _ _ (logged w first (Returned r)))
    as [[toolResults|e] w2]; cbn [snd] in Hcalls.
  2:{ exists [call_of first (Returned r)]. cbn [snd]. rewrite Hcalls.
      split; [done|]. by constructor. }
  set (second := second_request options messages r toolResults).
  exists [call_of first (Returned r); call_of second (llm (llm_calls w2) second)].
  assert (Forall Q (go_messages second)) by (by apply Q_extended).
  destruct (llm (llm_calls w2) second) as [r2|e]; cbn; rewrite Hcalls; cbn;
    rewrite <- app_assoc; (split; [done|]); by repeat constructor.
Qed.

Lemma executePlanAndExecute_conversations options w :
  Forall Q (default [] (heap w !! lo_messages options)) ->
  exists new,
    llm_calls (executePlanAndExecute llm options w).2 = llm_calls w ++ new
    /\ conversations_keep new.
Proof.
  intros Hmessages. rewrite executePlanAndExecute_explicit. cbv zeta.
  set (messages := default [] (heap w !! lo_messages options)) in *.
  set (planning := planning_request options messages).
  destruct (llm (llm_calls w) planning) as [plan|e].
  2:{ exists [call_of planning (Thrown e)]. split; [done|]. by constructor. }
  match goal with |- context [executeLoop llm ?o ?w2] =>
    destruct (executeLoop_conversations o w2) as (new & Hnew & Hall)
  end.
  { cbn [lo_messages with_messages heap]. rewrite lookup_insert_eq. cbn.
    apply Forall_app. split; [done|]. constructor; [apply Q_plan|constructor]. }
  exists (call_of planning (Returned plan) :: new).
  rewrite Hnew. cbn. rewrite <- app_assoc. split; [done|]. by constructor.
Qed.

Variable db : Database.

(** The conversation that [prepare] leaves: the caller's messages, then the
    user input. *)
Lemma prepare_conversation options w :
  exists messages w0,
    prepare options w = (Returned messages, w0)
    /\ llm_calls w0 = llm_calls w
    /\ heap w0 !! messages
       = Some (caller_messages options w ++ [user_message (input options)]).
Proof.
  unfold prepare, caller_messages, bind, ret, push, alloc.
  destruct (previousMessages options) as [array|]; cbn.
  - eexists _, _. split; [done|]. split; [done|]. cbn. by rewrite lookup_insert_eq.
  - eexists _, _. split; [done|]. split; [done|]. cbn.
    by rewrite !lookup_insert_eq.
Qed.

Lemma execute_conversations options found w :
  findUnique_agent db (agentId options) = Some found ->
  Forall Q (caller_messages options w) ->
  exists new,
    llm_calls (execute llm db options w).2 = llm_calls w ++ new
    /\ conversations_keep new.
Proof.
  intros Hfound Hcaller. rewrite (execute_found llm db options found w Hfound).
  unfold bind.
  destruct (prepare_conversation options w) as (messages & w0 & -> & Hcalls & Hheap).
  rewrite <- Hcalls.
  assert (Hconversation : Forall Q (default [] (heap w0 !! messages))).
  { rewrite Hheap. cbn. apply Forall_app. split; [done|].
    constructor; [apply Q_user|constructor]. }
  unfold strategy.
  destruct (String.eqb (a_planningMode (agent found)) "single_step").
  { destruct (executeSingleStep_conversations
                (single_step_options db found options messages) w0 Hconversation)
      as (new & Hnew & Hall).
    exists new. unfold bind.
    by destruct (executeSingleStep llm _ w0) as [[result|e] w']. }
  destruct (String.eqb (a_planningMode (agent found)) "loop_with_limits").
  { by apply executeLoop_conversations. }
  by apply executePlanAndExecute_conversations.
Qed.

End Conversations.

Lemma resolve_system_prompt_nonempty found : resolve_system_prompt found <> EmptyString.
Proof.
  unfold resolve_system_prompt.
  by destruct (sp_prompt <$> head (systemPrompts found)) as [[|c rest]|].
Qed.

(** Every call of a run carries a system prompt that starts with the prompt
    resolved for the agent. *)
Lemma execute_prompts llm db options found w :
  findUnique_agent db (agentId options) = Some found ->
  exists new,
    llm_calls (execute llm db options w).2 = llm_calls w ++ new
    /\ Forall (fun call =>
                 exists suffix,
                   go_systemPrompt (request call)
                   = Some (resolve_system_prompt found +:+ suffix)) new.
Proof.
  intros Hfound. rewrite (execute_found llm db options found w Hfound). unfold bind.
  destruct (prepare_returns options w) as (messages & w0 & earlier & -> & Hcalls & _).
  destruct (strategy_requests llm db found options messages w0)
    as (new & Hnew & _ & Hall & _).
  exists new. rewrite Hnew, Hcalls. split; [done|].
  eapply Forall_impl; [exact Hall|].
  intros call (_ & [suffix Hprompt] & _).
  destruct (buildEnhancedSystemPrompt_extends (resolve_system_prompt found)
              (retrieveContext db (agentId options) (organizationId options)
                               (input options))) as [context Hcontext].
  exists (context +:+ suffix). rewrite Hprompt. unfold enhanced_prompt.
  by rewrite Hcontext, append_assoc.
Qed.

Lemma filterSystemMessages_none messages :
  Forall not_system messages ->
  AnthropicProvider.filterSystemMessages messages = messages.
Proof.
  unfold AnthropicProvider.filterSystemMessages, not_system, is_system.
  induction 1 as [|m rest Hm Hrest IH]; cbn; [done|].
  rewrite IH. by destruct (role m).
Qed.

(** X19.  Where the system prompt of a run goes.  Let the caller's messages
    hold no system message.  Then no conversation that the run sends to the
    model holds one: the prompt of the agent, with the retrieved context,
    travels in [options.systemPrompt] only, on every call.  The Anthropic
    provider sends it as the system instruction, with the whole
    conversation.  The OpenAI provider sends the conversation alone, so a run
    routed to it reaches the model without the agent's prompt and without the
    retrieved context. *)
Theorem execute_system_prompt_reaches_anthropic_only
    (llm : list LlmCall -> GenerateOptions -> Outcome GenerateResponse)
    (db : Database) (options : AgentExecutionOptions) (w : World)
    (found : AgentWithRelations) (sampling : Sampling) :
  findUnique_agent db (agentId options) = Some found ->
  Forall not_system (caller_messages options w) ->
  exists new,
    llm_calls (execute llm db options w).2 = llm_calls w ++ new
    /\ Forall
         (fun call =>
            let anthropic := AnthropicProvider.params_of sampling (request call) in
            let openai := OpenAIProvider.params_of sampling (request call) in
            (exists suffix,
               go_systemPrompt (request call)
               = Some (resolve_system_prompt found +:+ suffix)
               /\ AnthropicProvider.p_system anthropic
                  = Some (resolve_system_prompt found +:+ suffix))
            /\ List.map AnthropicProvider.mp_content
                        (AnthropicProvider.p_messages anthropic)
               = List.map content (go_messages (request call))
            /\ OpenAIProvider.p_messages openai = go_messages (request call)
            /\ Forall not_system (OpenAIProvider.p_messages openai)
            /\ openai
               = OpenAIProvider.params_of sampling (with_systemPrompt (request call) None))
         new.
Proof.
  intros Hfound Hcaller.
  destruct (execute_prompts llm db options found w Hfound) as (new & Hnew & Hprompts).
  destruct (execute_conversations llm not_system) with (db := db) (options := options)
    (found := found) (w := w) as (new' & Hnew' & Hkeep); try done.
  rewrite Hnew in Hnew'. apply app_inv_head in Hnew' as <-.
  exists new. split; [done|].
  apply Forall_forall. intros call Hin.
  rewrite Forall_forall in Hprompts, Hkeep.
  destruct (Hprompts call Hin) as [suffix Hprompt]. specialize (Hkeep call Hin).
  cbv zeta. split.
  { exists suffix. split; [done|].
    unfold AnthropicProvider.params_of. cbn. rewrite Hprompt.
    pose proof (resolve_system_prompt_nonempty found) as Hne.
    destruct (resolve_system_prompt found) as [|c rest]; [done|]. reflexivity. }
  split.
  { unfold AnthropicProvider.params_of, AnthropicProvider.convertMessages. cbn.
    by rewrite List.map_map, filterSystemMessages_none. }
  done.
Qed.

(** ** Runs on the model service *)

(** A run whose first model call fails: it fails with that call, after that
    call alone, and no tool is invoked. *)
Lemma execute_first_call_fails llm db options found w e :
  findUnique_agent db (agentId options) = Some found ->
  (forall earlier req,
     go_modelAlias req = resolve_model_alias found -> llm earlier req = Thrown e) ->
  exists call w',
    execute llm db options w = (Thrown e, w')
    /\ llm_calls w' = llm_calls w ++ [call]
    /\ go_modelAlias (request call) = resolve_model_alias found
    /\ response call = Thrown e
    /\ tool_invocations w' = tool_invocations w.
Proof.
  intros Hfound Hfails. rewrite (execute_found llm db options found w Hfound).
  unfold bind.
  pose proof (prepare_invokes_nothing options w) as Hquiet.
  destruct (prepare_returns options w) as (messages & w0 & earlier & Hprepare & Hcalls & _).
  rewrite Hprepare in Hquiet |- *. cbn [snd] in Hquiet.
  rewrite <- Hcalls, <- Hquiet. unfold strategy.
  destruct (String.eqb (a_planningMode (agent found)) "single_step").
  { unfold bind. rewrite executeSingleStep_unfold. cbv zeta.
    rewrite Hfails by done. eexists _, _. split; [done|]. done. }
  pose proof (maxSteps_or_default_positive (a_maxSteps (agent found))) as Hpositive.
  destruct (String.eqb (a_planningMode (agent found)) "loop_with_limits").
  { rewrite executeLoop_unfold. cbn [lo_maxSteps loop_options].
    destruct (maxSteps_or_default (a_maxSteps (agent found))) as [|remaining]; [lia|].
    rewrite executeLoop_rounds_S. cbv zeta.
    rewrite Hfails by done. eexists _, _. split; [done|]. done. }
  rewrite executePlanAndExecute_explicit. cbv zeta.
  rewrite Hfails by done. eexists _, _. split; [done|]. done.
Qed.

(** X21.  A run needs the API key of the provider that its alias is routed
    to.  Without it the provider has no client and the first model call of
    the run throws a [TypeError]: the run fails with it after that one call,
    with no tool invoked, and the cause is not reported as a provider that is
    not configured.  An agent with no alias of its own is routed to
    Anthropic, whatever [LLM_PROVIDER] says. *)
Theorem execute_needs_the_api_key
    (config : LlmService.Config) (sampling : Sampling)
    (db : Database) (options : AgentExecutionOptions) (w : World)
    (found : AgentWithRelations) :
  findUnique_agent db (agentId options) = Some found ->
  routed_without_client config (resolve_model_alias found) ->
  (exists call w',
     execute (LlmService.generate config sampling) db options w = (Thrown TypeError, w')
     /\ llm_calls w' = llm_calls w ++ [call]
     /\ response call = Thrown TypeError
     /\ tool_invocations w' = tool_invocations w)
  /\ (a_defaultModelAlias (agent found) = None \/
      a_defaultModelAlias (agent found) = Some EmptyString ->
      LlmService.getProvider config (Some (resolve_model_alias found))
      = Returned LlmService.anthropicProvider).
Proof.
  intros Hfound Hrouted. split.
  - destruct (execute_first_call_fails (LlmService.generate config sampling)
                db options found w TypeError Hfound)
      as (call & w' & Hrun & Hcalls & _ & Hresponse & Hquiet).
    { intros earlier req Halias. unfold LlmService.generate. rewrite Halias.
      destruct Hrouted as [[-> Hclient]|[-> Hclient]].
      - unfold AnthropicProvider.generate. by rewrite Hclient.
      - unfold OpenAIProvider.generate. by rewrite Hclient. }
    by exists call, w'.
  - intros Hnone. unfold resolve_model_alias.
    destruct Hnone as [-> | ->]; reflexivity.
Qed.

(** ** [chunkText] *)

Lemma list_ascii_of_string_append (a b : string) :
  list_ascii_of_string (a +:+ b) = list_ascii_of_string a ++ list_ascii_of_string b.
Proof.
  induction a as [|c a IH]; [done|].
  change (c :: list_ascii_of_string (a +:+ b)
          = c :: (list_ascii_of_string a ++ list_ascii_of_string b)).
  by f_equal.
Qed.

Lemma string_length_list (s : string) :
  String.length s = List.length (list_ascii_of_string s).
Proof. induction s as [|c s IH]; cbn; [done|by f_equal]. Qed.

Lemma substring_take_drop : forall (s : string) (i m : nat),
  list_ascii_of_string (String.substring i m s)
  = take m (drop i (list_ascii_of_string s)).
Proof.
  induction s as [|c s IH]; intros [|i] [|m]; cbn; rewrite ?IH; done.
Qed.

Lemma chunkText_from_spec (text : string) (n : nat) :
  1 <= n ->
  forall rounds i chunks,
    String.length text - i <= rounds ->
    exists pieces,
      ChatGateway.chunkText_from rounds text i n chunks = Some (chunks ++ pieces)
      /\ list_ascii_of_string (joined pieces) = drop i (list_ascii_of_string text)
      /\ Forall (fun piece => 1 <= String.length piece <= n) pieces
      /\ Forall (fun piece => String.length piece = n) (removelast pieces)
      /\ String.length text - i <= List.length pieces * n
      /\ List.length pieces * n < String.length text - i + n.
Proof.
  intros Hn.
  assert (Hdone : forall i, String.length text <= i ->
            list_ascii_of_string (joined []) = drop i (list_ascii_of_string text)
            /\ Forall (fun piece => 1 <= String.length piece <= n) []
            /\ Forall (fun piece => String.length piece = n) (removelast [])
            /\ String.length text - i <= List.length (@nil string) * n
            /\ List.length (@nil string) * n < String.length text - i + n).
  { intros i Hge. split.
    { rewrite drop_ge; [done|]. rewrite <- string_length_list. lia. }
    cbn. repeat split; try constructor; lia. }
  induction rounds as [|rounds IH]; intros i chunks Henough.
  - cbn [ChatGateway.chunkText_from].
    destruct (Nat.ltb_spec i (String.length text)) as [Hlt|Hge]; [lia|].
    exists []. rewrite app_nil_r. split; [done|]. by apply Hdone.
  - cbn [ChatGateway.chunkText_from].
    destruct (Nat.ltb_spec i (String.length text)) as [Hlt|Hge].
    2:{ exists []. rewrite app_nil_r. split; [done|]. by apply Hdone. }
    destruct (IH (i + n) (chunks ++ [String.substring i n text]))
      as (pieces & Hrun & Hjoined & Hsizes & Hfull & Hlower & Hupper); [lia|].
    set (piece := String.substring i n text) in *.
    assert (Hpiece : String.length piece = Nat.min n (String.length text - i)).
    { unfold piece. rewrite string_length_list, substring_take_drop.
      rewrite length_take, length_drop, <- string_length_list. lia. }
    exists (piece :: pieces).
    split; [by rewrite Hrun, <- app_assoc|].
    split.
    { change (joined (piece :: pieces)) with (piece +:+ joined pieces).
      rewrite list_ascii_of_string_append, Hjoined. unfold piece.
      rewrite substring_take_drop, <- drop_drop. apply take_drop. }
    split; [constructor; [lia|done]|].
    split.
    { destruct pieces as [|next pieces]; [constructor|].
      change (removelast (piece :: next :: pieces))
        with (piece :: removelast (next :: pieces)).
      constructor; [|done].
      assert (n <= List.length (next :: pieces) * n) by (cbn [List.length]; nia).
      lia. }
    change (List.length (piece :: pieces)) with (S (List.length pieces)).
    assert (S (List.length pieces) * n = n + List.length pieces * n) as -> by lia.
    assert (List.length pieces * n = 0 \/ n <= List.length pieces * n)
      by (destruct (List.length pieces); [left|right]; lia).
    lia.
Qed.

(** The chunks of a text, for a positive chunk size. *)
Lemma chunkText_positive (text : string) (n : nat) :
  exists chunks,
    ChatGateway.chunkText text (S n) = Some chunks
    /\ joined chunks = text
    /\ Forall (fun chunk => 1 <= String.length chunk <= S n) chunks
    /\ Forall (fun chunk => String.length chunk = S n) (removelast chunks)
    /\ String.length text <= List.length chunks * S n < String.length text + S n.
Proof.
  destruct (chunkText_from_spec text (S n)) with (rounds := String.length text)
    (i := 0) (chunks := @nil string)
    as (pieces & Hrun & Hjoined & Hsizes & Hfull & Hlower & Hupper); [lia..|].
  exists pieces. unfold ChatGateway.chunkText.
  split; [done|]. split.
  { rewrite <- (string_of_list_ascii_of_string (joined pieces)), Hjoined.
    cbn. apply string_of_list_ascii_of_string. }
  split; [done|]. split; [done|]. lia.
Qed.

(** X22.  [chunkText] cuts a text into consecutive pieces and loses nothing:
    for a positive chunk size it returns chunks whose concatenation is the
    text; no chunk is empty or longer than the chunk size, every chunk but
    the last has exactly that size, and there are as many chunks as the
    length divided by the size, rounded up (none for the empty text).  With
    chunk size 0 the loop never ends, except on the empty text. *)
Theorem chunkText_splits_the_text (text : string) (chunkSize : nat) :
  match chunkSize with
  | 0 =>
      ChatGateway.chunkText text 0
      = match text with EmptyString => Some [] | _ => None end
  | S _ =>
      exists chunks,
        ChatGateway.chunkText text chunkSize = Some chunks
        /\ joined chunks = text
        /\ Forall (fun chunk => 1 <= String.length chunk <= chunkSize) chunks
        /\ Forall (fun chunk => String.length chunk = chunkSize) (removelast chunks)
        /\ String.length text <= List.length chunks * chunkSize
           < String.length text + chunkSize
  end.
Proof.
  destruct chunkSize as [|n]; [|apply chunkText_positive].
  unfold ChatGateway.chunkText. destruct text as [|c text]; [done|].
  assert (Hloop : forall rounds chunks,
            ChatGateway.chunkText_from rounds (String c text) 0 0 chunks = None).
  { induction rounds as [|rounds IH]; intros chunks; [done|].
    cbn [ChatGateway.chunkText_from]. cbn [String.length Nat.ltb Nat.leb Nat.add].
    apply IH. }
  apply Hloop.
Qed.

(** ** Runs and the arrays of others *)

Section RunArrays.

Variable llm : list LlmCall -> GenerateOptions -> Outcome GenerateResponse.
Variable db : Database.

(** The arrays that [prepare] leaves alone: all but the caller's. *)
Lemma prepare_leaves_other_arrays options w l :
  is_Some (heap w !! l) ->
  previousMessages options <> Some l ->
  heap (prepare options w).2 !! l = heap w !! l
  /\ is_Some (heap (prepare options w).2 !! l).
Proof.
  intros Hl Hother. unfold prepare, bind, ret, push, alloc.
  destruct (previousMessages options) as [array|]; cbn.
  - assert (array <> l) by congruence.
    rewrite lookup_insert_ne by done. done.
  - assert (fresh (dom (heap w)) <> l).
    { intros <-. apply elem_of_dom in Hl. by apply is_fresh in Hl. }
    rewrite !lookup_insert_ne by done. done.
Qed.

Lemma execute_leaves_arrays options w l :
  is_Some (heap w !! l) ->
  previousMessages options <> Some l ->
  heap (execute llm db options w).2 !! l = heap w !! l.
Proof.
  intros Hl Hother.
  destruct (findUnique_agent db (agentId options)) as [found|] eqn:Hfound.
  2:{ by rewrite (execute_not_found llm db options w Hfound). }
  rewrite (execute_found llm db options found w Hfound). unfold bind.
  destruct (prepare_leaves_other_arrays options w l Hl Hother) as [Hkept Hstill].
  destruct (prepare options w) as [[messages|e] w0]; cbn [snd] in *; [|done].
  destruct (strategy_requests llm db found options messages w0) as (_ & _ & Hframe & _).
  by rewrite Hframe.
Qed.

(** The first conversation of a run: the caller's messages, then the user
    input. *)
Lemma execute_first_conversation options found w :
  findUnique_agent db (agentId options) = Some found ->
  exists call rest,
    llm_calls (execute llm db options w).2 = llm_calls w ++ call :: rest
    /\ go_messages (request call)
       = caller_messages options w ++ [user_message (input options)].
Proof.
  intros Hfound. rewrite (execute_found llm db options found w Hfound). unfold bind.
  destruct (prepare_conversation options w) as (messages & w0 & -> & Hcalls & Hheap).
  destruct (strategy_requests llm db found options messages w0)
    as (new & Hnew & _ & _ & call & rest & -> & Hfirst).
  exists call, rest. rewrite Hnew, Hcalls. split; [done|].
  by rewrite Hfirst, Hheap.
Qed.

(** A run given no executors invokes nothing. *)
Lemma execute_without_executors options w :
  toolExecutors options = None ->
  tool_invocations (execute llm db options w).2 = tool_invocations w.
Proof.
  intros Hnone.
  destruct (findUnique_agent db (agentId options)) as [found|] eqn:Hfound.
  2:{ by rewrite (execute_not_found llm db options w Hfound). }
  destruct (execute_effects llm db options found w Hfound)
    as (new & invoked & _ & _ & Hlog & Hsupplied & _).
  rewrite Hnone in Hsupplied. cbn in Hsupplied.
  destruct invoked as [|invocation rest]; [by rewrite Hlog, app_nil_r|].
  apply Forall_cons in Hsupplied as [(_ & executor & Hin & _) _].
  by apply elem_of_nil in Hin.
Qed.

End RunArrays.

(** X23.  A run changes no message array but the one it is given: every
    array that existed before the run and is not the caller's
    [previousMessages] holds after the run, however it ends, what it held
    before. *)
Theorem execute_leaves_other_arrays
    (llm : list LlmCall -> GenerateOptions -> Outcome GenerateResponse)
    (db : Database) (options : AgentExecutionOptions) (w : World)
    (l : loc) (held : list Message) :
  heap w !! l = Some held ->
  previousMessages options <> Some l ->
  heap (execute llm db options w).2 !! l = Some held.
Proof.
  intros Hheld Hother. rewrite <- Hheld.
  apply execute_leaves_arrays; [by rewrite Hheld|done].
Qed.

(** ** The chat service *)

Lemma insert_asc_elem e l x : x ∈ ChatService.insert_asc e l <-> x = e \/ x ∈ l.
Proof.
  induction l as [|f rest IH]; cbn.
  - rewrite list_elem_of_singleton. split; [auto|]. intros [?|H]; [done|].
    by apply elem_of_nil in H.
  - destruct (ChatService.e_timestamp e <? ChatService.e_timestamp f)%Z.
    + by rewrite elem_of_cons.
    + rewrite !elem_of_cons, IH. tauto.
Qed.

Lemma insert_asc_sorted e l :
  StronglySorted older_first l -> StronglySorted older_first (ChatService.insert_asc e l).
Proof.
  induction 1 as [|f rest Hsorted IH Hall]; cbn.
  - repeat constructor.
  - destruct (ChatService.e_timestamp e <? ChatService.e_timestamp f)%Z eqn:Hcmp.
    + apply Z.ltb_lt in Hcmp. constructor; [by constructor|].
      constructor; [unfold older_first; lia|].
      eapply Forall_impl; [exact Hall|]. unfold older_first. intros; lia.
    + apply Z.ltb_ge in Hcmp. constructor; [done|].
      apply Forall_forall. intros x Hx. apply insert_asc_elem in Hx as [->|Hx]; [done|].
      rewrite Forall_forall in Hall. by apply Hall.
Qed.

Lemma orderBy_timestamp_asc_elem l x : x ∈ ChatService.orderBy_timestamp_asc l <-> x ∈ l.
Proof.
  unfold ChatService.orderBy_timestamp_asc. induction l as [|e rest IH]; cbn; [done|].
  rewrite insert_asc_elem, elem_of_cons, IH. done.
Qed.

Lemma orderBy_timestamp_asc_sorted l :
  StronglySorted older_first (ChatService.orderBy_timestamp_asc l).
Proof.
  unfold ChatService.orderBy_timestamp_asc.
  induction l as [|e rest IH]; cbn; [constructor|]. by apply insert_asc_sorted.
Qed.

Lemma insert_asc_length e l :
  List.length (ChatService.insert_asc e l) = S (List.length l).
Proof.
  induction l as [|f rest IH]; cbn; [done|].
  destruct (ChatService.e_timestamp e <? ChatService.e_timestamp f)%Z; cbn; by rewrite ?IH.
Qed.

Section ChatRuns.

Variable llm : list LlmCall -> GenerateOptions -> Outcome GenerateResponse.
Variable db : Database.

(** [processMessage] on a chat with an agent and a history, spelled out. *)
Lemma processMessage_runs now chatId agentId store w chat events
    effectiveAgentId earlier lastEvent :
  ChatService.findUnique_chat store chatId = Some (chat, events) ->
  ChatService.effective_agent agentId chat = Some effectiveAgentId ->
  history_of events = earlier ++ [lastEvent] ->
  ChatService.processMessage llm db now chatId agentId store w
  = let options :=
      chat_options chat effectiveAgentId lastEvent (fresh (dom (heap w))) in
    match execute llm db options (chat_world earlier w) with
    | (Thrown e, w2) => (ChatService.Failed (ChatService.Raised e), store, w2)
    | (Returned result, w2) =>
        (ChatService.Done (Some result),
         ChatService.update_chat
           (ChatService.create_chatEvent store
              {| ChatService.e_chatId := ChatService.c_id chat;
                 ChatService.e_timestamp := now;
                 ChatService.e_sender := "agent";
                 ChatService.e_messageType := "text";
                 ChatService.e_content := output result;
                 ChatService.e_modelAlias := ChatService.c_modelAlias chat |})
           (ChatService.c_id chat) (ChatService.closed_with result),
         w2)
    end.
Proof.
  intros Hchat Hagent Hhistory. unfold ChatService.processMessage.
  rewrite Hchat, Hagent. fold (history_of events). rewrite Hhistory.
  rewrite List.map_app. cbn [List.map].
  rewrite last_snoc, List.removelast_last. cbn [alloc content ChatService.message_of_event default].
  reflexivity.
Qed.

End ChatRuns.

(** X24.  What [processMessage] does to the stores.  In every case no tool is
    invoked (the chat service supplies no executor) and every message array
    that existed is left as it was.  Without an agent, neither asked for nor
    bound to the chat, it returns [null] and does nothing, and an unknown
    chat is refused with [Chat not found] before anything is done.  When the
    run fails, the failure is passed on and the tables are left untouched: no
    event is written, and the chat keeps its counters and its [isStreaming]
    flag.  When the run returns, exactly one event is appended to the chat,
    with sender [agent], the output of the run as its content and the clock
    reading as its timestamp; the row of the chat has [isStreaming] set to
    [false], its input, output and total token counters raised by the input,
    output and total tokens of the run's usage, and its other columns as they
    were; the rows of the other chats are as they were. *)
Theorem processMessage_effects
    (llm : list LlmCall -> GenerateOptions -> Outcome GenerateResponse)
    (db : Database) (now : Z) (chatId : string) (agentId : option string)
    (store : ChatService.Store) (w : World) :
  let run := ChatService.processMessage llm db now chatId agentId store w in
  tool_invocations run.2 = tool_invocations w
  /\ (forall l, is_Some (heap w !! l) -> heap run.2 !! l = heap w !! l)
  /\ match run.1.1 with
     | ChatService.Failed (ChatService.NotFoundException message) =>
         message = "Chat not found"
         /\ ChatService.findUnique_chat store chatId = None
         /\ run.1.2 = store /\ run.2 = w
     | ChatService.Failed (ChatService.Raised e) =>
         run.1.2 = store
     | ChatService.Done None =>
         run.1.2 = store /\ run.2 = w
         /\ exists chat events,
              ChatService.findUnique_chat store chatId = Some (chat, events)
              /\ ChatService.effective_agent agentId chat = None
     | ChatService.Done (Some result) =>
         exists chat events,
           ChatService.findUnique_chat store chatId = Some (chat, events)
           /\ ChatService.chatEvents run.1.2
              = ChatService.chatEvents store
                ++ [{| ChatService.e_chatId := chatId;
                       ChatService.e_timestamp := now;
                       ChatService.e_sender := "agent";
                       ChatService.e_messageType := "text";
                       ChatService.e_content := output result;
                       ChatService.e_modelAlias := ChatService.c_modelAlias chat |}]
           /\ ChatService.findUnique_chat run.1.2 chatId
              = Some ({| ChatService.c_id := chatId;
                         ChatService.c_organizationId := ChatService.c_organizationId chat;
                         ChatService.c_userId := ChatService.c_userId chat;
                         ChatService.c_agentId := ChatService.c_agentId chat;
                         ChatService.c_modelAlias := ChatService.c_modelAlias chat;
                         ChatService.c_isStreaming := false;
                         ChatService.c_inputTokens :=
                           (ChatService.c_inputTokens chat + inputTokens (usage result))%Z;
                         ChatService.c_outputTokens :=
                           (ChatService.c_outputTokens chat + outputTokens (usage result))%Z;
                         ChatService.c_totalTokens :=
                           (ChatService.c_totalTokens chat + totalTokens (usage result))%Z |},
                      ChatService.orderBy_timestamp_asc
                        (List.filter
                           (fun e => String.eqb (ChatService.e_chatId e) chatId)
                           (ChatService.chatEvents run.1.2)))
           /\ List.filter (fun c => negb (String.eqb (ChatService.c_id c) chatId))
                          (ChatService.chats run.1.2)
              = List.filter (fun c => negb (String.eqb (ChatService.c_id c) chatId))
                            (ChatService.chats store)
           /\ List.length (ChatService.chats run.1.2)
              = List.length (ChatService.chats store)
     end.
Proof.
  cbv zeta. unfold ChatService.processMessage.
  destruct (ChatService.findUnique_chat store chatId) as [[chat events]|] eqn:Hchat;
    [|done].
  destruct (ChatService.effective_agent agentId chat) as [effectiveAgentId|] eqn:Hagent.
  2:{ cbn. split; [done|]. split; [done|]. split; [done|]. split; [done|].
      by exists chat, events. }
  destruct (last _) as [lastMessage|]; [|done].
  unfold alloc.
  match goal with |- context [execute llm db ?o ?w1] =>
    pose proof (execute_without_executors llm db o w1 eq_refl) as Hquiet;
    pose proof (fun l Hl Hother => execute_leaves_arrays llm db o w1 l Hl Hother) as Hframe;
    destruct (execute llm db o w1) as [[result|e] w2] eqn:Hrun
  end; cbn [fst snd] in *.
  all: assert (Harrays : forall l, is_Some (heap w !! l) -> heap w2 !! l = heap w !! l).
  1,3: intros l Hl;
       assert (fresh (dom (heap w)) <> l)
         by (intros <-; apply elem_of_dom in Hl; by apply is_fresh in Hl);
       rewrite Hframe; cbn [heap previousMessages];
       [by rewrite lookup_insert_ne|by rewrite lookup_insert_ne|congruence].
  2:{ done. }
  split; [done|]. split; [done|].
  assert (Hid : ChatService.c_id chat = chatId).
  { unfold ChatService.findUnique_chat in Hchat.
    destruct (List.find _ (ChatService.chats store)) as [row|] eqn:Hfind; [|done].
    injection Hchat as <- _. apply List.find_some in Hfind as [_ Heq].
    by apply String.eqb_eq in Heq. }
  exists chat, events. rewrite Hid.
  split; [done|]. split; [done|].
  split.
  { unfold ChatService.findUnique_chat in *. cbn.
    destruct (List.find _ (ChatService.chats store)) as [row|] eqn:Hfind; [|done].
    injection Hchat as -> _.
    assert (Hupdated : forall rows,
              List.find (fun c => String.eqb (ChatService.c_id c) chatId) rows = Some chat ->
              List.find (fun c => String.eqb (ChatService.c_id c) chatId)
                        (ChatService.update_first chatId (ChatService.closed_with result)
                                                  rows)
              = Some (ChatService.closed_with result chat)).
    { induction rows as [|row rows IH]; cbn; [done|].
      destruct (String.eqb (ChatService.c_id row) chatId) eqn:Hrow.
      - intros [= ->]. cbn. by rewrite Hrow.
      - intros Hrest. cbn. rewrite Hrow. by apply IH. }
    rewrite (Hupdated _ Hfind). unfold ChatService.closed_with. by rewrite Hid. }
  split.
  { cbn. clear. induction (ChatService.chats store) as [|row rows IH]; cbn; [done|].
    destruct (String.eqb (ChatService.c_id row) chatId) eqn:Hrow; cbn.
    - by rewrite Hrow.
    - by rewrite Hrow, IH. }
  cbn. clear. induction (ChatService.chats store) as [|row rows IH]; cbn; [done|].
  destruct (String.eqb (ChatService.c_id row) chatId); cbn; by rewrite ?IH.
Qed.

(** X25.  The conversation that the chat service sends.  The events of the
    chat are read in the order of their timestamps; system events are left
    out; an event of the user becomes a [user] message and any other event an
    [assistant] message.  The last of these events, whoever sent it, is the
    input of the run: the first model call is made on the messages of the
    events before it followed by its content as a [user] message, and no
    conversation of the run holds a system message. *)
Theorem processMessage_conversation
    (llm : list LlmCall -> GenerateOptions -> Outcome GenerateResponse)
    (db : Database) (now : Z) (chatId : string) (agentId : option string)
    (store : ChatService.Store) (w : World)
    (chat : ChatService.Chat) (events : list ChatService.ChatEvent)
    (effectiveAgentId : string) (found : AgentWithRelations)
    (earlier : list ChatService.ChatEvent) (lastEvent : ChatService.ChatEvent) :
  ChatService.findUnique_chat store chatId = Some (chat, events) ->
  ChatService.effective_agent agentId chat = Some effectiveAgentId ->
  findUnique_agent db effectiveAgentId = Some found ->
  history_of events = earlier ++ [lastEvent] ->
  let run := ChatService.processMessage llm db now chatId agentId store w in
  (exists call rest,
     llm_calls run.2 = llm_calls w ++ call :: rest
     /\ go_messages (request call)
        = List.map ChatService.message_of_event earlier
          ++ [user_message (ChatService.e_content lastEvent)]
     /\ Forall (fun made => Forall not_system (go_messages (request made)))
               (call :: rest))
  /\ StronglySorted older_first events
  /\ (forall e, e ∈ events <->
                e ∈ ChatService.chatEvents store /\ ChatService.e_chatId e = chatId)
  /\ Forall (fun m => role m = user \/ role m = assistant)
            (List.map ChatService.message_of_event (history_of events)).
Proof.
  intros Hchat Hagent Hfound Hhistory. cbv zeta.
  rewrite (processMessage_runs llm db now chatId agentId store w chat events
             effectiveAgentId earlier lastEvent Hchat Hagent Hhistory).
  cbv zeta.
  set (options := chat_options chat effectiveAgentId lastEvent (fresh (dom (heap w)))).
  set (w1 := chat_world earlier w).
  assert (Hroles : forall history,
            Forall (fun m => role m = user \/ role m = assistant)
                   (List.map ChatService.message_of_event history)).
  { intros history. apply Forall_forall. intros m Hin.
    apply list_elem_of_In, List.in_map_iff in Hin as (e & <- & _). cbn.
    destruct (String.eqb (ChatService.e_sender e) "user"); auto. }
  assert (Hcaller : caller_messages options w1
                    = List.map ChatService.message_of_event earlier).
  { unfold caller_messages. cbn. by rewrite lookup_insert_eq. }
  split.
  { destruct (execute_first_conversation llm db options found w1 Hfound)
      as (call & rest & Hcalls & Hfirst).
    destruct (execute_conversations llm not_system) with (db := db) (options := options)
      (found := found) (w := w1) as (new & Hnew & Hkeep); try done.
    { rewrite Hcaller. eapply Forall_impl; [apply Hroles|].
      intros m [Hrole|Hrole]; unfold not_system; by rewrite Hrole. }
    rewrite Hcalls in Hnew. apply app_inv_head in Hnew as <-.
    exists call, rest. rewrite Hcaller in Hfirst.
    by destruct (execute llm db options w1) as [[result|e] w2]. }
  unfold ChatService.findUnique_chat in Hchat.
  destruct (List.find _ (ChatService.chats store)) as [row|]; [|done].
  injection Hchat as _ <-.
  split; [apply orderBy_timestamp_asc_sorted|].
  split; [|apply Hroles].
  intros e. rewrite orderBy_timestamp_asc_elem, !list_elem_of_In, List.filter_In.
  by rewrite String.eqb_eq.
Qed.

(** ** The chat gateway *)

(** X26.  What [processAndStream] sends to the client.  It always starts
    with [streamStart].  When the run returns, the output follows in
    [streamChunk] events whose contents, concatenated, are exactly the output
    of the run, none empty and none longer than 20 characters, and then
    [streamComplete] with the usage of the run.  Without an agent
    [streamComplete] follows at once, with no usage.  When the processing
    fails, [streamError] with the error follows and nothing escapes, unless
    the error is [undefined] or [null], in which case nothing more is sent
    and a [TypeError] escapes.  [streamComplete] and [streamError] are never
    both sent. *)
Theorem processAndStream_streams_the_output
    (llm : list LlmCall -> GenerateOptions -> Outcome GenerateResponse)
    (db : Database) (now : Z) (chatId : string) (agentId : option string)
    (store : ChatService.Store) (w : World) :
  let processed := ChatService.processMessage llm db now chatId agentId store w in
  let streamed := ChatGateway.processAndStream llm db now chatId agentId store w in
  let emitted := streamed.1.1.1 in
  let escaped := streamed.1.1.2 in
  streamed.1.2 = processed.1.2
  /\ streamed.2 = processed.2
  /\ match processed.1.1 with
     | ChatService.Done (Some result) =>
         exists chunks,
           emitted = [ChatGateway.streamStart chatId]
                     ++ List.map (ChatGateway.streamChunk chatId) chunks
                     ++ [ChatGateway.streamComplete chatId (Some (usage result))]
           /\ joined chunks = output result
           /\ Forall (fun chunk => 1 <= String.length chunk <= 20) chunks
           /\ escaped = None
     | ChatService.Done None =>
         emitted = [ChatGateway.streamStart chatId;
                    ChatGateway.streamComplete chatId None]
         /\ escaped = None
     | ChatService.Failed error =>
         if ChatGateway.has_message error
         then emitted = [ChatGateway.streamStart chatId;
                         ChatGateway.streamError chatId error]
              /\ escaped = None
         else emitted = [ChatGateway.streamStart chatId] /\ escaped = Some TypeError
     end.
Proof.
  cbv zeta. unfold ChatGateway.processAndStream.
  destruct (ChatService.processMessage llm db now chatId agentId store w)
    as [[[result|error] store'] w']; cbn [fst snd].
  - destruct result as [result|]; [|done].
    destruct (chunkText_positive (output result) 19)
      as (chunks & -> & Hjoined & Hsizes & _).
    cbn [fst snd]. split; [done|]. split; [done|]. by exists chunks.
  - by destruct (ChatGateway.has_message error).
Qed.

(** ** JSON texts are read back *)

Lemma lex_run_app a : forall st b,
  lex_run st (a ++ b)
  = match lex_run st a with
    | Some st' => lex_run st' b
    | None => None
    end.
Proof.
  induction a as [|c a IH]; intros st b; cbn; [done|].
  destruct (Js.lex_step st c) as [st'|]; [apply IH|done].
Qed.

Lemma lex_from_run a : forall st,
  Js.lex_from st a
  = match lex_run st a with
    | Some st' => Js.lex_from st' []
    | None => None
    end.
Proof.
  induction a as [|c a IH]; intros st; cbn [Js.lex_from lex_run]; [done|].
  destruct (Js.lex_step st c) as [st'|]; [apply IH|done].
Qed.

Lemma settles_idle toks : settles (Js.LIdle, toks) toks.
Proof. split; [by intros c _|done]. Qed.

Lemma settles_number acc phase toks :
  Js.number_complete phase = true ->
  settles (Js.LNum acc phase, toks) (Js.TNum (Js.string_of_rev acc) :: toks).
Proof.
  intros Hcomplete. split.
  - intros c [-> | [-> | ->]]; destruct phase; try done.
  - cbn. by rewrite Hcomplete.
Qed.

(** The lexer reads an escaped character back. *)
Lemma lex_escape_char c acc toks :
  lex_run (Js.LStr acc, toks) (list_ascii_of_string (Js.escape_char c))
  = Some (Js.LStr (c :: acc), toks).
Proof.
  destruct c as [[] [] [] [] [] [] [] []]; reflexivity.
Qed.

Lemma lex_escape s : forall acc toks,
  lex_run (Js.LStr acc, toks) (list_ascii_of_string (Js.escape s))
  = Some (Js.LStr (rev (list_ascii_of_string s) ++ acc), toks).
Proof.
  induction s as [|c s IH]; intros acc toks; [done|].
  cbn [Js.escape list_ascii_of_string rev].
  rewrite list_ascii_of_string_append, lex_run_app, lex_escape_char, IH.
  by rewrite <- app_assoc.
Qed.

Lemma lex_quote s toks :
  lex_run (Js.LIdle, toks) (list_ascii_of_string (Js.quote s))
  = Some (Js.LIdle, Js.TStr s :: toks).
Proof.
  unfold Js.quote.
  change (list_ascii_of_string
            (String Js.quote_char (Js.escape s +:+ String Js.quote_char EmptyString)))
    with (Js.quote_char
          :: list_ascii_of_string (Js.escape s +:+ String Js.quote_char EmptyString)).
  rewrite list_ascii_of_string_append.
  change (lex_run (Js.LIdle, toks) (Js.quote_char :: ?l))
    with (lex_run (Js.LStr [], toks) l).
  rewrite lex_run_app, lex_escape, app_nil_r. cbn.
  unfold Js.string_of_rev. by rewrite rev_involutive, string_of_list_ascii_of_string.
Qed.

Lemma number_start_idle c phase toks :
  number_start c = Some phase ->
  Js.lex_idle c toks = Some (Js.LNum [c] phase, toks).
Proof.
  destruct c as [[] [] [] [] [] [] [] []]; cbv; intros [=]; subst; reflexivity.
Qed.

Lemma number_run_lex rest : forall phase final acc toks,
  number_run phase rest = Some final ->
  lex_run (Js.LNum acc phase, toks) rest = Some (Js.LNum (rev rest ++ acc) final, toks).
Proof.
  induction rest as [|c rest IH]; intros phase final acc toks; cbn.
  - by intros [= <-].
  - destruct (Js.lex_number phase c) as [[phase'|]|]; try done.
    intros Hrun. rewrite (IH _ _ _ _ Hrun). by rewrite <- app_assoc.
Qed.

Lemma lex_number_lexeme lexeme toks :
  is_number lexeme = true ->
  exists st,
    lex_run (Js.LIdle, toks) (list_ascii_of_string lexeme) = Some st
    /\ settles st (Js.TNum lexeme :: toks).
Proof.
  unfold is_number.
  destruct (list_ascii_of_string lexeme) as [|c rest] eqn:Hchars; [done|].
  destruct (number_start c) as [phase|] eqn:Hstart; [|done].
  destruct (number_run phase rest) as [final|] eqn:Hrun; [|done].
  intros Hcomplete. eexists. split.
  - cbn [lex_run Js.lex_step]. rewrite (number_start_idle _ _ _ Hstart).
    apply number_run_lex, Hrun.
  - assert (Js.string_of_rev (rev rest ++ [c]) = lexeme) as Hlexeme.
    { unfold Js.string_of_rev. rewrite rev_app_distr, rev_involutive. cbn.
      change (string_of_list_ascii (c :: rest) = lexeme).
      by rewrite <- Hchars, string_of_list_ascii_of_string. }
    rewrite <- Hlexeme at 1. by apply settles_number.
Qed.

(** Induction on values, through the items of arrays and the fields of
    objects. *)
Lemma Value_induction (P : Js.Value -> Prop) :
  P Js.Undefined -> P Js.Null -> (forall b, P (Js.Bool b)) ->
  (forall lexeme, P (Js.Number lexeme)) -> (forall s, P (Js.Str s)) ->
  (forall items, Forall P items -> P (Js.Array items)) ->
  (forall fields, Forall (fun field => P (snd field)) fields -> P (Js.Object fields)) ->
  (forall message, P (Js.Error message)) ->
  forall v, P v.
Proof.
  intros Hundefined Hnull Hbool Hnumber Hstr Harray Hobject Herror.
  fix IH 1. intros [| |b|lexeme|s|items|fields|message].
  - exact Hundefined.
  - exact Hnull.
  - apply Hbool.
  - apply Hnumber.
  - apply Hstr.
  - apply Harray.
    exact ((fix all (l : list Js.Value) : Forall P l :=
              match l with
              | [] => @List.Forall_nil _ P
              | x :: rest => @List.Forall_cons _ P x rest (IH x) (all rest)
              end) items).
  - apply Hobject.
    exact ((fix all (l : list (string * Js.Value)) : Forall (fun field => P (snd field)) l :=
              match l with
              | [] => @List.Forall_nil _ (fun field => P (snd field))
              | (k, x) :: rest =>
                  @List.Forall_cons _ (fun field => P (snd field)) (k, x) rest
                                    (IH x) (all rest)
              end) fields).
  - apply Herror.
Qed.

Lemma stringify_array items :
  Js.stringify (Js.Array items)
  = Some ("[" +:+ Js.join "," (List.map item_text items) +:+ "]").
Proof.
  reflexivity.
Qed.

Lemma stringify_object fields :
  Forall (fun field => is_Some (Js.stringify (snd field))) fields ->
  Js.stringify (Js.Object fields)
  = Some ("{" +:+ Js.join "," (List.map member_text fields) +:+ "}").
Proof.
  intros Hall. simpl Js.stringify. do 4 f_equal.
  induction Hall as [|[k x] fields [t Ht] Hrest IH]; [done|].
  cbn [List.map]. rewrite <- IH. unfold member_text, item_text. cbn [fst snd] in *.
  by rewrite Ht.
Qed.

Lemma is_json_array items :
  is_json (Js.Array items) = true <-> Forall (fun x => is_json x = true) items.
Proof.
  cbn [is_json]. induction items as [|x items IH].
  - split; [constructor|done].
  - rewrite andb_true_iff, IH. split.
    + intros [? ?]. by constructor.
    + intros H. by apply Forall_cons in H.
Qed.

Lemma is_json_object fields :
  is_json (Js.Object fields) = true
  <-> Forall (fun field => is_json (snd field) = true) fields.
Proof.
  cbn [is_json]. induction fields as [|[k x] fields IH].
  - split; [constructor|done].
  - rewrite andb_true_iff, IH. split.
    + intros [? ?]. by constructor.
    + intros H. by apply Forall_cons in H.
Qed.

Lemma tokens_of_array items :
  tokens_of (Js.Array items) = Js.TLBracket :: element_tokens items ++ [Js.TRBracket].
Proof.
  reflexivity.
Qed.

Lemma tokens_of_object fields :
  tokens_of (Js.Object fields) = Js.TLBrace :: member_tokens fields ++ [Js.TRBrace].
Proof.
  reflexivity.
Qed.

Lemma lexes_text v : lexes v ->
  forall toks, exists st,
    lex_run (Js.LIdle, toks) (list_ascii_of_string (item_text v)) = Some st
    /\ settles st (rev (tokens_of v) ++ toks).
Proof. intros (text & Htext & Hlex). unfold item_text. by rewrite Htext. Qed.

Lemma lex_elements items :
  Forall lexes items -> items <> [] ->
  forall toks, exists st,
    lex_run (Js.LIdle, toks)
            (list_ascii_of_string (Js.join "," (List.map item_text items))) = Some st
    /\ settles st (rev (element_tokens items) ++ toks).
Proof.
  induction 1 as [|x items Hx Hitems IH]; [done|]. intros _ toks.
  destruct items as [|y items].
  { cbn [List.map Js.join element_tokens]. by apply lexes_text. }
  change (Js.join "," (List.map item_text (x :: y :: items)))
    with (item_text x +:+ "," +:+ Js.join "," (List.map item_text (y :: items))).
  rewrite !list_ascii_of_string_append, lex_run_app.
  destruct (lexes_text x Hx toks) as (st1 & -> & [Hdelimiter _]).
  change (list_ascii_of_string ",") with [Js.chr 44].
  cbn [app lex_run]. rewrite Hdelimiter by auto.
  change (Js.lex_idle (Js.chr 44) ?t) with (Some (Js.LIdle, Js.TComma :: t)).
  destruct (IH ltac:(done) (Js.TComma :: rev (tokens_of x) ++ toks)) as (st & Hrun & Hsettles).
  exists st. split; [done|].
  change (element_tokens (x :: y :: items))
    with (tokens_of x ++ Js.TComma :: element_tokens (y :: items)).
  rewrite rev_app_distr. cbn [rev]. by rewrite <- !app_assoc.
Qed.

Lemma lex_members fields :
  Forall (fun field => lexes (snd field)) fields -> fields <> [] ->
  forall toks, exists st,
    lex_run (Js.LIdle, toks)
            (list_ascii_of_string (Js.join "," (List.map member_text fields))) = Some st
    /\ settles st (rev (member_tokens fields) ++ toks).
Proof.
  assert (Hmember : forall k x, lexes x -> forall toks, exists st,
            lex_run (Js.LIdle, toks) (list_ascii_of_string (member_text (k, x))) = Some st
            /\ settles st (rev (Js.TStr k :: Js.TColon :: tokens_of x) ++ toks)).
  { intros k x Hx toks. unfold member_text. cbn [fst snd].
    rewrite !list_ascii_of_string_append, lex_run_app, lex_quote.
    change (list_ascii_of_string ":") with [Js.chr 58]. cbn [app lex_run].
    change (Js.lex_step (Js.LIdle, ?t) (Js.chr 58)) with (Some (Js.LIdle, Js.TColon :: t)).
    destruct (lexes_text x Hx (Js.TColon :: Js.TStr k :: toks)) as (st & Hrun & Hsettles).
    exists st. split; [done|]. cbn [rev]. by rewrite <- !app_assoc. }
  induction 1 as [|[k x] fields Hx Hfields IH]; [done|]. intros _ toks.
  destruct fields as [|[k' y] fields].
  { cbn [List.map Js.join member_tokens]. by apply Hmember. }
  change (Js.join "," (List.map member_text ((k, x) :: (k', y) :: fields)))
    with (member_text (k, x) +:+ ","
          +:+ Js.join "," (List.map member_text ((k', y) :: fields))).
  rewrite !list_ascii_of_string_append, lex_run_app.
  destruct (Hmember k x Hx toks) as (st1 & -> & [Hdelimiter _]).
  change (list_ascii_of_string ",") with [Js.chr 44].
  cbn [app lex_run]. rewrite Hdelimiter by auto.
  change (Js.lex_idle (Js.chr 44) ?t) with (Some (Js.LIdle, Js.TComma :: t)).
  destruct (IH ltac:(done)
              (Js.TComma :: rev (Js.TStr k :: Js.TColon :: tokens_of x) ++ toks))
    as (st & Hrun & Hsettles).
  exists st. split; [done|].
  change (member_tokens ((k, x) :: (k', y) :: fields))
    with ((Js.TStr k :: Js.TColon :: tokens_of x)
          ++ Js.TComma :: member_tokens ((k', y) :: fields)).
  rewrite rev_app_distr. cbn [rev] in *. by rewrite <- !app_assoc in *.
Qed.

(** The lexer reads the text of a JSON value as the tokens of the value. *)
Lemma is_json_lexes : forall v, is_json v = true -> lexes v.
Proof.
  apply (Value_induction (fun v => is_json v = true -> lexes v)); try done.
  - intros _. exists "null". split; [done|]. intros toks. eexists. split; [reflexivity|].
    apply settles_idle.
  - intros [|] _; eexists; (split; [reflexivity|]); intros toks; eexists;
      (split; [reflexivity|]); apply settles_idle.
  - intros lexeme Hnumber. exists lexeme. split; [done|]. intros toks.
    by apply lex_number_lexeme.
  - intros s _. exists (Js.quote s). split; [done|]. intros toks. eexists.
    split; [apply lex_quote|]. apply settles_idle.
  - intros items IH Hjson. apply is_json_array in Hjson.
    assert (Hitems : Forall lexes items).
    { rewrite Forall_forall in IH, Hjson |- *. intros x Hx. by apply IH, Hjson. }
    eexists. split; [apply stringify_array|]. intros toks.
    rewrite tokens_of_array.
    change (list_ascii_of_string ("[" +:+ ?t +:+ "]"))
      with (Js.chr 91 :: list_ascii_of_string (t +:+ "]")).
    rewrite list_ascii_of_string_append.
    change (lex_run (Js.LIdle, toks) (Js.chr 91 :: ?l))
      with (lex_run (Js.LIdle, Js.TLBracket :: toks) l).
    change (list_ascii_of_string "]") with [Js.chr 93].
    destruct items as [|x items].
    { eexists. split; [reflexivity|]. apply settles_idle. }
    rewrite lex_run_app.
    destruct (lex_elements (x :: items) Hitems ltac:(done) (Js.TLBracket :: toks))
      as (st & -> & [Hdelimiter _]).
    cbn [lex_run]. rewrite Hdelimiter by auto.
    eexists. split; [reflexivity|].
    cbn [rev]. rewrite rev_app_distr. cbn [rev app]. rewrite <- !app_assoc.
    apply settles_idle.
  - intros fields IH Hjson. apply is_json_object in Hjson.
    assert (Hfields : Forall (fun field => lexes (snd field)) fields).
    { rewrite Forall_forall in IH, Hjson |- *. intros x Hx. by apply IH, Hjson. }
    eexists. split.
    { apply stringify_object. eapply Forall_impl; [exact Hfields|].
      intros field (text & -> & _). by eexists. }
    intros toks. rewrite tokens_of_object.
    change (list_ascii_of_string ("{" +:+ ?t +:+ "}"))
      with (Js.chr 123 :: list_ascii_of_string (t +:+ "}")).
    rewrite list_ascii_of_string_append.
    change (lex_run (Js.LIdle, toks) (Js.chr 123 :: ?l))
      with (lex_run (Js.LIdle, Js.TLBrace :: toks) l).
    change (list_ascii_of_string "}") with [Js.chr 125].
    destruct fields as [|field fields].
    { eexists. split; [reflexivity|]. apply settles_idle. }
    rewrite lex_run_app.
    destruct (lex_members (field :: fields) Hfields ltac:(done) (Js.TLBrace :: toks))
      as (st & -> & [Hdelimiter _]).
    cbn [lex_run]. rewrite Hdelimiter by auto.
    eexists. split; [reflexivity|].
    cbn [rev]. rewrite rev_app_distr. cbn [rev app]. rewrite <- !app_assoc.
    apply settles_idle.
Qed.

Lemma parse_scalar tok v :
  (forall stack, Js.expects_value stack = true ->
                 Js.parse_step (stack, None) tok = Js.deliver v stack) ->
  forall stack rest,
    Js.expects_value stack = true ->
    Js.parse_tokens (stack, None) ([tok] ++ rest)
    = match Js.deliver v stack with
      | Some st => Js.parse_tokens st rest
      | None => None
      end.
Proof.
  intros Hstep stack rest Hexpects. cbn [app Js.parse_tokens]. by rewrite Hstep.
Qed.

Lemma parse_elements items :
  Forall parses_back items -> items <> [] ->
  forall acc st stack rest,
    st = Js.AOpen \/ st = Js.AItem ->
    Js.parse_tokens (Js.FArr acc st :: stack, None) (element_tokens items ++ rest)
    = Js.parse_tokens (Js.FArr (rev items ++ acc) Js.ASep :: stack, None) rest.
Proof.
  induction 1 as [|x items Hx Hitems IH]; [done|]. intros _ acc st stack rest Hst.
  assert (Hexpects : Js.expects_value (Js.FArr acc st :: stack) = true)
    by (by destruct Hst as [-> | ->]).
  assert (Hdeliver : Js.deliver x (Js.FArr acc st :: stack)
                     = Some (Js.FArr (x :: acc) Js.ASep :: stack, None))
    by (by destruct Hst as [-> | ->]).
  destruct items as [|y items].
  { cbn [element_tokens rev app]. by rewrite (Hx _ rest Hexpects), Hdeliver. }
  change (element_tokens (x :: y :: items))
    with (tokens_of x ++ Js.TComma :: element_tokens (y :: items)).
  rewrite <- app_assoc, (Hx _ _ Hexpects), Hdeliver.
  cbn [app Js.parse_tokens Js.parse_step].
  rewrite (IH ltac:(done) (x :: acc) Js.AItem stack rest) by auto.
  do 3 f_equal. cbn [rev]. by rewrite <- !app_assoc.
Qed.

Lemma parse_members fields :
  Forall (fun field => parses_back (snd field)) fields -> fields <> [] ->
  forall acc st stack rest,
    st = Js.OOpen \/ st = Js.OKey ->
    Js.parse_tokens (Js.FObj acc st :: stack, None) (member_tokens fields ++ rest)
    = Js.parse_tokens (Js.FObj (rev fields ++ acc) Js.OSep :: stack, None) rest.
Proof.
  assert (Hmember : forall k x, parses_back x -> forall acc st stack rest,
            st = Js.OOpen \/ st = Js.OKey ->
            Js.parse_tokens (Js.FObj acc st :: stack, None)
                            (Js.TStr k :: Js.TColon :: tokens_of x ++ rest)
            = Js.parse_tokens (Js.FObj ((k, x) :: acc) Js.OSep :: stack, None) rest).
  { intros k x Hx acc st stack rest Hst.
    assert (Js.parse_tokens (Js.FObj acc st :: stack, None)
                            (Js.TStr k :: Js.TColon :: tokens_of x ++ rest)
            = Js.parse_tokens (Js.FObj acc (Js.OValue k) :: stack, None)
                              (tokens_of x ++ rest)) as ->
      by (by destruct Hst as [-> | ->]).
    by rewrite (Hx (Js.FObj acc (Js.OValue k) :: stack) rest eq_refl). }
  induction 1 as [|[k x] fields Hx Hfields IH]; [done|]. intros _ acc st stack rest Hst.
  destruct fields as [|[k' y] fields].
  { cbn [member_tokens rev app]. by apply Hmember. }
  change (member_tokens ((k, x) :: (k', y) :: fields))
    with (Js.TStr k :: Js.TColon
          :: tokens_of x ++ Js.TComma :: member_tokens ((k', y) :: fields)).
  cbn [app]. rewrite <- app_assoc. rewrite (Hmember k x Hx acc st stack _ Hst).
  cbn [app Js.parse_tokens Js.parse_step].
  rewrite (IH ltac:(done) ((k, x) :: acc) Js.OKey stack rest) by auto.
  do 3 f_equal. cbn [rev]. by rewrite <- !app_assoc.
Qed.

(** The parser reads the tokens of a JSON value as the value. *)
Lemma is_json_parses_back : forall v, is_json v = true -> parses_back v.
Proof.
  apply (Value_induction (fun v => is_json v = true -> parses_back v)).
  - done.
  - intros _ stack rest _. reflexivity.
  - intros [|] _ stack rest _; reflexivity.
  - intros lexeme _ stack rest _. reflexivity.
  - intros s _. unfold parses_back. apply (parse_scalar (Js.TStr s) (Js.Str s)).
    intros [|[items [| |]|fields [| | | |]] below]; done.
  - intros items IH Hjson. apply is_json_array in Hjson.
    assert (Hitems : Forall parses_back items).
    { rewrite Forall_forall in IH, Hjson |- *. intros x Hx. by apply IH, Hjson. }
    intros stack rest Hexpects. rewrite tokens_of_array.
    cbn [app Js.parse_tokens Js.parse_step]. rewrite Hexpects.
    destruct items as [|x items].
    { cbn [element_tokens app Js.parse_tokens Js.parse_step rev]. done. }
    rewrite <- app_assoc.
    rewrite (parse_elements (x :: items) Hitems ltac:(done) [] Js.AOpen stack) by auto.
    cbn [app Js.parse_tokens Js.parse_step]. by rewrite app_nil_r, rev_involutive.
  - intros fields IH Hjson. apply is_json_object in Hjson.
    assert (Hfields : Forall (fun field => parses_back (snd field)) fields).
    { rewrite Forall_forall in IH, Hjson |- *. intros x Hx. by apply IH, Hjson. }
    intros stack rest Hexpects. rewrite tokens_of_object.
    cbn [app Js.parse_tokens Js.parse_step]. rewrite Hexpects.
    destruct fields as [|field fields].
    { cbn [member_tokens app Js.parse_tokens Js.parse_step rev]. done. }
    rewrite <- app_assoc.
    rewrite (parse_members (field :: fields) Hfields ltac:(done) [] Js.OOpen stack) by auto.
    cbn [app Js.parse_tokens Js.parse_step]. by rewrite app_nil_r, rev_involutive.
  - done.
Qed.

(** [JSON.parse(JSON.stringify(v))] is [v], for a value of the JSON data
    model. *)
Lemma parse_stringify v :
  is_json v = true ->
  exists text, Js.stringify v = Some text /\ Js.parse text = Some v.
Proof.
  intros Hjson.
  destruct (is_json_lexes v Hjson) as (text & Htext & Hlex).
  exists text. split; [done|].
  unfold Js.parse, Js.lex. rewrite lex_from_run.
  destruct (Hlex []) as (st & -> & [_ Hend]). rewrite Hend.
  rewrite app_nil_r, rev_involutive.
  pose proof (is_json_parses_back v Hjson [] [] eq_refl) as Hparse.
  rewrite app_nil_r in Hparse. by rewrite Hparse.
Qed.

(** A plain integer is a JSON number. *)
Lemma number_run_digits (chars : list ascii) :
  forallb Js.is_digit chars = true -> number_run Js.NInt chars = Some Js.NInt.
Proof.
  induction chars as [|c chars IH]; cbn; [done|].
  intros [Hc Hrest]%andb_true_iff. rewrite Hc. by apply IH.
Qed.

Lemma is_plain_integer_number (lexeme : string) :
  is_plain_integer lexeme = true -> is_number lexeme = true.
Proof.
  unfold is_plain_integer, is_number.
  destruct (list_ascii_of_string lexeme) as [|c rest]; [done|].
  unfold number_start.
  destruct (Nat.eqb (Js.code c) 45) eqn:Hminus.
  - destruct rest as [|d more]; [done|].
    cbn [number_run]. unfold Js.lex_number.
    destruct (Nat.eqb (Js.code d) 48) eqn:Hzero.
    + by destruct more.
    + intros [[Hd Hmore]%andb_true_iff _]%andb_true_iff.
      rewrite Hd. by rewrite (number_run_digits more Hmore).
  - destruct (Nat.eqb (Js.code c) 48) eqn:Hzero.
    + by destruct rest.
    + intros [[Hc Hrest]%andb_true_iff _]%andb_true_iff.
      rewrite Hc. by rewrite (number_run_digits rest Hrest).
Qed.

(** The values on which the model is exact are values of the JSON data
    model. *)
Lemma canonical_is_json (v : Js.Value) : canonical v = true -> is_json v = true.
Proof.
  induction v as [| |b|lexeme|s|items IH|fields IH|message] using Value_induction;
    try done.
  - apply is_plain_integer_number.
  - intros Hitems. apply is_json_array.
    induction IH as [|x items Hx _ IHitems]; [constructor|].
    cbn [canonical] in Hitems. apply andb_true_iff in Hitems as [Hhead Hrest].
    constructor; [by apply Hx|by apply IHitems].
  - cbn [canonical]. intros [_ Hfields]%andb_true_iff. apply is_json_object.
    induction IH as [|[k x] fields Hx _ IHfields]; [constructor|].
    apply andb_true_iff in Hfields as [Hhead Hrest].
    constructor; [by apply Hx|by apply IHfields].
Qed.

(** X27.  [JSON.parse] reads back what [JSON.stringify] writes, on the values
    that the model of the two built-ins renders to the letter: [null],
    booleans, strings, integers of at most 15 digits other than [-0], arrays
    of such values, and objects of such values whose keys are distinct and do
    not start with a digit.  For such a value, as for the input of a
    [tool_use] block, [JSON.stringify] gives a text, [JSON.parse] of that text
    gives the value again, and the [JSON.parse] of [executeToolCalls] returns
    it without throwing. *)
Theorem JSON_parse_reads_back_stringify (v : Js.Value) :
  canonical v = true ->
  exists text,
    Js.stringify v = Some text
    /\ Js.parse text = Some v
    /\ forall w, JSON_parse text w = (Returned v, w).
Proof.
  intros Hcanonical.
  destruct (parse_stringify v (canonical_is_json v Hcanonical)) as (text & Htext & Hparse).
  exists text. split; [exact Htext|]. split; [exact Hparse|].
  intros w. unfold JSON_parse. by rewrite Hparse.
Qed.

Lemma requested_response_of response :
  requested (AnthropicProvider.response_of response)
  = tool_uses (AnthropicProvider.r_content response).
Proof.
  rewrite response_of_spec. unfold requested. cbn.
  by destruct (tool_uses (AnthropicProvider.r_content response)).
Qed.

(** X28.  Behind the Anthropic provider the tool phase does not fail on its
    arguments.  The provider writes the arguments of a tool call with
    [JSON.stringify] from the input of the [tool_use] block.  When the inputs
    are made of [null], booleans, strings, integers of at most 15 digits
    other than [-0], arrays, and objects with distinct keys that do not start
    with a digit, [executeToolCalls] parses the arguments of every tool call
    of the response back to the input of its block, so it throws no
    [SyntaxError]: with executors that throw errors it returns one entry per
    tool call. *)
Theorem anthropic_tool_calls_are_read_back
    (response : AnthropicProvider.Response)
    (toolExecutors : list ToolExecutor) (context : ToolExecutionContext) (w : World) :
  (forall id name input,
     AnthropicProvider.ToolUseBlock id name input ∈ AnthropicProvider.r_content response ->
     canonical input = true) ->
  Forall throws_values toolExecutors ->
  let built := AnthropicProvider.response_of response in
  Forall parses (requested built)
  /\ (forall id name input,
        AnthropicProvider.ToolUseBlock id name input
        ∈ AnthropicProvider.r_content response ->
        exists toolCall,
          toolCall ∈ requested built
          /\ tc_id toolCall = id /\ tc_name toolCall = name
          /\ Js.parse (tc_arguments toolCall) = Some input)
  /\ exists produced w',
       executeToolCalls (requested built) toolExecutors context w = (Returned produced, w')
       /\ List.map toolCallId produced = List.map tc_id (requested built).
Proof.
  intros Hcanonical Hvalues. cbv zeta. rewrite requested_response_of.
  assert (Hjson : forall id name input,
            AnthropicProvider.ToolUseBlock id name input
            ∈ AnthropicProvider.r_content response ->
            is_json input = true).
  { intros id name input Hin. apply canonical_is_json. by eapply Hcanonical. }
  clear Hcanonical.
  set (blocks := AnthropicProvider.r_content response) in *.
  assert (Hread : forall id name input,
            AnthropicProvider.ToolUseBlock id name input ∈ blocks ->
            Js.parse (default "undefined" (Js.stringify input)) = Some input).
  { intros id name input Hin.
    destruct (parse_stringify input (Hjson id name input Hin)) as (text & -> & Hparse).
    exact Hparse. }
  assert (Hparses : Forall parses (tool_uses blocks)).
  { apply Forall_forall. intros toolCall Hin.
    unfold tool_uses in Hin.
    apply list_elem_of_In, List.in_concat in Hin as (calls & Hcalls & Hin).
    apply List.in_map_iff in Hcalls as (block & <- & Hblock).
    apply list_elem_of_In in Hblock.
    destruct block as [text|id name input|]; try by destruct Hin.
    destruct Hin as [<-|[]]. unfold parses. cbn. rewrite (Hread id name input Hblock).
    by eexists. }
  split; [done|]. split.
  { intros id name input Hin. eexists. split; [|split; [|split]].
    - unfold tool_uses. apply list_elem_of_In, List.in_concat. eexists. split.
      + apply List.in_map_iff. eexists. split; [reflexivity|].
        apply list_elem_of_In. exact Hin.
      + cbn. left. reflexivity.
    - done.
    - done.
    - cbn. by apply (Hread id name input). }
  destruct (executeToolCalls_completes toolExecutors context (tool_uses blocks) w
              Hparses Hvalues) as (produced & w' & Hrun).
  exists produced, w'. split; [done|].
  by apply executeToolCalls_one_each in Hrun as [? _].
Qed.

(** X29.  A system prompt that [buildMessages] places is the one that the
    Anthropic provider takes out again.  [buildMessages] returns the previous
    messages followed by the user message, behind one system message when the
    system prompt is not empty.  When the previous messages hold no system
    message, [extractSystemPrompt] of the result is the system prompt and
    [filterSystemMessages] of the result is the previous messages followed by
    the user message. *)
Theorem buildMessages_system_prompt_is_extracted
    (systemPrompt userMessage : string) (previousMessages : list Message) :
  Forall not_system previousMessages ->
  let built := LlmService.buildMessages systemPrompt userMessage previousMessages in
  AnthropicProvider.extractSystemPrompt built = systemPrompt
  /\ AnthropicProvider.filterSystemMessages built
     = previousMessages ++ [user_message userMessage]
  /\ List.length built
     = List.length previousMessages
       + match systemPrompt with EmptyString => 1 | _ => 2 end
  /\ last built = Some (user_message userMessage).
Proof.
  intros Hprevious. cbv zeta.
  assert (Hrest : Forall not_system (previousMessages ++ [user_message userMessage])).
  { apply Forall_app. split; [done|]. constructor; [discriminate|constructor]. }
  assert (Hfind : List.find is_system (previousMessages ++ [user_message userMessage])
                  = None).
  { destruct (List.find is_system _) as [m|] eqn:Hfound; [|done].
    apply List.find_some in Hfound as [Hin Hsystem]. apply list_elem_of_In in Hin.
    rewrite Forall_forall in Hrest. specialize (Hrest m Hin).
    unfold not_system, is_system in *. by destruct (role m). }
  unfold LlmService.buildMessages, AnthropicProvider.extractSystemPrompt.
  destruct systemPrompt as [|c rest]; cbn [app].
  - rewrite Hfind, (filterSystemMessages_none _ Hrest), length_app, last_snoc.
    cbn. split; [done|]. split; [done|]. split; [lia|done].
  - cbn [List.find is_system role]. split; [done|].
    split.
    { unfold AnthropicProvider.filterSystemMessages. cbn [List.filter is_system role negb].
      apply (filterSystemMessages_none _ Hrest). }
    split; [cbn; rewrite length_app; cbn; lia|].
    change (?m :: previousMessages ++ [user_message userMessage])
      with ((m :: previousMessages) ++ [user_message userMessage]).
    apply last_snoc.
Qed.

(** ** The further properties at work on concrete runs *)

Lemma lookup_ip_times_out_throws_values :
  Forall throws_values [Scenario.lookup_ip_times_out].
Proof.
  constructor; [|constructor]. intros toolInput context reason [= <-].
  split; discriminate.
Qed.

(** X1 on a phase with one request served and one without executor. *)
Lemma executeToolCalls_answers_every_request_witness :
  exists produced w',
    executeToolCalls [Scenario.lookup_ip_call; Scenario.query_siem_call]
                     [Scenario.lookup_ip_times_out] Scenario.context0 Scenario.world0
    = (Returned produced, w')
    /\ List.map toolCallId produced = ["call_1"; "call_3"]
    /\ Forall (fun entry => is_Some (tr_output entry) <-> tr_error entry = None) produced.
Proof.
  destruct (executeToolCalls [Scenario.lookup_ip_call; Scenario.query_siem_call]
              [Scenario.lookup_ip_times_out] Scenario.context0 Scenario.world0)
    as [[produced|e] w'] eqn:Hrun; [|vm_compute in Hrun; discriminate Hrun].
  destruct (executeToolCalls_answers_every_request _ _ _ _ _ _ Hrun)
    as (_ & Hids & _ & Hentries & _).
  exists produced, w'. split; [reflexivity|]. split; [exact Hids|exact Hentries].
Defined.

(** X2 on a phase with two executors named [lookup_ip]: the one supplied
    first answers, the one after it is never asked. *)
Lemma executeToolCalls_invokes_first_match_witness :
  exists entry w',
    executeToolCalls [Scenario.lookup_ip_call]
                     [Cases.lookup_ip_answers; Scenario.lookup_ip_times_out]
                     Scenario.context0 Scenario.world0
    = (Returned [entry], w')
    /\ tr_output entry = Some (Js.Object [("country", Js.Str "NL")])
    /\ tr_error entry = None
    /\ List.length (tool_invocations w') = 1.
Proof.
  destruct (executeToolCalls [Scenario.lookup_ip_call]
              [Cases.lookup_ip_answers; Scenario.lookup_ip_times_out]
              Scenario.context0 Scenario.world0)
    as [[produced|e] w'] eqn:Hrun; [|vm_compute in Hrun; discriminate Hrun].
  destruct (executeToolCalls_invokes_first_match _ _ _ _ _ _ Hrun) as [Hall Hlog].
  destruct produced as [|entry [|other produced]];
    [by apply Forall2_length in Hall| |by apply Forall2_length in Hall].
  apply Forall2_cons in Hall as [(_ & _ & Hfirst) _].
  destruct (Hfirst [] Cases.lookup_ip_answers [Scenario.lookup_ip_times_out]
              eq_refl eq_refl (Forall_nil_2 _)) as (toolInput & Hinput & Houtput & Herror).
  exists entry, w'. split; [reflexivity|]. split; [exact Houtput|].
  split; [exact Herror|].
  rewrite Hlog. cbn. rewrite Hinput. reflexivity.
Defined.

(** X4 on a phase whose second request has its arguments cut short. *)
Lemma executeToolCalls_malformed_request_aborts_witness :
  Forall parses [Scenario.lookup_ip_call]
  /\ Js.parse (tc_arguments Scenario.truncated_call) = None
  /\ exists w',
       executeToolCalls
         ([Scenario.lookup_ip_call] ++ Scenario.truncated_call :: [Scenario.query_siem_call])
         [Scenario.lookup_ip_times_out] Scenario.context0 Scenario.world0
       = (Thrown SyntaxError, w')
       /\ List.length (tool_invocations w') = 1.
Proof.
  assert (Hparses : Forall parses [Scenario.lookup_ip_call]).
  { constructor; [|constructor]. eexists. vm_compute. reflexivity. }
  assert (Hcut : Js.parse (tc_arguments Scenario.truncated_call) = None)
    by (vm_compute; reflexivity).
  split; [exact Hparses|]. split; [exact Hcut|].
  destruct (executeToolCalls_malformed_request_aborts
              [Scenario.lookup_ip_times_out] Scenario.context0
              [Scenario.lookup_ip_call] Scenario.truncated_call [Scenario.query_siem_call]
              Scenario.world0 Hparses lookup_ip_times_out_throws_values Hcut)
    as (w' & Hrun & Hlog & _).
  exists w'. split; [exact Hrun|]. rewrite Hlog. vm_compute. reflexivity.
Defined.

(** X5 on a request whose executor throws [null]. *)
Lemma executeToolCalls_nullish_rejection_aborts_witness :
  exists w',
    executeToolCalls ([] ++ Scenario.lookup_ip_call :: [Scenario.query_siem_call])
                     [Cases.lookup_ip_throws_null] Scenario.context0 Scenario.world0
    = (Thrown TypeError, w')
    /\ List.length (tool_invocations w') = 1.
Proof.
  destruct (executeToolCalls_nullish_rejection_aborts
              [Cases.lookup_ip_throws_null] Scenario.context0
              [] Scenario.lookup_ip_call [Scenario.query_siem_call]
              Cases.lookup_ip_throws_null
              (Js.Object [("ip", Js.Str "10.0.0.1")]) Js.Null
              Scenario.world0 [] Scenario.world0)
    as (w' & Hrun & Hlog & _);
    [reflexivity|vm_compute; reflexivity|reflexivity|reflexivity|right; reflexivity|].
  exists w'. split; [exact Hrun|]. rewrite Hlog. reflexivity.
Defined.

(** X6 on the loop that asks for a tool on each of its two rounds. *)
Lemma executeLoop_counts_tool_calls_witness :
  exists result w',
    executeLoop Scenario.llm_always_asks Scenario.loop0 Scenario.world0
    = (Returned result, w')
    /\ tool_results_recorded (steps result) = toolCallsExecuted result.
Proof.
  destruct (executeLoop Scenario.llm_always_asks Scenario.loop0 Scenario.world0)
    as [[result|e] w'] eqn:Hrun; [|vm_compute in Hrun; discriminate Hrun].
  destruct (executeLoop_counts_tool_calls _ _ _ _ _ Hrun) as (new & _ & _ & Hrecorded).
  exists result, w'. split; [reflexivity|exact Hrecorded].
Defined.

(** X7 on the same loop. *)
Lemma executeLoop_trace_follows_calls_witness :
  exists result w',
    executeLoop Scenario.llm_always_asks Scenario.loop0 Scenario.world0
    = (Returned result, w')
    /\ exists new : list LlmCall,
         iterations_recorded (steps result) = seq 1 (List.length new)
         /\ List.length new <= 2.
Proof.
  destruct (executeLoop Scenario.llm_always_asks Scenario.loop0 Scenario.world0)
    as [[result|e] w'] eqn:Hrun; [|vm_compute in Hrun; discriminate Hrun].
  destruct (executeLoop_trace_follows_calls _ _ _ _ _ Hrun)
    as (new & _ & _ & Hiterations & Hbound).
  exists result, w'. split; [reflexivity|]. exists new.
  split; [exact Hiterations|exact Hbound].
Defined.

(** X11 on the [single_step] run that asks for [lookup_ip] and then answers:
    of its two calls, the first alone is counted. *)
Lemma execute_usage_accounting_witness :
  exists result w',
    execute Scenario.llm_lookup_then_answer (Scenario.db_with_mode "single_step")
            (Scenario.options_for "agent-1" [Scenario.lookup_ip_times_out])
            Scenario.world0
    = (Returned result, w')
    /\ exists found new,
         llm_calls w' = llm_calls Scenario.world0 ++ new
         /\ totalTokens (usage result)
            = (tokens_in (usage_counted found new)
               + tokens_out (usage_counted found new))%Z.
Proof.
  destruct (execute Scenario.llm_lookup_then_answer (Scenario.db_with_mode "single_step")
              (Scenario.options_for "agent-1" [Scenario.lookup_ip_times_out])
              Scenario.world0) as [[result|e] w'] eqn:Hrun;
    [|vm_compute in Hrun; discriminate Hrun].
  destruct (execute_usage_accounting _ _ _ _ _ _ Hrun)
    as (found & new & _ & Hnew & _ & _ & Htotal & _).
  exists result, w'. split; [reflexivity|]. exists found, new.
  split; [exact Hnew|exact Htotal].
Defined.

(** X12 on the agent with two tools of its own: [lookup_ip] has a
    description, [query_siem] has none and no input schema. *)
Lemma execute_offers_the_agents_tools_witness :
  findUnique_agent Cases.db_with_tools "agent-1" = Some Cases.found_with_tools
  /\ exists first second,
       buildToolDefinitions (tools Cases.found_with_tools) = [first; second]
       /\ td_name first = "lookup_ip"
       /\ td_description first = "Look up an address"
       /\ td_name second = "query_siem"
       /\ td_description second = "Execute query_siem"
       /\ td_inputSchema second
          = Js.Object [("type", Js.Str "object"); ("properties", Js.Object [])].
Proof.
  assert (Hfound : findUnique_agent Cases.db_with_tools
                     (agentId (Scenario.options_for "agent-1" []))
                   = Some Cases.found_with_tools) by (vm_compute; reflexivity).
  split; [exact Hfound|].
  destruct (execute_offers_the_agents_tools Scenario.llm_answers Cases.db_with_tools
              (Scenario.options_for "agent-1" []) Scenario.world0
              Cases.found_with_tools Hfound) as (_ & Hall & _).
  apply Forall2_cons_inv_l in Hall
    as (first & rest & (Hname1 & Hdescription1 & _) & Hall & Hdefinitions).
  apply Forall2_cons_inv_l in Hall
    as (second & rest' & (Hname2 & Hdescription2 & Hschema2) & Hall & ->).
  apply Forall2_nil_inv_l in Hall as ->.
  exists first, second.
  split; [exact Hdefinitions|]. split; [exact Hname1|]. split; [exact Hdescription1|].
  split; [exact Hname2|]. split; [exact Hdescription2|exact Hschema2].
Defined.

(** X13 on the agent with two active prompts and a newer draft. *)
Lemma findUnique_agent_loads_newest_active_prompt_witness :
  findUnique_agent Cases.db_with_prompts "agent-1" = Some Cases.found_with_prompts
  /\ forall p, p ∈ agentSystemPrompts Cases.db_with_prompts ->
               sp_agentId p = "agent-1" -> sp_status p = "active" ->
               (sp_createdAt p <= 3)%Z.
Proof.
  assert (Hfound : findUnique_agent Cases.db_with_prompts "agent-1"
                   = Some Cases.found_with_prompts) by (vm_compute; reflexivity).
  split; [exact Hfound|].
  destruct (findUnique_agent_loads_newest_active_prompt _ _ _ Hfound)
    as (_ & _ & Hnewest).
  cbn [systemPrompts Cases.found_with_prompts] in Hnewest.
  destruct Hnewest as (_ & _ & _ & Hall). exact Hall.
Defined.

(** X19 on a [plan_and_execute] run on a conversation of the user. *)
Lemma execute_system_prompt_reaches_anthropic_only_witness :
  Forall not_system (caller_messages (Scenario.options_for "agent-1" []) Scenario.world0)
  /\ exists new,
       llm_calls (execute Scenario.llm_plan_then_answer
                          (Scenario.db_with_mode "plan_and_execute")
                          (Scenario.options_for "agent-1" []) Scenario.world0).2
       = llm_calls Scenario.world0 ++ new
       /\ Forall (fun call =>
                    Forall not_system
                      (OpenAIProvider.p_messages
                         (OpenAIProvider.params_of unset (request call)))) new.
Proof.
  assert (Hcaller : Forall not_system
                      (caller_messages (Scenario.options_for "agent-1" [])
                                       Scenario.world0)).
  { vm_compute. constructor; [discriminate|constructor]. }
  split; [exact Hcaller|].
  destruct (execute_system_prompt_reaches_anthropic_only
              Scenario.llm_plan_then_answer (Scenario.db_with_mode "plan_and_execute")
              (Scenario.options_for "agent-1" []) Scenario.world0
              (Cases.found_plain "plan_and_execute") unset eq_refl Hcaller)
    as (new & Hnew & Hall).
  exists new. split; [exact Hnew|].
  eapply Forall_impl; [exact Hall|]. intros call (_ & _ & _ & Hnone & _). exact Hnone.
Defined.

(** X21 on an agent with no alias and a configuration without keys, with
    [LLM_PROVIDER=openai]. *)
Lemma execute_needs_the_api_key_witness :
  routed_without_client Cases.config_without_keys
                        (resolve_model_alias (Cases.found_plain "loop_with_limits"))
  /\ exists call w',
       execute (LlmService.generate Cases.config_without_keys unset)
               (Scenario.db_with_mode "loop_with_limits")
               (Scenario.options_for "agent-1" []) Scenario.world0
       = (Thrown TypeError, w')
       /\ llm_calls w' = llm_calls Scenario.world0 ++ [call].
Proof.
  assert (Hrouted : routed_without_client Cases.config_without_keys
                      (resolve_model_alias (Cases.found_plain "loop_with_limits"))).
  { left. split; [vm_compute; reflexivity|reflexivity]. }
  split; [exact Hrouted|].
  destruct (execute_needs_the_api_key Cases.config_without_keys unset
              (Scenario.db_with_mode "loop_with_limits")
              (Scenario.options_for "agent-1" []) Scenario.world0
              (Cases.found_plain "loop_with_limits") eq_refl Hrouted)
    as ((call & w' & Hrun & Hcalls & _) & _).
  exists call, w'. split; [exact Hrun|exact Hcalls].
Defined.

(** X23 on a run given the array at reference 0, beside the array at
    reference 1. *)
Lemma execute_leaves_other_arrays_witness :
  heap (execute Scenario.llm_answers (Scenario.db_with_mode "single_step")
                (Scenario.options_for "agent-1" []) Cases.world_with_two_arrays).2 !! 1
  = Some [user_message "kept"].
Proof.
  apply (execute_leaves_other_arrays Scenario.llm_answers
           (Scenario.db_with_mode "single_step") (Scenario.options_for "agent-1" [])
           Cases.world_with_two_arrays 1 [user_message "kept"]).
  - vm_compute. reflexivity.
  - discriminate.
Defined.

(** X25 on the chat with four events: the first call is made on [hello], [hi]
    and the input [ping]; the system event is left out. *)
Lemma processMessage_conversation_witness :
  exists call rest,
    llm_calls (ChatService.processMessage Scenario.llm_answers
                 (Scenario.db_with_mode "single_step") 5 "chat-1" None
                 Cases.store1 Scenario.world0).2
    = llm_calls Scenario.world0 ++ call :: rest
    /\ go_messages (request call)
       = [user_message "hello";
          {| role := assistant; content := Some "hi";
             tool_calls := None; tool_call_id := None |};
          user_message "ping"].
Proof.
  destruct (processMessage_conversation Scenario.llm_answers
              (Scenario.db_with_mode "single_step") 5 "chat-1" None
              Cases.store1 Scenario.world0
              Cases.chat1
              [Cases.event "user" "hello" 1; Cases.event "agent" "hi" 2;
               Cases.event "system" "joined" 3; Cases.event "user" "ping" 4]
              "agent-1" (Cases.found_plain "single_step")
              [Cases.event "user" "hello" 1; Cases.event "agent" "hi" 2]
              (Cases.event "user" "ping" 4))
    as ((call & rest & Hcalls & Hfirst & _) & _);
    [vm_compute; reflexivity|reflexivity|vm_compute; reflexivity|vm_compute; reflexivity|].
  exists call, rest. split; [exact Hcalls|]. rewrite Hfirst. vm_compute. reflexivity.
Defined.

(** X27 on an object with a string, an array of integers, a boolean and a
    null. *)
Lemma JSON_parse_reads_back_stringify_witness :
  canonical Cases.lookup_input = true
  /\ exists text,
       Js.stringify Cases.lookup_input = Some text
       /\ Js.parse text = Some Cases.lookup_input
       /\ String.length text = 60.
Proof.
  split; [vm_compute; reflexivity|].
  destruct (JSON_parse_reads_back_stringify Cases.lookup_input)
    as (text & Htext & Hparse & _); [vm_compute; reflexivity|].
  exists text. split; [exact Htext|]. split; [exact Hparse|].
  vm_compute in Htext. injection Htext as <-. vm_compute. reflexivity.
Defined.

(** X28 on a vendor answer with one [tool_use] block. *)
Lemma anthropic_tool_calls_are_read_back_witness :
  (exists toolCall,
     requested (AnthropicProvider.response_of Cases.answer_with_tool_use) = [toolCall]
     /\ Js.parse (tc_arguments toolCall) = Some Cases.lookup_input)
  /\ exists produced w',
       executeToolCalls
         (requested (AnthropicProvider.response_of Cases.answer_with_tool_use))
         [Scenario.lookup_ip_times_out] Scenario.context0 Scenario.world0
       = (Returned produced, w').
Proof.
  destruct (anthropic_tool_calls_are_read_back Cases.answer_with_tool_use
              [Scenario.lookup_ip_times_out] Scenario.context0 Scenario.world0)
    as (_ & Hread & produced & w' & Hrun & _).
  - intros id name input Hin.
    apply elem_of_cons in Hin as [Hin|Hin]; [discriminate Hin|].
    apply elem_of_cons in Hin as [Hin|Hin].
    + injection Hin as _ _ ->. vm_compute. reflexivity.
    + by apply elem_of_nil in Hin.
  - exact lookup_ip_times_out_throws_values.
  - split; [|exists produced, w'; exact Hrun].
    destruct (Hread "call_1" "lookup_ip" Cases.lookup_input)
      as (toolCall & Hin & _ & _ & Hparse).
    { apply list_elem_of_further, list_elem_of_here. }
    exists toolCall. split; [|exact Hparse].
    rewrite requested_response_of in Hin |- *.
    apply elem_of_cons in Hin as [->|Hin]; [reflexivity|].
    by apply elem_of_nil in Hin.
Defined.

(** X29 on a conversation of two messages. *)
Lemma buildMessages_system_prompt_is_extracted_witness :
  AnthropicProvider.extractSystemPrompt
    (LlmService.buildMessages "Be brief." "ping" [Scenario.earlier_message])
  = "Be brief.".
Proof.
  destruct (buildMessages_system_prompt_is_extracted "Be brief." "ping"
              [Scenario.earlier_message]) as (Hextracted & _).
  - constructor; [discriminate|constructor].
  - exact Hextracted.
Defined.
